(** * ManualForge: the N-up page composition of [2up.py]

    A shallow embedding of the layout engine of [src/2up.py]
    ([compute_upright_size], [place_page], [build_writer_2up],
    [build_writer_4up] and the argument checks of [main]) and the properties
    its specification states about it.

    Python's [float] arithmetic is kept behind one interface, [PyFloat], with
    two implementations: exact rationals ([Q]), in which the general theorems
    are proved, and the kernel's binary64 numbers, on which the very same
    definitions are run and the rounding of [place_page]'s fit scale is
    bounded. *)

From Stdlib Require Import Reals Qreals.
From Stdlib Require Import QArith Qminmax Qpower ZArith List String Bool Arith.
From Stdlib Require Import Lia Lqa.
From Stdlib Require Import Floats Uint63.
From Stdlib Require Import Sorted Permutation.
Import ListNotations.

Local Open Scope string_scope.
Local Open Scope list_scope.

(** ** Exceptions and the error monad *)

Module Py.

Inductive exn : Type :=
| ZeroDivisionError
| ValueError (msg : string)
| IndexError
| SystemExit (code : Z).

Definition result (A : Type) : Type := (exn + A)%type.

Definition ret {A} (a : A) : result A := inr a.
Definition raise {A} (e : exn) : result A := inl e.

Definition bind {A B} (m : result A) (k : A -> result B) : result B :=
  match m with
  | inl e => inl e
  | inr a => k a
  end.

(** [for x in l: acc = f(acc, x)], stopping at the first exception. *)
Fixpoint foldM {A B} (f : B -> A -> result B) (l : list A) (acc : B)
  : result B :=
  match l with
  | [] => ret acc
  | x :: l' => bind (f acc x) (foldM f l')
  end.

(** [l[i]] for an index that is not negative. *)
Definition index {A} (l : list A) (i : nat) : result A :=
  match nth_error l i with
  | Some a => ret a
  | None => raise IndexError
  end.

(** [enumerate(l)] *)
Definition enumerate {A} (l : list A) : list (nat * A) :=
  combine (seq 0 (List.length l)) l.

(** [min(counts)] and [max(counts)] on a list of lengths: a [ValueError] on
    the empty list. *)
Definition min_list (l : list nat) : result nat :=
  match l with
  | [] => raise (ValueError "min() arg is an empty sequence")
  | x :: l' => ret (fold_left Nat.min l' x)
  end.

Definition max_list (l : list nat) : result nat :=
  match l with
  | [] => raise (ValueError "max() arg is an empty sequence")
  | x :: l' => ret (fold_left Nat.max l' x)
  end.

End Py.

Import Py.

Declare Scope py_scope.
Delimit Scope py_scope with py.
Notation "x <- m ;; k" := (bind m (fun x => k))
  (at level 61, m at next level, right associativity) : py_scope.

(** ** Python floats *)

(** The operations of [float] that [2up.py] uses.  [f_lit] reads a decimal
    literal (given as a fraction) and [f_div] is the quotient by a divisor
    that is not zero; the [ZeroDivisionError] is raised by [truediv]. *)
Class PyFloat (F : Type) : Type := {
  f_lit : Q -> F;
  f_add : F -> F -> F;
  f_sub : F -> F -> F;
  f_mul : F -> F -> F;
  f_div : F -> F -> F;
  f_ltb : F -> F -> bool;
  f_leb : F -> F -> bool;
  f_eqb : F -> F -> bool
}.

Infix "+" := f_add : py_scope.
Infix "-" := f_sub : py_scope.
Infix "*" := f_mul : py_scope.
Infix "<?" := f_ltb (at level 70) : py_scope.
Infix "<=?" := f_leb (at level 70) : py_scope.

Section Float_ops.
Context {F : Type} {PF : PyFloat F}.

(** [a / b] *)
Definition truediv (a b : F) : result F :=
  if f_eqb b (f_lit 0) then raise ZeroDivisionError else ret (f_div a b).

(** [min(a, b)]: the first argument unless the second is smaller. *)
Definition min2 (a b : F) : F := if f_ltb b a then b else a.

End Float_ops.

(** Exact arithmetic. *)
Definition Qlt_bool (a b : Q) : bool := negb (Qle_bool b a).

#[global] Instance Q_exact : PyFloat Q := {|
  f_lit := fun q => q;
  f_add := Qplus;
  f_sub := Qminus;
  f_mul := Qmult;
  f_div := Qdiv;
  f_ltb := Qlt_bool;
  f_leb := Qle_bool;
  f_eqb := Qeq_bool
|}.

(** IEEE 754 binary64, as CPython's [float]. A literal [n/d] with [n] and [d]
    below [2^53] is the correctly rounded quotient of two exact integers. *)
Definition float_of_Z (z : Z) : float :=
  match z with
  | Zneg p => PrimFloat.opp (PrimFloat.of_uint63 (Uint63.of_Z (Zpos p)))
  | _ => PrimFloat.of_uint63 (Uint63.of_Z z)
  end.

#[global] Instance binary64 : PyFloat float := {|
  f_lit := fun q => PrimFloat.div (float_of_Z (Qnum q)) (float_of_Z (Zpos (Qden q)));
  f_add := PrimFloat.add;
  f_sub := PrimFloat.sub;
  f_mul := PrimFloat.mul;
  f_div := PrimFloat.div;
  f_ltb := PrimFloat.ltb;
  f_leb := PrimFloat.leb;
  f_eqb := PrimFloat.eqb
|}.

(** ** The document model *)

(** What [getattr(page, "rotation", 0)] finds: no such attribute, [None], or
    an integer (which a damaged document may set to any value). *)
Inductive rotation_attr : Type :=
| RotAbsent
| RotNone
| RotInt (deg : Z).

(** Modelled from the spec: pypdf's [Transformation] (the placement
    transform of section 4.2), as the operations applied so far, first one
    first. *)
Inductive xform_op (F : Type) : Type :=
| Rotate (deg : Z)
| Scale (s : F)
| Translate (tx ty : F).
Arguments Rotate {F} deg.
Arguments Scale {F} s.
Arguments Translate {F} tx ty.

Definition Transformation (F : Type) : Type := list (xform_op F).

(** Modelled from the spec: the Document I/O Adapter of section 6 is the
    pypdf library, which is not part of the sources. A source document is
    its list of pages ([PageCount], [GetPage]), a page has a media rectangle
    and a rotation, [create_blank_page] is [CreateBlankSheet],
    [merge_transformed_page] is [MergeTransformed] (it records the page and
    the transform it is given) and [add_page] is [AppendSheet]. *)
Record Page (F : Type) : Type := mkPage {
  rotation : rotation_attr;
  mediabox_width : F;
  mediabox_height : F
}.
Arguments mkPage {F}.
Arguments rotation {F}.
Arguments mediabox_width {F}.
Arguments mediabox_height {F}.

Record PdfReader (F : Type) : Type := mkReader { pages : list (Page F) }.
Arguments mkReader {F}.
Arguments pages {F}.

(** A [PageObject] made by [create_blank_page]: its size and what has been
    merged into it, in merge order. *)
Record PageObject (F : Type) : Type := mkSheet {
  sheet_width : F;
  sheet_height : F;
  merged : list (Page F * Transformation F)
}.
Arguments mkSheet {F}.
Arguments sheet_width {F}.
Arguments sheet_height {F}.
Arguments merged {F}.

(** [PdfWriter]: the pages added so far. *)
Definition PdfWriter (F : Type) : Type := list (PageObject F).

Section Engine.
Context {F : Type} {PF : PyFloat F}.
Local Open Scope py_scope.

Definition create_blank_page (width height : F) : PageObject F :=
  mkSheet width height [].

Definition merge_transformed_page (new_page : PageObject F)
    (src_page : Page F) (t : Transformation F) : PageObject F :=
  mkSheet (sheet_width new_page) (sheet_height new_page)
          (merged new_page ++ [(src_page, t)]).

Definition add_page (writer : PdfWriter F) (p : PageObject F) : PdfWriter F :=
  writer ++ [p].

Definition t_rotate (t : Transformation F) (deg : Z) := t ++ [Rotate deg].
Definition t_scale (t : Transformation F) (s : F) := t ++ [Scale s].
Definition t_translate (t : Transformation F) (tx ty : F) :=
  t ++ [Translate tx ty].

(** *** Helpers *)

Definition PT_PER_IN : F := f_lit 72.

Definition SHEET_SIZES : list (string * (F * F)) :=
  [ ("letter", (f_lit 8.5 * PT_PER_IN, f_lit 11 * PT_PER_IN));
    ("a4", (f_lit 595, f_lit 842)) ].

Fixpoint dict_get {V} (d : list (string * V)) (k : string) : option V :=
  match d with
  | [] => None
  | (k', v) :: d' => if String.eqb k k' then Some v else dict_get d' k
  end.

(** [getattr(page, "rotation", 0) or 0] *)
Definition rotation_or_0 (page : Page F) : Z :=
  match rotation page with
  | RotAbsent => 0
  | RotNone => 0
  | RotInt deg => if Z.eqb deg 0 then 0 else deg
  end.

Definition compute_upright_size (page : Page F) : F * F * Z :=
  let rot := rotation_or_0 page in
  let w := mediabox_width page in
  let h := mediabox_height page in
  if (Z.eqb rot 90 || Z.eqb rot 270)%bool then (h, w, rot) else (w, h, rot).

(** The local variables of [place_page] when it reaches its last line. *)
Record place_locals : Type := mkLocals {
  l_zoom : F;
  l_src_w : F;
  l_src_h : F;
  l_rot : Z;
  l_base_scale : F;
  l_scale : F;
  l_y_offset : F;
  l_x_offset : F;
  l_t : Transformation F
}.

Definition place_page_locals (src_page : Page F)
    (slot_x slot_y slot_w slot_h zoom : F) (align : string)
  : result place_locals :=
  let zoom := if zoom <=? f_lit 0 then f_lit 1 else zoom in
  let '(src_w, src_h, rot) := compute_upright_size src_page in
  qw <- truediv slot_w src_w ;;
  qh <- truediv slot_h src_h ;;
  let base_scale := min2 qw qh in
  let scale := base_scale * zoom in
  let scale := if base_scale <? scale then base_scale else scale in
  let y_offset :=
    if String.eqb align "top" then slot_y + (slot_h - src_h * scale)
    else if String.eqb align "bottom" then slot_y
    else slot_y + f_div (slot_h - src_h * scale) (f_lit 2) in
  let x_offset := slot_x + f_div (slot_w - src_w * scale) (f_lit 2) in
  let t : Transformation F := [] in
  let t := if Z.eqb rot 0 then t else t_rotate t (- rot) in
  let t := t_scale t scale in
  let t := t_translate t x_offset y_offset in
  ret (mkLocals zoom src_w src_h rot base_scale scale y_offset x_offset t).

Definition place_page (new_page : PageObject F) (src_page : Page F)
    (slot_x slot_y slot_w slot_h zoom : F) (align : string)
  : result (PageObject F) :=
  l <- place_page_locals src_page slot_x slot_y slot_w slot_h zoom align ;;
  ret (merge_transformed_page new_page src_page (l_t l)).

End Engine.

(** ** Layout builders *)

Section Builders.
Context {F : Type} {PF : PyFloat F}.
Local Open Scope py_scope.

(** A slot [(x, y, sw, sh)]. *)
Definition slot : Type := (F * F * F * F)%type.

(** The sheet size and the [slots] list a builder computes before its
    loop. *)
Record layout : Type := mkLayout {
  lay_W : F;
  lay_H : F;
  lay_slots : list slot
}.

Definition unknown_sheet_size (sheet_size : string) : exn :=
  ValueError ("Unknown sheet size: " ++ sheet_size).

(** [build_writer_2up], up to its [slots] list. *)
Definition layout_2up (sheet_size : string) (margin_in gutter_in : F)
  : result layout :=
  match dict_get SHEET_SIZES sheet_size with
  | None => raise (unknown_sheet_size sheet_size)
  | Some (base_w, base_h) =>
    (* Force landscape for 2-up *)
    let W := base_h in
    let H := base_w in
    let margin := margin_in * PT_PER_IN in
    let gutter := gutter_in * PT_PER_IN in
    let content_w := W - f_lit 2 * margin - gutter in
    let content_h := H - f_lit 2 * margin in
    let slot_w := f_div content_w (f_lit 2) in
    let slot_h := content_h in
    ret (mkLayout W H
           [ (margin, margin, slot_w, slot_h);
             (margin + slot_w + gutter, margin, slot_w, slot_h) ])
  end.

(** [build_writer_4up], up to its [slots] list. *)
Definition layout_4up (sheet_size orientation : string)
    (margin_in gutter_x_in gutter_y_in : F) : result layout :=
  match dict_get SHEET_SIZES sheet_size with
  | None => raise (unknown_sheet_size sheet_size)
  | Some (preset_w, preset_h) =>
    let '(W, H) :=
      if String.eqb orientation "landscape" then (preset_h, preset_w)
      else (preset_w, preset_h) in
    let margin := margin_in * PT_PER_IN in
    let gutter_x := gutter_x_in * PT_PER_IN in
    let gutter_y := gutter_y_in * PT_PER_IN in
    let content_w := W - f_lit 2 * margin - gutter_x in
    let content_h := H - f_lit 2 * margin - gutter_y in
    let slot_w := f_div content_w (f_lit 2) in
    let slot_h := f_div content_h (f_lit 2) in
    ret (mkLayout W H
           [ (margin, margin + slot_h + gutter_y, slot_w, slot_h);
             (margin + slot_w + gutter_x, margin + slot_h + gutter_y,
              slot_w, slot_h);
             (margin, margin, slot_w, slot_h);
             (margin + slot_w + gutter_x, margin, slot_w, slot_h) ])
  end.

(** [total]: the number of sheets to write. *)
Definition total_sheets (stop_mode : string) (sources : list (PdfReader F))
  : result nat :=
  let counts := map (fun r => List.length (pages r)) sources in
  if String.eqb stop_mode "shortest" then min_list counts
  else max_list counts.

(** [sources[min(slot_idx, len(sources) - 1)]]; [total] has been computed
    when this runs, so [sources] is not empty and the index not negative. *)
Definition reader_for_slot (sources : list (PdfReader F)) (slot_idx : nat)
  : result (PdfReader F) :=
  index sources (Nat.min slot_idx (List.length sources - 1)).

(** The body of the loop over [enumerate(slots)]. *)
Definition fill_slot (sources : list (PdfReader F)) (i : nat) (zoom : F)
    (align : string) (new_page : PageObject F) (entry : nat * slot)
  : result (PageObject F) :=
  let '(slot_idx, (x, y, sw, sh)) := entry in
  reader <- reader_for_slot sources slot_idx ;;
  if (i <? List.length (pages reader))%nat then
    src_page <- index (pages reader) i ;;
    place_page new_page src_page x y sw sh zoom align
  else
    (* This source has no page i: leave this slot blank. *)
    ret new_page.

(** The body of the loop over [range(total)]. *)
Definition compose_sheet (lay : layout) (sources : list (PdfReader F))
    (zoom : F) (align : string) (writer : PdfWriter F) (i : nat)
  : result (PdfWriter F) :=
  let new_page := create_blank_page (lay_W lay) (lay_H lay) in
  new_page <- foldM (fill_slot sources i zoom align)
                    (enumerate (lay_slots lay)) new_page ;;
  ret (add_page writer new_page).

(** From [writer = PdfWriter()] to the end of the loop: the same lines in
    both builders. The writer returned is what is written to [out_path]. *)
Definition write_sheets (lay : layout) (sources : list (PdfReader F))
    (align stop_mode : string) (zoom : F) : result (PdfWriter F) :=
  let writer : PdfWriter F := [] in
  total <- total_sheets stop_mode sources ;;
  foldM (compose_sheet lay sources zoom align) (seq 0 total) writer.

Definition build_writer_2up (sources : list (PdfReader F))
    (sheet_size align stop_mode : string) (margin_in gutter_in zoom : F)
  : result (PdfWriter F) :=
  lay <- layout_2up sheet_size margin_in gutter_in ;;
  write_sheets lay sources align stop_mode zoom.

Definition build_writer_4up (sources : list (PdfReader F))
    (sheet_size orientation align stop_mode : string)
    (margin_in gutter_x_in gutter_y_in zoom : F) : result (PdfWriter F) :=
  lay <- layout_4up sheet_size orientation margin_in gutter_x_in gutter_y_in ;;
  write_sheets lay sources align stop_mode zoom.

(** *** The command line *)

(** The options of [main]'s parser that the layout reads. *)
Record Namespace : Type := mkArgs {
  arg_mode : string;
  arg_sheet : string;
  arg_orientation : string;
  arg_align : string;
  arg_stop : string;
  arg_margin_in : F;
  arg_gutter_in : F;
  arg_gutter_y_in : F;
  arg_zoom : F
}.

(** argparse's [choices]: a value outside the list ends the program with
    status 2. *)
Definition check_choice (value : string) (choices : list string)
  : result unit :=
  if existsb (String.eqb value) choices then ret tt
  else raise (SystemExit 2).

Definition parse_args (argv : Namespace) : result Namespace :=
  _ <- check_choice (arg_mode argv) ["2up"; "4up"] ;;
  _ <- check_choice (arg_sheet argv) ["letter"; "a4"] ;;
  _ <- check_choice (arg_orientation argv) ["portrait"; "landscape"] ;;
  _ <- check_choice (arg_align argv) ["center"; "top"; "bottom"] ;;
  _ <- check_choice (arg_stop argv) ["longest"; "shortest"] ;;
  ret argv.

Definition is_file (files : string -> option (PdfReader F)) (p : string)
  : bool :=
  match files p with Some _ => true | None => false end.

Definition open_all (files : string -> option (PdfReader F))
    (inputs : list string) : list (PdfReader F) :=
  flat_map (fun p => match files p with Some r => [r] | None => [] end)
           inputs.

(** [main] from [parse_args] on. [inputs] is the list that the selection of
    input files returned and [files] the PDF files that exist; the result
    is the writer whose pages are written out, or [None] when [main]
    returns without writing. *)
Definition main (argv : Namespace) (inputs : list string)
    (files : string -> option (PdfReader F))
  : result (option (PdfWriter F)) :=
  args <- parse_args argv ;;
  match inputs with
  | [] => ret None
  | _ =>
    let inputs :=
      if String.eqb (arg_mode args) "2up" then firstn 2 inputs
      else firstn 4 inputs in
    if forallb (is_file files) inputs then
      let readers := open_all files inputs in
      if String.eqb (arg_mode args) "2up" then
        w <- build_writer_2up readers (arg_sheet args) (arg_align args)
               (arg_stop args) (arg_margin_in args) (arg_gutter_in args)
               (arg_zoom args) ;;
        ret (Some w)
      else
        w <- build_writer_4up readers (arg_sheet args)
               (arg_orientation args) (arg_align args) (arg_stop args)
               (arg_margin_in args) (arg_gutter_in args)
               (arg_gutter_y_in args) (arg_zoom args) ;;
        ret (Some w)
    else ret None
  end.

End Builders.

Arguments slot F : clear implicits.
Arguments layout F : clear implicits.
Arguments Namespace F : clear implicits.
Arguments place_locals F : clear implicits.

(** ** Vocabulary of the statements *)

Section Vocabulary.
Context {F : Type} {PF : PyFloat F}.

(** The visible (upright) size of a page. *)
Definition visible_width (p : Page F) : F :=
  fst (fst (compute_upright_size p)).
Definition visible_height (p : Page F) : F :=
  snd (fst (compute_upright_size p)).

(** Neither visible dimension is zero: the two quotients of [place_page]
    are defined. *)
Definition has_area (p : Page F) : bool :=
  negb (f_eqb (visible_width p) (f_lit 0))
  && negb (f_eqb (visible_height p) (f_lit 0)).

Definition all_have_area (sources : list (PdfReader F)) : Prop :=
  Forall (fun r => Forall (fun p => has_area p = true) (pages r)) sources.

Definition page_counts (sources : list (PdfReader F)) : list nat :=
  map (fun r => List.length (pages r)) sources.

(** [n] is the largest, resp. the smallest, member of [l]. *)
Definition is_max (l : list nat) (n : nat) : Prop :=
  In n l /\ Forall (fun c => (c <= n)%nat) l.
Definition is_min (l : list nat) (n : nat) : Prop :=
  In n l /\ Forall (fun c => (n <= c)%nat) l.

(** The page that sheet [i] is to show in slot [slot_idx], if its source
    has one. *)
Definition slot_page (sources : list (PdfReader F)) (slot_idx i : nat)
  : option (Page F) :=
  match reader_for_slot sources slot_idx with
  | inr reader => nth_error (pages reader) i
  | inl _ => None
  end.

(** The pages merged into [sheet] are, in slot order, one page for each of
    the [nslots] slots: the page [i] of the slot's source. *)
Definition every_slot_filled (sources : list (PdfReader F)) (nslots i : nat)
    (sheet : PageObject F) : Prop :=
  map (fun m => Some (fst m)) (merged sheet)
  = map (fun slot_idx => slot_page sources slot_idx i) (seq 0 nslots).

(** Every token of the command line is one the parser knows. *)
Definition recognized (argv : Namespace F) : Prop :=
  In (arg_mode argv) ["2up"; "4up"]
  /\ In (arg_sheet argv) ["letter"; "a4"]
  /\ In (arg_orientation argv) ["portrait"; "landscape"]
  /\ In (arg_align argv) ["center"; "top"; "bottom"]
  /\ In (arg_stop argv) ["longest"; "shortest"].

End Vocabulary.

(** ** Vocabulary of the geometry *)

(** The slot lies within the sheet's margins. *)
Definition slot_inside (margin W H : Q) (s : slot Q) : Prop :=
  let '(x, y, sw, sh) := s in
  (margin <= x /\ x + sw <= W - margin
   /\ margin <= y /\ y + sh <= H - margin)%Q.

(** Two slots that share no inner point: one ends where the other starts,
    horizontally or vertically. *)
Definition slots_apart (a b : slot Q) : Prop :=
  let '(ax, ay, aw, ah) := a in
  let '(bx, by_, bw, bh) := b in
  (ax + aw <= bx \/ bx + bw <= ax \/ ay + ah <= by_ \/ by_ + bh <= ay)%Q.

Definition slot_has_size (s : slot Q) : Prop :=
  let '(x, y, sw, sh) := s in (0 <= sw /\ 0 <= sh)%Q.

(** ** Vocabulary of the sheets *)

Section Sheet_vocabulary.
Context {F : Type} {PF : PyFloat F}.

(** What the slot [entry] adds to sheet [i]: nothing when its source has no
    page [i], and else that page with the transform [place_page] computes
    for the slot's rectangle. *)
Definition slot_shows (sources : list (PdfReader F)) (zoom : F)
    (align : string) (i : nat) (entry : nat * slot F)
    (added : list (Page F * Transformation F)) : Prop :=
  let '(slot_idx, (x, y, sw, sh)) := entry in
  match slot_page sources slot_idx i with
  | None => added = []
  | Some p =>
      exists l, place_page_locals p x y sw sh zoom align = inr l
                /\ added = [(p, l_t l)]
  end.

(** Some page of some source has a zero visible dimension. *)
Definition some_page_without_area (sources : list (PdfReader F)) : Prop :=
  exists r p, In r sources /\ In p (pages r) /\ has_area p = false.

End Sheet_vocabulary.

(** ** The matrix of a [Transformation] *)

Module Ctm.

Local Open Scope R_scope.

(** Modelled from the spec: [Transformation] belongs to pypdf, which is not
    part of the sources. Section 4.2 has it as an affine transform in which
    the operations take effect in the order of the calls: the first one in
    the page's local frame, the last one in sheet coordinates. pypdf keeps
    the matrix [((a, b, 0), (c, d, 0), (e, f, 1))], acting on row vectors,
    and each of [rotate], [scale] and [translate] multiplies it on the right
    by the matrix of the operation. *)
Record matrix : Type := mkMatrix {
  m_a : R; m_b : R;
  m_c : R; m_d : R;
  m_e : R; m_f : R
}.

Definition identity : matrix := mkMatrix 1 0 0 1 0 0.

Definition matrix_multiply (m n : matrix) : matrix :=
  mkMatrix (m_a m * m_a n + m_b m * m_c n)
           (m_a m * m_b n + m_b m * m_d n)
           (m_c m * m_a n + m_d m * m_c n)
           (m_c m * m_b n + m_d m * m_d n)
           (m_e m * m_a n + m_f m * m_c n + m_e n)
           (m_e m * m_b n + m_f m * m_d n + m_f n).

(** [math.radians] *)
Definition radians (deg : Z) : R := IZR deg * PI / 180.

Definition rotation_matrix (deg : Z) : matrix :=
  mkMatrix (cos (radians deg)) (sin (radians deg))
           (- sin (radians deg)) (cos (radians deg))
           0 0.

Definition scale_matrix (s : Q) : matrix :=
  mkMatrix (Q2R s) 0 0 (Q2R s) 0 0.

Definition translation_matrix (tx ty : Q) : matrix :=
  mkMatrix 1 0 0 1 (Q2R tx) (Q2R ty).

Definition op_matrix (op : xform_op Q) : matrix :=
  match op with
  | Rotate deg => rotation_matrix deg
  | Scale s => scale_matrix s
  | Translate tx ty => translation_matrix tx ty
  end.

(** The matrix a [Transformation] holds after its operations. *)
Definition ctm (t : Transformation Q) : matrix :=
  fold_left (fun m op => matrix_multiply m (op_matrix op)) t identity.

(** [first] then [second]. *)
Definition then_ (first second : matrix) : matrix :=
  matrix_multiply first second.

End Ctm.

(** [Transformation.apply_on]: where the matrix sends the point [(px, py)]
    of the page (modelled from pypdf, like the matrix itself). *)
Definition apply_on (m : Ctm.matrix) (px py : R) : R * R :=
  (px * Ctm.m_a m + py * Ctm.m_c m + Ctm.m_e m,
   px * Ctm.m_b m + py * Ctm.m_d m + Ctm.m_f m)%R.

(** ** The selection of the input files *)

(** The folders searched by default. *)
Definition PDF_FOLDERS : list string :=
  [ "C:\Users\benoi\Downloads\ebay_manuals";
    "C:\Users\benoi\Downloads\manuals" ].

(** The methods of [str] and the functions of [os] that the selection
    calls: Python's are Unicode-aware and depend on the platform and on the
    file system, and the model takes them as they are given. [os_listdir]
    is [None] on what is not a directory ([os.path.isdir]) and else the
    [os.listdir] of the folder. *)
Class Runtime : Type := {
  str_lower : string -> string;
  str_strip : string -> string;
  str_split : string -> list string;
  str_isdigit : string -> bool;
  str_int : string -> result Z;
  os_listdir : string -> option (list string);
  os_path_join : string -> string -> string
}.

(** [s.endswith(suffix)] and [needle in s], on the bytes of the strings. *)
Definition str_endswith (s suffix : string) : bool :=
  let n := String.length s in
  let m := String.length suffix in
  (m <=? n)%nat && String.eqb (String.substring (n - m) m s) suffix.

Definition str_contains (needle s : string) : bool :=
  match String.index 0 needle s with
  | Some _ => true
  | None => false
  end.

(** What reading the console can end with, besides a result: the end of the
    input, or an exception of the computation. *)
Inductive console_failure : Type :=
| EOFError
| Raised (e : exn).

(** A computation that reads lines of the console: from the lines still to
    be read, its result and the lines left. What is printed is left out. *)
Definition console (A : Type) : Type :=
  list string -> console_failure + (A * list string).

Definition console_ret {A} (a : A) : console A := fun stdin => inr (a, stdin).

Definition console_bind {A B} (m : console A) (k : A -> console B)
  : console B :=
  fun stdin =>
    match m stdin with
    | inl f => inl f
    | inr (a, rest) => k a rest
    end.

Definition console_lift {A} (m : result A) : console A :=
  fun stdin =>
    match m with
    | inl e => inl (Raised e)
    | inr a => inr (a, stdin)
    end.

(** [input(prompt)] *)
Definition input : console string :=
  fun stdin =>
    match stdin with
    | [] => inl EOFError
    | line :: rest => inr (line, rest)
    end.

(** [l[-1]] *)
Definition index_last {A} (l : list A) : result A :=
  match l with
  | [] => raise IndexError
  | x :: l' => ret (last l' x)
  end.

(** [while len(picks) < max_count: picks.append(picks[-1])]. The loop
    appends one item each turn, so [max_count - len(picks)] turns are all
    it can take. *)
Fixpoint pad_loop {A} (turns max_count : nat) (picks : list A)
  : result (list A) :=
  match turns with
  | O => ret picks
  | S turns' =>
    if (List.length picks <? max_count)%nat then
      bind (index_last picks)
           (fun x => pad_loop turns' max_count (picks ++ [x]))
    else ret picks
  end.

(** The loop followed by [picks[:max_count]], as [resolve_inputs] and
    [interactive_pick] end. *)
Definition pad_picks {A} (max_count : nat) (picks : list A)
  : result (list A) :=
  bind (pad_loop (max_count - List.length picks) max_count picks)
       (fun picks => ret (firstn max_count picks)).

Section Selection.
Context {RT : Runtime}.

(** [files.sort(key=lambda x: x.lower())]: a stable sort by the lowered
    name, here by insertion. *)
Fixpoint insert_by_lower (x : string) (l : list string) : list string :=
  match l with
  | [] => [x]
  | y :: l' =>
    if String.leb (str_lower x) (str_lower y) then x :: y :: l'
    else y :: insert_by_lower x l'
  end.

Definition sort_by_lower (l : list string) : list string :=
  fold_right insert_by_lower [] l.

Definition is_pdf_name (f : string) : bool :=
  str_endswith (str_lower f) ".pdf".

(** [list_pdfs_in_cwd], on the [os.listdir(".")] it is given. *)
Definition list_pdfs_in_cwd (listing : list string) : list string :=
  sort_by_lower (filter is_pdf_name listing).

(** The loop over [parts] in [interactive_pick]: the indices selected, or
    [None] when a part is no number of a file. *)
Fixpoint parse_selection (nfiles : nat) (parts : list string)
    (idx : list nat) : result (option (list nat)) :=
  match parts with
  | [] => ret (Some idx)
  | p :: parts' =>
    if negb (str_isdigit p) then ret None
    else
      bind (str_int p)
           (fun n =>
              if (n <? 1)%Z || (n >? Z.of_nat nfiles)%Z then ret None
              else parse_selection nfiles parts' (idx ++ [Z.to_nat (n - 1)]))
  end.

(** [[files[i] for i in idx]] *)
Fixpoint select_files (files : list string) (idx : list nat)
  : result (list string) :=
  match idx with
  | [] => ret []
  | i :: idx' =>
    bind (index files i)
         (fun f => bind (select_files files idx') (fun fs => ret (f :: fs)))
  end.

(** The [while True] loop of [interactive_pick]: one line is read each
    turn, until a line is a valid selection. *)
Fixpoint pick_loop (files : list string) (max_count : nat)
    (stdin : list string) : console_failure + (list string * list string) :=
  match stdin with
  | [] => inl EOFError
  | line :: rest =>
    let raw := str_strip line in
    if String.eqb raw "" then pick_loop files max_count rest
    else
      match parse_selection (List.length files) (str_split raw) [] with
      | inl e => inl (Raised e)
      | inr None => pick_loop files max_count rest
      | inr (Some idx) =>
        console_lift
          (bind (select_files files idx) (pad_picks max_count)) rest
      end
  end.

Definition interactive_pick (listing : list string) (max_count : nat)
  : console (list string) :=
  let files := list_pdfs_in_cwd listing in
  match files with
  | [] => console_ret []
  | _ => pick_loop files max_count
  end.

(** The matches of [find_pdf] in one folder. *)
Definition matches_in (partial_name_lower folder : string) : list string :=
  match os_listdir folder with
  | None => []
  | Some names =>
    map (os_path_join folder)
        (filter (fun f => is_pdf_name f
                          && str_contains partial_name_lower (str_lower f))
                names)
  end.

(** [find_pdf]: [None] when nothing is found or the choice is refused. *)
Definition find_pdf (partial_name : string) : console (option string) :=
  let partial_name_lower := str_lower partial_name in
  let matching_files := flat_map (matches_in partial_name_lower) PDF_FOLDERS in
  match matching_files with
  | [] => console_ret None
  | [only] => console_ret (Some only)
  | _ =>
    console_bind input (fun line =>
    let choice := str_strip line in
    if negb (str_isdigit choice) then console_ret None
    else
      console_bind (console_lift (str_int choice)) (fun n =>
      if (n <? 1)%Z || (n >? Z.of_nat (List.length matching_files))%Z
      then console_ret None
      else
        console_bind
          (console_lift (index matching_files (Z.to_nat (n - 1))))
          (fun f => console_ret (Some f))))
  end.

Definition get_single_input_from_search : console (list string) :=
  console_bind input (fun line =>
  let partial := str_strip line in
  if String.eqb partial "" then console_ret []
  else
    console_bind (find_pdf partial) (fun pdf_path =>
    match pdf_path with
    | None => console_ret []
    | Some path => console_ret [path]
    end)).

(** [resolve_inputs], on [args.mode], [args.inputs] and the listing of the
    current folder. *)
Definition resolve_inputs (mode : string) (inputs listing : list string)
  : console (list string) :=
  let needed := if String.eqb mode "2up" then 2%nat else 4%nat in
  match inputs with
  | [] => interactive_pick listing needed
  | _ => console_lift (pad_picks needed inputs)
  end.

(** How [main] gets its list of input files. *)
Definition select_inputs (manual_inputs : bool) (mode : string)
    (inputs listing : list string) : console (list string) :=
  if manual_inputs then resolve_inputs mode inputs listing
  else get_single_input_from_search.

End Selection.

(** [path] is a file of one of the default folders whose lowered name ends
    with ".pdf" and contains the lowered [partial_name]. *)
Definition found_for {RT : Runtime} (partial_name path : string) : Prop :=
  exists folder names f,
    In folder PDF_FOLDERS
    /\ os_listdir folder = Some names
    /\ In f names
    /\ is_pdf_name f = true
    /\ str_contains (str_lower partial_name) (str_lower f) = true
    /\ path = os_path_join folder f.

(** The names are in the order of their lowered forms. *)
Definition sorted_by_lower {RT : Runtime} (l : list string) : Prop :=
  Sorted (fun a b => String.leb (str_lower a) (str_lower b) = true) l.

(** ** A runtime for ASCII text

    The [str] methods on strings of ASCII characters, on which Python's
    agree with these, and a file system with one of the default folders. *)

Module Ascii_runtime.

Definition is_space (c : Ascii.ascii) : bool :=
  let n := Ascii.nat_of_ascii c in
  (n =? 32)%nat || ((9 <=? n)%nat && (n <=? 13)%nat)
  || ((28 <=? n)%nat && (n <=? 31)%nat).

Definition is_digit (c : Ascii.ascii) : bool :=
  let n := Ascii.nat_of_ascii c in (48 <=? n)%nat && (n <=? 57)%nat.

Definition lower_char (c : Ascii.ascii) : Ascii.ascii :=
  let n := Ascii.nat_of_ascii c in
  if (65 <=? n)%nat && (n <=? 90)%nat then Ascii.ascii_of_nat (n + 32)
  else c.

Fixpoint lower (s : string) : string :=
  match s with
  | EmptyString => EmptyString
  | String c s' => String (lower_char c) (lower s')
  end.

Fixpoint lstrip (s : string) : string :=
  match s with
  | EmptyString => EmptyString
  | String c s' => if is_space c then lstrip s' else s
  end.

Fixpoint rev_string (s acc : string) : string :=
  match s with
  | EmptyString => acc
  | String c s' => rev_string s' (String c acc)
  end.

Definition strip (s : string) : string :=
  rev_string (lstrip (rev_string (lstrip s) EmptyString)) EmptyString.

(** [split()]: the maximal runs of characters that are no spaces; [word]
    is the run being read, last character first. *)
Fixpoint split_from (s word : string) : list string :=
  let close := match word with
               | EmptyString => []
               | _ => [rev_string word EmptyString]
               end in
  match s with
  | EmptyString => close
  | String c s' =>
    if is_space c then close ++ split_from s' EmptyString
    else split_from s' (String c word)
  end.

Definition split (s : string) : list string := split_from s EmptyString.

Fixpoint all_digits (s : string) : bool :=
  match s with
  | EmptyString => true
  | String c s' => is_digit c && all_digits s'
  end.

Definition isdigit (s : string) : bool :=
  match s with
  | EmptyString => false
  | _ => all_digits s
  end.

Fixpoint int_from (s : string) (acc : Z) : Z :=
  match s with
  | EmptyString => acc
  | String c s' =>
    int_from s' (10 * acc + Z.of_nat (Ascii.nat_of_ascii c - 48))%Z
  end.

Definition int (s : string) : result Z :=
  if isdigit s then ret (int_from s 0%Z)
  else raise (ValueError "invalid literal for int()").

Definition listdir (folder : string) : option (list string) :=
  if String.eqb folder "C:\Users\benoi\Downloads\manuals"
  then Some ["Radio.PDF"; "notes.txt"; "radio_service.pdf"; "tv.pdf"]
  else None.

Definition path_join (folder f : string) : string :=
  String.append folder (String.append "\" f).

#[global] Instance runtime : Runtime := {|
  str_lower := lower;
  str_strip := strip;
  str_split := split;
  str_isdigit := isdigit;
  str_int := int;
  os_listdir := listdir;
  os_path_join := path_join
|}.

End Ascii_runtime.

(** ** The value of a binary64 number

    What a [float] stands for, read off its sign, mantissa and exponent
    ([Prim2SF]): the number [m * 2^e]. Zeros, infinities and NaN are given
    the value 0 and are kept out of the statements by [positive_finite] and
    [positive_normal]. *)

Definition SF2Q (x : spec_float) : Q :=
  match x with
  | S754_finite s m e =>
    (if s then - inject_Z (Zpos m) else inject_Z (Zpos m)) * 2 ^ e
  | _ => 0
  end.

Definition float_value (x : float) : Q := SF2Q (Prim2SF x).

(** A finite number above zero. *)
Definition positive_finite (x : float) : bool :=
  match Prim2SF x with
  | S754_finite false _ _ => true
  | _ => false
  end.

(** A normal number above zero: the mantissa has all its 53 bits, so the
    operation that gave [x] neither overflowed nor underflowed. *)
Definition positive_normal (x : float) : bool :=
  match Prim2SF x with
  | S754_finite false m _ => ((2 ^ 52 <=? Zpos m) && (Zpos m <? 2 ^ 53))%Z
  | _ => false
  end.

(** A normal number above zero that is neither tiny nor huge: its exponent
    is between -300 and 300, its value from [2^-248] to just below [2^353].
    Sizes in points are of this kind. *)
Definition positive_moderate (x : float) : bool :=
  match Prim2SF x with
  | S754_finite false m e =>
    ((2 ^ 52 <=? Zpos m) && (Zpos m <? 2 ^ 53)
     && (-300 <=? e) && (e <=? 300))%Z
  | _ => false
  end.

(** A normal number above zero with its exponent between [lo] and [hi]. *)
Definition normal_between (lo hi : Z) (x : float) : Prop :=
  exists m e,
    Prim2SF x = S754_finite false m e
    /\ (2 ^ 52 <= Zpos m < 2 ^ 53)%Z
    /\ (lo <= e <= hi)%Z.

(** The relative error allowed to one operation in the statements,
    [2^-51]. Rounding to nearest commits at most [2^-53]; the larger bound
    is what the proofs below need of the rounding, that it moves a mantissa
    by at most one unit. *)
Definition rounding_unit : Q := 2 ^ (-51).

(** * Properties *)

(** ** Facts about the error monad and the loops *)

Local Open Scope nat_scope.

Lemma bind_inr {A B} (m : result A) (k : A -> result B) (b : B) :
  bind m k = inr b -> exists a, m = inr a /\ k a = inr b.
Proof.
  destruct m as [e | a]; simpl; intros Hb.
  - discriminate.
  - exists a. split; [reflexivity | exact Hb].
Qed.

(** A loop whose every step succeeds, succeeds. *)
Lemma foldM_succeeds {A B} (f : B -> A -> result B) (l : list A) :
  (forall acc x, In x l -> exists acc', f acc x = inr acc') ->
  forall acc, exists r, foldM f l acc = inr r.
Proof.
  induction l as [| x l IH]; intros Hstep acc; simpl.
  - exists acc. reflexivity.
  - destruct (Hstep acc x (or_introl eq_refl)) as [acc' Hx].
    rewrite Hx. simpl. apply IH.
    intros acc0 y Hy. apply Hstep. right. exact Hy.
Qed.

(** An invariant of the steps that succeeded holds of the result. *)
Lemma foldM_invariant {A B} (f : B -> A -> result B) (P : B -> Prop)
    (l : list A) :
  (forall acc x acc', In x l -> P acc -> f acc x = inr acc' -> P acc') ->
  forall acc r, P acc -> foldM f l acc = inr r -> P r.
Proof.
  induction l as [| x l IH]; intros Hstep acc r Hacc Hr; simpl in Hr.
  - injection Hr as <-. exact Hacc.
  - apply bind_inr in Hr as (acc' & Hx & Hr).
    apply (IH (fun a y a' Hy => Hstep a y a' (or_intror Hy)) acc' r);
      [| exact Hr].
    apply (Hstep acc x acc'); [left; reflexivity | exact Hacc | exact Hx].
Qed.

(** Two loop bodies that agree everywhere give the same loop. *)
Lemma foldM_ext {A B} (f g : B -> A -> result B) (l : list A) :
  (forall acc x, f acc x = g acc x) ->
  forall acc, foldM f l acc = foldM g l acc.
Proof.
  intros Hfg. induction l as [| x l IH]; intros acc; simpl.
  - reflexivity.
  - rewrite Hfg. destruct (g acc x) as [e | acc']; simpl;
      [reflexivity | apply IH].
Qed.

(** A loop whose every successful step appends one item to an output grows
    the output by one item for each member of the list, in order. *)
Lemma foldM_appends {A B C} (f : B -> A -> result B) (out : B -> list C)
    (R : A -> C -> Prop) (l : list A) :
  (forall acc x acc', In x l -> f acc x = inr acc' ->
     exists y, out acc' = out acc ++ [y] /\ R x y) ->
  forall acc r, foldM f l acc = inr r ->
  exists ys, out r = out acc ++ ys /\ Forall2 R l ys.
Proof.
  induction l as [| x l IH]; intros Hstep acc r Hr; simpl in Hr.
  - injection Hr as <-. exists []. rewrite app_nil_r. split; constructor.
  - apply bind_inr in Hr as (acc' & Hx & Hr).
    destruct (Hstep acc x acc' (or_introl eq_refl) Hx) as (y & Hy & Rxy).
    destruct (IH (fun a z a' Hz => Hstep a z a' (or_intror Hz)) acc' r Hr)
      as (ys & Hys & Rys).
    exists (y :: ys). split.
    + rewrite Hys, Hy, <- app_assoc. reflexivity.
    + constructor; assumption.
Qed.

Lemma Forall2_seq_nth {C} (P : nat -> C -> Prop) (w : list C) :
  forall a n, Forall2 P (seq a n) w ->
  forall i c, nth_error w i = Some c -> P (a + i) c.
Proof.
  induction w as [| c0 w IH]; intros a n HF i c Hi.
  - destruct i; discriminate.
  - destruct n as [| n]; [inversion HF |].
    simpl in HF. inversion HF as [| ? ? ? ? Hhead Htail]; subst.
    destruct i as [| i]; simpl in Hi.
    + injection Hi as <-. rewrite Nat.add_0_r. exact Hhead.
    + replace (a + S i) with (S a + i) by lia.
      apply (IH (S a) n Htail i c Hi).
Qed.

Lemma nth_pred_length_last {A} (l : list A) (d : A) :
  nth (List.length l - 1) l d = last l d.
Proof.
  induction l as [| a l IH]; [reflexivity |].
  destruct l as [| b l]; [reflexivity |].
  cbn [List.length last] in *.
  rewrite Nat.sub_succ, Nat.sub_0_r in *. exact IH.
Qed.

(** ** Facts about exact arithmetic *)

Local Open Scope Q_scope.

Lemma Qlt_bool_iff (a b : Q) : Qlt_bool a b = true <-> a < b.
Proof.
  unfold Qlt_bool. rewrite negb_true_iff.
  split; intros Hab.
  - apply Qnot_le_lt. intros Hle. apply Qle_bool_iff in Hle. congruence.
  - destruct (Qle_bool b a) eqn:E; [| reflexivity].
    apply Qle_bool_iff in E. exfalso. apply (Qlt_not_le _ _ Hab E).
Qed.

Lemma Qlt_bool_false (a b : Q) : Qlt_bool a b = false <-> b <= a.
Proof.
  unfold Qlt_bool. rewrite negb_false_iff. apply Qle_bool_iff.
Qed.

Lemma Qle_bool_false (a b : Q) : Qle_bool a b = false <-> b < a.
Proof.
  split; intros Hab.
  - apply Qnot_le_lt. intros Hle. apply Qle_bool_iff in Hle. congruence.
  - destruct (Qle_bool a b) eqn:E; [| reflexivity].
    apply Qle_bool_iff in E. exfalso. apply (Qlt_not_le _ _ Hab E).
Qed.

Lemma Qeq_bool_false (a b : Q) : Qeq_bool a b = false <-> ~ a == b.
Proof.
  split.
  - intros E Hab. apply Qeq_bool_iff in Hab. congruence.
  - intros Hab. destruct (Qeq_bool a b) eqn:E; [| reflexivity].
    apply Qeq_bool_iff in E. contradiction.
Qed.

Lemma min2_Qmin (a b : Q) : min2 a b == Qmin a b.
Proof.
  unfold min2. cbn [f_ltb Q_exact].
  destruct (Qlt_bool b a) eqn:E.
  - apply Qlt_bool_iff in E. rewrite Q.min_r; [reflexivity |].
    apply Qlt_le_weak. exact E.
  - apply Qlt_bool_false in E. rewrite Q.min_l; [reflexivity | exact E].
Qed.

Lemma min2_le_l (a b : Q) : min2 a b <= a.
Proof. rewrite min2_Qmin. apply Q.le_min_l. Qed.

Lemma min2_le_r (a b : Q) : min2 a b <= b.
Proof. rewrite min2_Qmin. apply Q.le_min_r. Qed.

Lemma Qmult_div_le (c s q : Q) : 0 < c -> q <= s / c -> c * q <= s.
Proof.
  intros Hc Hq.
  assert (Hcs : c * (s / c) == s).
  { apply Qmult_div_r. intros E. rewrite E in Hc. apply (Qlt_irrefl _ Hc). }
  rewrite <- Hcs. apply Qmult_le_l; assumption.
Qed.

(** ** [compute_upright_size] and [place_page] *)

Section Placement_facts.
Context {F : Type} {PF : PyFloat F}.
Local Open Scope py_scope.

Lemma upright_size_eq (p : Page F) :
  compute_upright_size p = (visible_width p, visible_height p, rotation_or_0 p).
Proof.
  unfold visible_width, visible_height, compute_upright_size.
  destruct (Z.eqb (rotation_or_0 p) 90 || Z.eqb (rotation_or_0 p) 270)%bool;
    reflexivity.
Qed.

(** What [place_page] has computed when it does not raise. *)
Lemma place_page_locals_inr (p : Page F) (x y w h z : F) (a : string)
    (l : place_locals F) :
  place_page_locals p x y w h z a = inr l ->
  has_area p = true
  /\ l_zoom l = (if z <=? f_lit 0 then f_lit 1 else z)
  /\ l_src_w l = visible_width p
  /\ l_src_h l = visible_height p
  /\ l_rot l = rotation_or_0 p
  /\ l_base_scale l
     = min2 (f_div w (visible_width p)) (f_div h (visible_height p))
  /\ l_scale l
     = (if l_base_scale l <? l_base_scale l * l_zoom l
        then l_base_scale l else l_base_scale l * l_zoom l)
  /\ l_y_offset l
     = (if String.eqb a "top" then y + (h - l_src_h l * l_scale l)
        else if String.eqb a "bottom" then y
        else y + f_div (h - l_src_h l * l_scale l) (f_lit 2))
  /\ l_x_offset l = x + f_div (w - l_src_w l * l_scale l) (f_lit 2)
  /\ l_t l
     = (if Z.eqb (l_rot l) 0 then [] else [Rotate (- l_rot l)%Z])
       ++ [Scale (l_scale l); Translate (l_x_offset l) (l_y_offset l)].
Proof.
  unfold place_page_locals, has_area. rewrite upright_size_eq.
  unfold truediv.
  destruct (f_eqb (visible_width p) (f_lit 0)); [discriminate |].
  destruct (f_eqb (visible_height p) (f_lit 0)); [discriminate |].
  cbn [bind ret]. intros Hl. injection Hl as <-. cbn.
  repeat split; try reflexivity.
  destruct (Z.eqb (rotation_or_0 p) 0); reflexivity.
Qed.

(** [place_page] raises only on a page without area. *)
Lemma place_page_locals_succeeds (p : Page F) (x y w h z : F) (a : string) :
  has_area p = true -> exists l, place_page_locals p x y w h z a = inr l.
Proof.
  unfold place_page_locals, has_area. rewrite upright_size_eq.
  unfold truediv. intros Harea.
  apply andb_true_iff in Harea as [Hw Hh].
  apply negb_true_iff in Hw, Hh. rewrite Hw, Hh. cbn [bind ret].
  eexists. reflexivity.
Qed.

Lemma place_page_inr (new_page : PageObject F) (p : Page F)
    (x y w h z : F) (a : string) (sheet : PageObject F) :
  place_page new_page p x y w h z a = inr sheet ->
  exists l, place_page_locals p x y w h z a = inr l
            /\ sheet = merge_transformed_page new_page p (l_t l).
Proof.
  unfold place_page. intros Hs.
  apply bind_inr in Hs as (l & Hl & Hs).
  exists l. split; [exact Hl |]. injection Hs as <-. reflexivity.
Qed.

End Placement_facts.

(** Unfolds the operations of the exact instance. *)
Ltac exact_ops :=
  cbn [f_lit f_add f_sub f_mul f_div f_ltb f_leb f_eqb Q_exact] in *.

(** Splits on a boolean comparison of rationals and turns it into the
    order. *)
Ltac by_order b :=
  let E := fresh "Hcmp" in
  destruct b eqn:E;
  [ first [ apply Qlt_bool_iff in E | apply Qle_bool_iff in E ]
  | first [ apply Qlt_bool_false in E | apply Qle_bool_false in E ] ].

Lemma has_area_Q (p : Page Q) :
  has_area p = true <-> ~ visible_width p == 0 /\ ~ visible_height p == 0.
Proof.
  unfold has_area. exact_ops.
  rewrite andb_true_iff, !negb_true_iff, !Qeq_bool_false. tauto.
Qed.

Lemma positive_has_area (p : Page Q) :
  0 < visible_width p -> 0 < visible_height p -> has_area p = true.
Proof.
  intros Hw Hh. apply has_area_Q. split; intros E.
  - rewrite E in Hw. apply (Qlt_irrefl _ Hw).
  - rewrite E in Hh. apply (Qlt_irrefl _ Hh).
Qed.

(** The effective scale never exceeds the base scale. *)
Lemma scale_le_base (p : Page Q) (x y w h z : Q) (a : string)
    (l : place_locals Q) :
  place_page_locals p x y w h z a = inr l -> l_scale l <= l_base_scale l.
Proof.
  intros Hl. apply place_page_locals_inr in Hl.
  destruct Hl as (_ & _ & _ & _ & _ & _ & Hs & _).
  rewrite Hs. exact_ops.
  by_order (Qlt_bool (l_base_scale l) (l_base_scale l * l_zoom l)).
  - apply Qle_refl.
  - exact Hcmp.
Qed.

(** *** C5 *)

(** C5, as stated, fails: a rotation value that is none of 0, 90, 180, 270
    (here 45) is returned as it is, not as 0. *)
Lemma upright_size_keeps_malformed_rotation :
  let p := mkPage (F := Q) (RotInt 45) 612 792 in
  compute_upright_size p = (612, 792, 45%Z)
  /\ snd (compute_upright_size p) <> 0%Z.
Proof.
  split; [reflexivity | discriminate].
Qed.

(** C5 (amended): [compute_upright_size] returns the media rectangle's width
    and height unchanged when the rotation is 0 or 180 and swapped when it is
    90 or 270; it returns rotation 0 with unswapped dimensions when the
    rotation is absent or [None]; any other rotation value is returned as it
    is, with unswapped dimensions. *)
Theorem upright_size_by_rotation {F : Type} {PF : PyFloat F}
    (attr : rotation_attr) (w h : F) :
  let p := mkPage attr w h in
  (attr = RotAbsent \/ attr = RotNone -> compute_upright_size p = (w, h, 0%Z))
  /\ (forall d : Z, attr = RotInt d ->
        (d = 0%Z \/ d = 180%Z -> compute_upright_size p = (w, h, d))
        /\ (d = 90%Z \/ d = 270%Z -> compute_upright_size p = (h, w, d))
        /\ (d <> 90%Z -> d <> 270%Z -> compute_upright_size p = (w, h, d))).
Proof.
  cbv zeta. split.
  - intros [-> | ->]; reflexivity.
  - intros d ->. repeat split.
    + intros [-> | ->]; reflexivity.
    + intros [-> | ->]; reflexivity.
    + intros H90 H270.
      unfold compute_upright_size, rotation_or_0. cbn [rotation].
      destruct (Z.eqb_spec d 0) as [-> | Hd0]; [reflexivity |].
      destruct (Z.eqb_spec d 90) as [-> | _]; [contradiction |].
      destruct (Z.eqb_spec d 270) as [-> | _]; [contradiction |].
      reflexivity.
Qed.

Lemma upright_size_by_rotation_witness :
  compute_upright_size (mkPage (F := Q) RotNone 612 792) = (612, 792, 0%Z)
  /\ compute_upright_size (mkPage (F := Q) (RotInt 270) 612 792)
     = (792, 612, 270%Z)
  /\ compute_upright_size (mkPage (F := Q) (RotInt 180) 612 792)
     = (612, 792, 180%Z).
Proof.
  pose proof (upright_size_by_rotation (F := Q) RotNone 612 792) as [Hn _].
  pose proof (upright_size_by_rotation (F := Q) (RotInt 270) 612 792)
    as [_ H270].
  pose proof (upright_size_by_rotation (F := Q) (RotInt 180) 612 792)
    as [_ H180].
  split; [apply Hn; right; reflexivity |].
  split.
  - apply (H270 270%Z eq_refl). right. reflexivity.
  - apply (H180 180%Z eq_refl); discriminate.
Defined.

(** *** Rounding in binary64

    The kernel's specification of the binary64 operations ([SFmul], [SFdiv],
    [SFltb]) gives what is needed of them here: a product or quotient of
    normal numbers whose exponents are moderate is a normal number again; a
    product or quotient of positive numbers that comes out normal is at most
    [1 + rounding_unit] times the exact one; and the order of normal numbers
    is the order of their values. *)

Section Rounding_facts.
Local Open Scope Z_scope.

Lemma digits2_pos_bounds (p : positive) :
  2 ^ (Zpos (digits2_pos p) - 1) <= Zpos p < 2 ^ Zpos (digits2_pos p).
Proof.
  induction p as [p IH | p IH |]; cbn [digits2_pos].
  - rewrite Pos2Z.inj_succ.
    replace (Z.succ (Zpos (digits2_pos p)) - 1)
      with (Z.succ (Zpos (digits2_pos p) - 1)) by lia.
    rewrite !Z.pow_succ_r by lia. lia.
  - rewrite Pos2Z.inj_succ.
    replace (Z.succ (Zpos (digits2_pos p)) - 1)
      with (Z.succ (Zpos (digits2_pos p) - 1)) by lia.
    rewrite !Z.pow_succ_r by lia. lia.
  - cbn. lia.
Qed.

(** The number of binary digits of [p] is the [d] with
    [2^(d-1) <= p < 2^d]. *)
Lemma digits2_pos_unique (p : positive) (d : Z) :
  2 ^ (d - 1) <= Zpos p < 2 ^ d -> Zpos (digits2_pos p) = d.
Proof.
  intros [Hlo Hhi]. pose proof (digits2_pos_bounds p) as [Blo Bhi].
  set (k := Zpos (digits2_pos p)) in *.
  assert (Hk : 0 < k) by (unfold k; lia).
  destruct (Z.lt_trichotomy k d) as [Hlt | [Heq | Hgt]]; [| exact Heq |].
  - assert (2 ^ k <= 2 ^ (d - 1)) by (apply Z.pow_le_mono_r; lia). lia.
  - assert (0 <= d \/ d < 0) as [Hd | Hd] by lia.
    + assert (2 ^ d <= 2 ^ (k - 1)) by (apply Z.pow_le_mono_r; lia). lia.
    + rewrite (Z.pow_neg_r 2 d Hd) in Hhi. lia.
Qed.

Lemma shr_1_exact (mrs : shr_record) :
  0 <= shr_m mrs ->
  0 <= shr_m (shr_1 mrs)
  /\ shr_m (shr_1 mrs) * 2 <= shr_m mrs < (shr_m (shr_1 mrs) + 1) * 2.
Proof.
  destruct mrs as [m r s]. cbn [shr_m]. intros Hm.
  destruct m as [| [p | p |] | p]; cbn [shr_1 shr_m]; lia.
Qed.

Lemma iter_shr_1_exact (n : positive) :
  forall mrs, 0 <= shr_m mrs ->
    0 <= shr_m (iter_pos shr_1 n mrs)
    /\ shr_m (iter_pos shr_1 n mrs) * 2 ^ Zpos n <= shr_m mrs
       < (shr_m (iter_pos shr_1 n mrs) + 1) * 2 ^ Zpos n.
Proof.
  induction n as [n IH | n IH |]; intros mrs Hm; cbn [iter_pos].
  - destruct (shr_1_exact mrs Hm) as [H0 H1].
    destruct (IH _ H0) as [H2 H3].
    destruct (IH _ H2) as [H4 H5].
    split; [exact H4 |].
    replace (Zpos n~1) with (Zpos n + Zpos n + 1) by lia.
    rewrite !Z.pow_add_r, Z.pow_1_r by lia.
    assert (Hp : 0 < 2 ^ Zpos n) by (apply Z.pow_pos_nonneg; lia).
    nia.
  - destruct (IH _ Hm) as [H2 H3].
    destruct (IH _ H2) as [H4 H5].
    split; [exact H4 |].
    replace (Zpos n~0) with (Zpos n + Zpos n) by lia.
    rewrite !Z.pow_add_r by lia.
    assert (Hp : 0 < 2 ^ Zpos n) by (apply Z.pow_pos_nonneg; lia).
    nia.
  - rewrite Z.pow_1_r. apply shr_1_exact. exact Hm.
Qed.

(** [shr] divides the mantissa by [2^n], rounding down, and adds [n] to
    the exponent; it does nothing for [n <= 0]. *)
Lemma shr_exact (mrs mrs' : shr_record) (e n e' : Z) :
  shr mrs e n = (mrs', e') -> 0 <= shr_m mrs ->
  e' = e + Z.max n 0
  /\ 0 <= shr_m mrs'
  /\ shr_m mrs' * 2 ^ (e' - e) <= shr_m mrs < (shr_m mrs' + 1) * 2 ^ (e' - e).
Proof.
  unfold shr. intros Hs Hm.
  destruct n as [| p | p]; injection Hs as <- <-.
  - rewrite Z.sub_diag. cbn. lia.
  - destruct (iter_shr_1_exact p mrs Hm) as [H0 H1].
    replace (e + Zpos p - e) with (Zpos p) by lia. lia.
  - rewrite Z.sub_diag. cbn. lia.
Qed.

Lemma shr_bound (mrs mrs' : shr_record) (e n e' : Z) :
  shr mrs e n = (mrs', e') -> 0 <= shr_m mrs ->
  e <= e' /\ 0 <= shr_m mrs' /\ shr_m mrs' * 2 ^ (e' - e) <= shr_m mrs.
Proof.
  intros Hs Hm. apply shr_exact in Hs as (He & H0 & H1 & _); [| exact Hm].
  split; [lia |]. split; assumption.
Qed.

Lemma shr_record_of_loc_m (m : Z) (l : location) :
  shr_m (shr_record_of_loc m l) = m.
Proof. destruct l as [| []]; reflexivity. Qed.

Lemma round_nearest_even_bound (mx : Z) (lx : location) :
  mx <= round_nearest_even mx lx <= mx + 1.
Proof.
  destruct lx as [| []]; cbn [round_nearest_even]; try lia.
  destruct (Z.even mx); lia.
Qed.

(** [shr_fexp] on a mantissa of [d >= 53] digits whose exponent, once the
    mantissa is cut to 53 digits, is not below the least one: the mantissa
    is cut to 53 digits. *)
Lemma shr_fexp_normal (mx ex : Z) (lx : location) (d : Z)
    (mrs : shr_record) (e : Z) :
  shr_fexp prec emax mx ex lx = (mrs, e) ->
  2 ^ 52 <= mx -> 2 ^ (d - 1) <= mx < 2 ^ d -> -1074 <= ex + d - 53 ->
  e = ex + d - 53
  /\ 2 ^ 52 <= shr_m mrs < 2 ^ 53
  /\ shr_m mrs * 2 ^ (d - 53) <= mx < (shr_m mrs + 1) * 2 ^ (d - 53).
Proof.
  intros Hs Hmx Hd Hlo.
  assert (Hd53 : 53 <= d).
  { destruct (Z_le_gt_dec 53 d) as [H | H]; [exact H |].
    assert (2 ^ d <= 2 ^ 52) by (apply Z.pow_le_mono_r; lia). lia. }
  destruct mx as [| pm | pm]; [cbn in Hmx; lia | | lia].
  unfold shr_fexp in Hs. cbn [Zdigits2] in Hs.
  rewrite (digits2_pos_unique pm d Hd) in Hs.
  unfold fexp, SpecFloat.emin, prec, emax in Hs.
  rewrite Z.max_l in Hs by lia.
  apply shr_exact in Hs; [| rewrite shr_record_of_loc_m; lia].
  rewrite shr_record_of_loc_m in Hs. destruct Hs as (He & Hm0 & Hm).
  assert (He' : e = ex + d - 53) by lia.
  replace (e - ex) with (d - 53) in Hm by lia.
  split; [exact He' |]. split; [| exact Hm].
  assert (Hp : 0 < 2 ^ (d - 53)) by (apply Z.pow_pos_nonneg; lia).
  assert (H1 : 2 ^ (d - 1) = 2 ^ 52 * 2 ^ (d - 53))
    by (rewrite <- Z.pow_add_r by lia; f_equal; lia).
  assert (H2 : 2 ^ d = 2 ^ 53 * 2 ^ (d - 53))
    by (rewrite <- Z.pow_add_r by lia; f_equal; lia).
  rewrite H1, H2 in Hd. nia.
Qed.

(** Rounding a mantissa of at least 53 digits, within the exponent range of
    the normal numbers: the result is a normal number. *)
Lemma binary_round_aux_normal (sx : bool) (mx ex : Z) (lx : location)
    (d : Z) :
  2 ^ 52 <= mx -> 2 ^ (d - 1) <= mx < 2 ^ d ->
  -1074 <= ex + d - 53 -> ex + d - 52 <= 971 ->
  exists m e,
    binary_round_aux prec emax sx mx ex lx = S754_finite sx m e
    /\ 2 ^ 52 <= Zpos m < 2 ^ 53
    /\ ex + d - 53 <= e <= ex + d - 52.
Proof.
  intros Hmx Hd Hlo Hhi. unfold binary_round_aux.
  destruct (shr_fexp prec emax mx ex lx) as [mrs1 e1] eqn:E1.
  apply (shr_fexp_normal _ _ _ d) in E1 as (-> & Hm1 & _); try assumption.
  pose proof (round_nearest_even_bound (shr_m mrs1) (loc_of_shr_record mrs1))
    as Hrnd.
  set (m2 := round_nearest_even (shr_m mrs1) (loc_of_shr_record mrs1)) in *.
  destruct (shr_fexp prec emax m2 (ex + d - 53) loc_Exact) as [mrs2 e2] eqn:E2.
  assert (Hcases : 2 ^ 52 <= m2 < 2 ^ 53 \/ m2 = 2 ^ 53) by lia.
  destruct Hcases as [Hm2 | Hm2].
  - apply (shr_fexp_normal _ _ _ 53) in E2 as (-> & Hm3 & Hcut);
      [| lia | cbn; lia | lia].
    change (2 ^ (53 - 53)) with 1 in Hcut.
    destruct (shr_m mrs2) as [| m | m] eqn:Em; [cbn in Hm3; lia | | lia].
    replace (ex + d - 53 + 53 - 53 <=? emax - prec) with true
      by (symmetry; apply Z.leb_le; unfold emax, prec; lia).
    exists m, (ex + d - 53 + 53 - 53). split; [reflexivity |]. lia.
  - apply (shr_fexp_normal _ _ _ 54) in E2 as (-> & Hm3 & Hcut);
      [| lia | rewrite Hm2; cbn; lia | lia].
    destruct (shr_m mrs2) as [| m | m] eqn:Em; [cbn in Hm3; lia | | lia].
    replace (ex + d - 53 + 54 - 53 <=? emax - prec) with true
      by (symmetry; apply Z.leb_le; unfold emax, prec; lia).
    exists m, (ex + d - 53 + 54 - 53). split; [reflexivity |]. lia.
Qed.

(** What [binary_round_aux] returns is at most one unit of the last place
    above what it is given. *)
Lemma binary_round_aux_bound (prec emax : Z) (sx : bool) (mx ex : Z)
    (lx : location) (s : bool) (m : positive) (e : Z) :
  binary_round_aux prec emax sx mx ex lx = S754_finite s m e ->
  0 <= mx -> 2 ^ 52 <= Zpos m ->
  s = sx /\ ex <= e
  /\ (2 ^ 52 - 1) * (Zpos m * 2 ^ (e - ex)) <= 2 ^ 52 * mx.
Proof.
  unfold binary_round_aux, shr_fexp. intros Hr Hmx Hm.
  destruct (shr (shr_record_of_loc mx lx) ex _) as [mrs1 e1] eqn:E1.
  apply shr_bound in E1; [| rewrite shr_record_of_loc_m; exact Hmx].
  rewrite shr_record_of_loc_m in E1. destruct E1 as (He1 & Hm1 & Hb1).
  pose proof (round_nearest_even_bound (shr_m mrs1) (loc_of_shr_record mrs1))
    as Hrnd.
  set (m2 := round_nearest_even (shr_m mrs1) (loc_of_shr_record mrs1)) in *.
  destruct (shr (shr_record_of_loc m2 loc_Exact) e1 _) as [mrs2 e2] eqn:E2.
  apply shr_bound in E2; [| rewrite shr_record_of_loc_m; lia].
  rewrite shr_record_of_loc_m in E2. destruct E2 as (He2 & Hm2 & Hb2).
  destruct (shr_m mrs2) as [| q | q] eqn:Eq; [discriminate | | discriminate].
  destruct (e2 <=? emax - prec); [| discriminate].
  injection Hr as <- <- <-.
  split; [reflexivity |]. split; [lia |].
  assert (Hp1 : 0 < 2 ^ (e1 - ex)) by (apply Z.pow_pos_nonneg; lia).
  assert (Hp2 : 0 < 2 ^ (e2 - e1)) by (apply Z.pow_pos_nonneg; lia).
  replace (e2 - ex) with ((e2 - e1) + (e1 - ex)) by lia.
  rewrite Z.pow_add_r by lia.
  assert (H52 : 2 ^ 52 - 1 <= shr_m mrs1) by nia.
  nia.
Qed.

Lemma SFmul_normal (mx my : positive) (ex ey : Z) :
  2 ^ 52 <= Zpos mx < 2 ^ 53 -> 2 ^ 52 <= Zpos my < 2 ^ 53 ->
  -1074 <= ex + ey + 52 -> ex + ey + 54 <= 971 ->
  exists m e,
    SF64mul (S754_finite false mx ex) (S754_finite false my ey)
    = S754_finite false m e
    /\ 2 ^ 52 <= Zpos m < 2 ^ 53
    /\ ex + ey + 52 <= e <= ex + ey + 54.
Proof.
  intros Hmx Hmy Hlo Hhi. unfold SF64mul, SFmul. cbn [xorb].
  rewrite Pos2Z.inj_mul.
  assert (Hprod : 2 ^ 104 <= Zpos mx * Zpos my < 2 ^ 106).
  { change (2 ^ 104) with (2 ^ 52 * 2 ^ 52).
    change (2 ^ 106) with (2 ^ 53 * 2 ^ 53). nia. }
  assert (Hcases : Zpos mx * Zpos my < 2 ^ 105
                   \/ 2 ^ 105 <= Zpos mx * Zpos my) by lia.
  destruct Hcases as [Hc | Hc].
  - destruct (binary_round_aux_normal false (Zpos mx * Zpos my) (ex + ey)
                loc_Exact 105) as (m & e & Hr & Hm & He);
      [lia | cbn; lia | lia | lia |].
    exists m, e. split; [exact Hr |]. split; [exact Hm | lia].
  - destruct (binary_round_aux_normal false (Zpos mx * Zpos my) (ex + ey)
                loc_Exact 106) as (m & e & Hr & Hm & He);
      [lia | cbn; lia | lia | lia |].
    exists m, e. split; [exact Hr |]. split; [exact Hm | lia].
Qed.

Lemma SFdiv_normal (mx my : positive) (ex ey : Z) :
  2 ^ 52 <= Zpos mx < 2 ^ 53 -> 2 ^ 52 <= Zpos my < 2 ^ 53 ->
  -1074 <= ex - ey - 53 -> ex - ey - 51 <= 971 ->
  exists m e,
    SF64div (S754_finite false mx ex) (S754_finite false my ey)
    = S754_finite false m e
    /\ 2 ^ 52 <= Zpos m < 2 ^ 53
    /\ ex - ey - 53 <= e <= ex - ey - 51.
Proof.
  intros Hmx Hmy Hlo Hhi.
  unfold SF64div, SFdiv, SFdiv_core_binary. cbn [xorb Zdigits2].
  rewrite (digits2_pos_unique mx 53), (digits2_pos_unique my 53)
    by (cbn; lia).
  unfold fexp, SpecFloat.emin, prec, emax.
  rewrite Z.max_l by lia. rewrite Z.min_l by lia.
  replace (ex - ey - (53 + ex - (53 + ey) - 53)) with 53 by lia.
  rewrite Z.shiftl_mul_pow2 by lia.
  pose proof (Z_div_mod (Zpos mx * 2 ^ 53) (Zpos my) eq_refl) as Hdiv.
  destruct (Z.div_eucl (Zpos mx * 2 ^ 53) (Zpos my)) as [q r].
  destruct Hdiv as [Hdiv Hrem].
  assert (Hq : 2 ^ 52 <= q < 2 ^ 54).
  { split.
    - destruct (Z_lt_le_dec q (2 ^ 52)) as [Hlt | Hge]; [exfalso | exact Hge].
      assert (Zpos my * (q + 1) <= Zpos my * 2 ^ 52)
        by (apply Z.mul_le_mono_nonneg_l; lia).
      assert (2 ^ 52 * 2 ^ 53 <= Zpos mx * 2 ^ 53)
        by (apply Z.mul_le_mono_nonneg_r; lia).
      assert (Zpos my * 2 ^ 52 < 2 ^ 53 * 2 ^ 52)
        by (apply Z.mul_lt_mono_pos_r; lia).
      lia.
    - destruct (Z_lt_le_dec q (2 ^ 54)) as [Hlt | Hge]; [exact Hlt | exfalso].
      assert (Zpos my * 2 ^ 54 <= Zpos my * q)
        by (apply Z.mul_le_mono_nonneg_l; lia).
      assert (2 ^ 52 * 2 ^ 54 <= Zpos my * 2 ^ 54)
        by (apply Z.mul_le_mono_nonneg_r; lia).
      assert (Zpos mx * 2 ^ 53 < 2 ^ 53 * 2 ^ 53)
        by (apply Z.mul_lt_mono_pos_r; lia).
      lia. }
  assert (Hcases : q < 2 ^ 53 \/ 2 ^ 53 <= q) by lia.
  destruct Hcases as [Hc | Hc].
  - destruct (binary_round_aux_normal false q (53 + ex - (53 + ey) - 53)
                (new_location (Zpos my) r) 53) as (m & e & Hr & Hm & He);
      [lia | cbn; lia | lia | lia |].
    exists m, e. split; [exact Hr |]. split; [exact Hm | lia].
  - destruct (binary_round_aux_normal false q (53 + ex - (53 + ey) - 53)
                (new_location (Zpos my) r) 54) as (m & e & Hr & Hm & He);
      [lia | cbn; lia | lia | lia |].
    exists m, e. split; [exact Hr |]. split; [exact Hm | lia].
Qed.

End Rounding_facts.

Lemma two_power_pos (e : Z) : 0 < 2 ^ e.
Proof. apply Qpower_0_lt. reflexivity. Qed.

Lemma two_power_split (e1 e2 : Z) :
  (e1 <= e2)%Z -> 2 ^ e2 == inject_Z (2 ^ (e2 - e1)) * 2 ^ e1.
Proof.
  intros He. rewrite Zpower_Qpower by lia.
  rewrite <- Qpower_plus by discriminate.
  replace (e2 - e1 + e1)%Z with e2 by lia. reflexivity.
Qed.

(** Mantissas compared at the smaller of two exponents. *)
Lemma scaled_le (m1 m2 e1 e2 : Z) :
  (e1 <= e2)%Z -> (m1 <= m2 * 2 ^ (e2 - e1))%Z ->
  inject_Z m1 * 2 ^ e1 <= inject_Z m2 * 2 ^ e2.
Proof.
  intros He Hm. rewrite (two_power_split e1 e2 He).
  rewrite Qmult_assoc, <- inject_Z_mult.
  apply Qmult_le_compat_r; [| apply Qlt_le_weak, two_power_pos].
  rewrite <- Zle_Qle. exact Hm.
Qed.

Lemma scaled_lt (m1 m2 e1 e2 : Z) :
  (e1 <= e2)%Z -> (m1 < m2 * 2 ^ (e2 - e1))%Z ->
  inject_Z m1 * 2 ^ e1 < inject_Z m2 * 2 ^ e2.
Proof.
  intros He Hm. rewrite (two_power_split e1 e2 He).
  rewrite Qmult_assoc, <- inject_Z_mult.
  apply Qmult_lt_compat_r; [apply two_power_pos |].
  rewrite <- Zlt_Qlt. exact Hm.
Qed.

Lemma rounding_unit_eq : rounding_unit == 1 # 2251799813685248.
Proof. reflexivity. Qed.

(** A mantissa and exponent within one unit of the last place of [mx] and
    [ex]. *)
Lemma rounded_value_bound (m : positive) (e mx ex : Z) :
  (0 <= mx)%Z -> (ex <= e)%Z ->
  ((2 ^ 52 - 1) * (Zpos m * 2 ^ (e - ex)) <= 2 ^ 52 * mx)%Z ->
  inject_Z (Zpos m) * 2 ^ e
  <= inject_Z mx * 2 ^ ex * (1 + rounding_unit).
Proof.
  intros Hmx He Hb. rewrite (two_power_split ex e He).
  rewrite Qmult_assoc, <- inject_Z_mult.
  set (K := (Zpos m * 2 ^ (e - ex))%Z) in *.
  rewrite Zle_Qle in Hb. rewrite !inject_Z_mult in Hb.
  rewrite Zle_Qle in Hmx.
  pose proof (two_power_pos ex) as Hp.
  rewrite rounding_unit_eq.
  change (inject_Z (2 ^ 52 - 1)) with 4503599627370495 in Hb.
  change (inject_Z (2 ^ 52)) with 4503599627370496 in Hb.
  change (inject_Z 0) with 0 in Hmx.
  assert (HK : inject_Z K <= inject_Z mx * (1 + (1 # 2251799813685248)))
    by lra.
  apply (Qmult_le_compat_r _ _ (2 ^ ex)) in HK; [| lra].
  lra.
Qed.

Lemma SFmul_upper (mx my m : positive) (ex ey e : Z) (s : bool) :
  SF64mul (S754_finite false mx ex) (S754_finite false my ey)
  = S754_finite s m e ->
  (2 ^ 52 <= Zpos m)%Z ->
  s = false
  /\ inject_Z (Zpos m) * 2 ^ e
     <= (inject_Z (Zpos mx) * 2 ^ ex) * (inject_Z (Zpos my) * 2 ^ ey)
        * (1 + rounding_unit).
Proof.
  unfold SF64mul, SFmul. intros Hr Hm.
  apply binary_round_aux_bound in Hr as (Hs & He & Hb); [| lia | exact Hm].
  split; [exact Hs |].
  eapply Qle_trans;
    [apply (rounded_value_bound m e (Zpos (mx * my)) (ex + ey));
     [lia | exact He | exact Hb] |].
  rewrite Pos2Z.inj_mul, inject_Z_mult, Qpower_plus by discriminate.
  apply Qle_lteq. right. ring.
Qed.

Lemma SFdiv_upper (mx my m : positive) (ex ey e : Z) (s : bool) :
  SF64div (S754_finite false mx ex) (S754_finite false my ey)
  = S754_finite s m e ->
  (2 ^ 52 <= Zpos m)%Z ->
  s = false
  /\ inject_Z (Zpos m) * 2 ^ e
     <= (inject_Z (Zpos mx) * 2 ^ ex) / (inject_Z (Zpos my) * 2 ^ ey)
        * (1 + rounding_unit).
Proof.
  unfold SF64div, SFdiv, SFdiv_core_binary. intros Hr Hm.
  set (e' := Z.min _ _) in Hr.
  set (sh := (ex - ey - e')%Z) in Hr.
  set (m' := match sh with
             | Zpos _ => Z.shiftl (Zpos mx) sh
             | Z0 => Zpos mx
             | Zneg _ => 0%Z
             end) in Hr.
  pose proof (Z_div_mod m' (Zpos my) eq_refl) as Hdiv.
  destruct (Z.div_eucl m' (Zpos my)) as [q r].
  destruct Hdiv as [Hdiv Hrem].
  assert (Hm' : (0 <= m')%Z /\ (m' <= Zpos mx * 2 ^ (ex - ey - e'))%Z
                \/ m' = 0%Z /\ (ex - ey - e' < 0)%Z).
  { subst m'. fold sh. destruct sh as [| p | p] eqn:Esh.
    - left. cbn. lia.
    - left. rewrite Z.shiftl_mul_pow2 by lia.
      assert (0 < 2 ^ Zpos p)%Z by (apply Z.pow_pos_nonneg; lia). nia.
    - right. lia. }
  assert (Hq : (0 <= q)%Z) by (destruct Hm' as [[? _] | [? _]]; nia).
  apply binary_round_aux_bound in Hr as (Hs & He & Hb); [| exact Hq | exact Hm].
  split; [exact Hs |].
  eapply Qle_trans;
    [apply (rounded_value_bound m e q e'); [exact Hq | exact He | exact Hb] |].
  apply Qmult_le_compat_r; [| rewrite rounding_unit_eq; lra].
  pose proof (two_power_pos ex) as Hpx.
  pose proof (two_power_pos ey) as Hpy.
  pose proof (two_power_pos e') as Hpe.
  assert (Hmy : 0 < inject_Z (Zpos my)) by reflexivity.
  assert (Hden : 0 < inject_Z (Zpos my) * 2 ^ ey) by nra.
  apply Qle_shift_div_l; [exact Hden |].
  destruct Hm' as [[_ Hle] | [H0 _]].
  - assert (Hqm : (q * Zpos my <= Zpos mx * 2 ^ (ex - ey - e'))%Z) by nia.
    assert (Hsc : inject_Z (q * Zpos my) * 2 ^ (e' + ey)
                  <= inject_Z (Zpos mx) * 2 ^ ex).
    { apply scaled_le; [lia |].
      replace (ex - (e' + ey))%Z with (ex - ey - e')%Z by lia. exact Hqm. }
    rewrite inject_Z_mult, Qpower_plus in Hsc by discriminate.
    eapply Qle_trans; [| exact Hsc].
    apply Qle_lteq. right. ring.
  - assert (q = 0%Z) by nia. subst q.
    change (inject_Z 0) with 0.
    assert (0 < inject_Z (Zpos mx) * 2 ^ ex)
      by (apply Qmult_lt_0_compat; [reflexivity | exact Hpx]).
    lra.
Qed.

Lemma positive_finite_value (x : float) :
  positive_finite x = true ->
  exists m e, Prim2SF x = S754_finite false m e
              /\ float_value x == inject_Z (Zpos m) * 2 ^ e
              /\ 0 < float_value x.
Proof.
  unfold positive_finite, float_value.
  destruct (Prim2SF x) as [| | | [|] m e]; try discriminate.
  intros _. exists m, e. split; [reflexivity |]. cbn [SF2Q].
  split; [reflexivity |].
  apply Qmult_lt_0_compat; [reflexivity | apply two_power_pos].
Qed.

Lemma positive_normal_value (x : float) :
  positive_normal x = true ->
  exists m e, Prim2SF x = S754_finite false m e
              /\ (2 ^ 52 <= Zpos m < 2 ^ 53)%Z.
Proof.
  unfold positive_normal.
  destruct (Prim2SF x) as [| | | [|] m e]; try discriminate.
  intros H. apply andb_true_iff in H as [H1 H2].
  exists m, e. split; [reflexivity |]. lia.
Qed.

Lemma positive_normal_finite (x : float) :
  positive_normal x = true -> positive_finite x = true.
Proof.
  intros H. apply positive_normal_value in H as (m & e & E & _).
  unfold positive_finite. rewrite E. reflexivity.
Qed.

(** A product that is a normal number is at most one rounding above the
    product of the values. *)
Lemma mul_upper (x y : float) :
  positive_finite x = true -> positive_finite y = true ->
  positive_normal (x * y)%float = true ->
  float_value (x * y)%float
  <= float_value x * float_value y * (1 + rounding_unit).
Proof.
  intros Hx Hy Hn.
  apply positive_finite_value in Hx as (mx & ex & Ex & Vx & _).
  apply positive_finite_value in Hy as (my & ey & Ey & Vy & _).
  apply positive_normal_value in Hn as (m & e & E & Hm).
  rewrite Vx, Vy. unfold float_value at 1. rewrite E. cbn [SF2Q].
  rewrite FloatAxioms.mul_spec, Ex, Ey in E.
  apply SFmul_upper in E as [_ Hb]; [exact Hb | lia].
Qed.

Lemma div_upper (x y : float) :
  positive_finite x = true -> positive_finite y = true ->
  positive_normal (x / y)%float = true ->
  float_value (x / y)%float
  <= float_value x / float_value y * (1 + rounding_unit).
Proof.
  intros Hx Hy Hn.
  apply positive_finite_value in Hx as (mx & ex & Ex & Vx & _).
  apply positive_finite_value in Hy as (my & ey & Ey & Vy & _).
  apply positive_normal_value in Hn as (m & e & E & Hm).
  rewrite Vx, Vy. unfold float_value at 1. rewrite E. cbn [SF2Q].
  rewrite FloatAxioms.div_spec, Ex, Ey in E.
  apply SFdiv_upper in E as [_ Hb]; [exact Hb | lia].
Qed.

(** The order of two normal numbers is the order of their values. *)
Lemma ltb_value (a b : float) :
  positive_normal a = true -> positive_normal b = true ->
  if (a <? b)%float then float_value a < float_value b
  else float_value b <= float_value a.
Proof.
  intros Ha Hb.
  apply positive_normal_value in Ha as (ma & ea & Ea & Hma).
  apply positive_normal_value in Hb as (mb & eb & Eb & Hmb).
  rewrite FloatAxioms.ltb_spec. unfold float_value. rewrite Ea, Eb.
  unfold SFltb, SFcompare. cbn [SF2Q].
  destruct (Z.compare_spec ea eb) as [He | He | He].
  - subst eb. change (Pos.compare_cont Eq ma mb) with (Pos.compare ma mb).
    destruct (Pos.compare_spec ma mb) as [Hm | Hm | Hm].
    + subst mb. apply Qle_refl.
    + apply scaled_lt; [lia |]. rewrite Z.sub_diag. cbn. lia.
    + apply scaled_le; [lia |]. rewrite Z.sub_diag. cbn. lia.
  - apply scaled_lt; [lia |].
    assert (2 ^ 1 <= 2 ^ (eb - ea))%Z by (apply Z.pow_le_mono_r; lia).
    change (2 ^ 1)%Z with 2%Z in *. nia.
  - apply scaled_le; [lia |].
    assert (2 ^ 1 <= 2 ^ (ea - eb))%Z by (apply Z.pow_le_mono_r; lia).
    change (2 ^ 1)%Z with 2%Z in *. nia.
Qed.

Lemma eqb_zero_positive (x : float) :
  positive_finite x = true -> f_eqb x (f_lit 0) = false.
Proof.
  intros Hx. apply positive_finite_value in Hx as (m & e & E & _).
  change (f_eqb x (f_lit 0)) with (PrimFloat.eqb x 0%float).
  rewrite FloatAxioms.eqb_spec, E. reflexivity.
Qed.

(** The smaller of two normal numbers, as [min] finds it. *)
Lemma min2_value (a b : float) :
  positive_normal a = true -> positive_normal b = true ->
  positive_normal (min2 a b) = true
  /\ float_value (min2 a b) == Qmin (float_value a) (float_value b).
Proof.
  intros Ha Hb. pose proof (ltb_value b a Hb Ha) as Hcmp.
  unfold min2. change (f_ltb b a) with (PrimFloat.ltb b a).
  destruct (PrimFloat.ltb b a).
  - split; [exact Hb |]. rewrite Q.min_r; [reflexivity | lra].
  - split; [exact Ha |]. rewrite Q.min_l; [reflexivity | exact Hcmp].
Qed.

(** *** C1 *)

(** In exact arithmetic the fit scale is the smaller of the two quotients,
    and content scaled by it (and so by the effective scale) does not
    overflow the slot at all. *)
Lemma fit_scale_exact (p : Page Q)
    (slot_x slot_y slot_w slot_h zoom : Q) (align : string) :
  0 < visible_width p -> 0 < visible_height p ->
  exists l,
    place_page_locals p slot_x slot_y slot_w slot_h zoom align = inr l
    /\ l_base_scale l
       == Qmin (slot_w / visible_width p) (slot_h / visible_height p)
    /\ visible_width p * l_base_scale l <= slot_w
    /\ visible_height p * l_base_scale l <= slot_h
    /\ visible_width p * l_scale l <= slot_w
    /\ visible_height p * l_scale l <= slot_h.
Proof.
  intros Hw Hh.
  destruct (place_page_locals_succeeds p slot_x slot_y slot_w slot_h zoom
              align (positive_has_area p Hw Hh)) as [l Hl].
  exists l. split; [exact Hl |].
  pose proof (scale_le_base _ _ _ _ _ _ _ _ Hl) as Hsb.
  apply place_page_locals_inr in Hl.
  destruct Hl as (_ & _ & _ & _ & _ & Hb & _).
  exact_ops.
  assert (Hbw : l_base_scale l <= slot_w / visible_width p)
    by (rewrite Hb; apply min2_le_l).
  assert (Hbh : l_base_scale l <= slot_h / visible_height p)
    by (rewrite Hb; apply min2_le_r).
  split; [rewrite Hb; apply min2_Qmin |].
  repeat split; apply Qmult_div_le; try assumption.
  - apply (Qle_trans _ _ _ Hsb Hbw).
  - apply (Qle_trans _ _ _ Hsb Hbh).
Qed.

(** In binary64 the tolerance cannot be dropped: in the left slot of a
    letter 2-up sheet without margins (396 x 612) a 5 x 7 inch page
    (360 x 504) gets the fit scale [min(396/360, 612/504)], and 360 times
    that scale is the next number above 396. *)
Lemma fit_scale_product_one_ulp_above :
  let p := mkPage (F := float) RotAbsent 360%float 504%float in
  exists lay slot_x slot_y slot_w slot_h l,
    layout_2up "letter" 0%float 0%float = inr lay
    /\ nth_error (lay_slots lay) 0 = Some (slot_x, slot_y, slot_w, slot_h)
    /\ slot_w = 396%float
    /\ slot_h = 612%float
    /\ place_page_locals p slot_x slot_y slot_w slot_h 1%float "center"
       = inr l
    /\ f_mul (visible_width p) (l_base_scale l) = next_up 396%float.
Proof.
  cbv zeta. do 6 eexists.
  split; [vm_compute; reflexivity |].
  split; [reflexivity |].
  split; [reflexivity |].
  split; [reflexivity |].
  split; [vm_compute; reflexivity |].
  vm_compute. reflexivity.
Qed.

(** Where neither the two quotients nor the two products of [place_page]
    overflow or underflow, the scaled content exceeds the slot by no more
    than the rounding of one division and one multiplication. *)
Lemma fit_scale_rounding_bound (p : Page float)
    (slot_x slot_y slot_w slot_h zoom : float) (align : string) :
  let w := visible_width p in
  let h := visible_height p in
  let base := min2 (f_div slot_w w) (f_div slot_h h) in
  positive_finite slot_w = true -> positive_finite slot_h = true ->
  positive_finite w = true -> positive_finite h = true ->
  positive_normal (f_div slot_w w) = true ->
  positive_normal (f_div slot_h h) = true ->
  positive_normal (f_mul w base) = true ->
  positive_normal (f_mul h base) = true ->
  exists l,
    place_page_locals p slot_x slot_y slot_w slot_h zoom align = inr l
    /\ l_base_scale l = base
    /\ float_value base
       == Qmin (float_value (f_div slot_w w)) (float_value (f_div slot_h h))
    /\ float_value base
       <= Qmin (float_value slot_w / float_value w)
               (float_value slot_h / float_value h) * (1 + rounding_unit)
    /\ float_value (f_mul w base)
       <= float_value slot_w * (1 + rounding_unit) ^ 2
    /\ float_value (f_mul h base)
       <= float_value slot_h * (1 + rounding_unit) ^ 2.
Proof.
  intros w h base Hsw Hsh Hw Hh Hqw Hqh Hpw Hph.
  assert (Harea : has_area p = true).
  { unfold has_area. fold w h.
    rewrite (eqb_zero_positive w Hw), (eqb_zero_positive h Hh). reflexivity. }
  destruct (place_page_locals_succeeds p slot_x slot_y slot_w slot_h zoom
              align Harea) as [l Hl].
  exists l. split; [exact Hl |].
  apply place_page_locals_inr in Hl.
  destruct Hl as (_ & _ & _ & _ & _ & Hb & _).
  split; [exact Hb |].
  destruct (min2_value _ _ Hqw Hqh) as [Hnb Hvb]. fold base in Hnb, Hvb.
  pose proof (div_upper slot_w w Hsw Hw Hqw) as Hdw.
  pose proof (div_upper slot_h h Hsh Hh Hqh) as Hdh.
  pose proof (mul_upper w base Hw (positive_normal_finite _ Hnb) Hpw) as Hmw.
  pose proof (mul_upper h base Hh (positive_normal_finite _ Hnb) Hph) as Hmh.
  change (w * base)%float with (f_mul w base) in Hmw.
  change (h * base)%float with (f_mul h base) in Hmh.
  change (slot_w / w)%float with (f_div slot_w w) in Hdw.
  change (slot_h / h)%float with (f_div slot_h h) in Hdh.
  apply positive_finite_value in Hw as (_ & _ & _ & _ & Hw0).
  apply positive_finite_value in Hh as (_ & _ & _ & _ & Hh0).
  apply positive_finite_value in Hsw as (_ & _ & _ & _ & Hsw0).
  apply positive_finite_value in Hsh as (_ & _ & _ & _ & Hsh0).
  assert (Hu : 0 < 1 + rounding_unit) by (rewrite rounding_unit_eq; reflexivity).
  assert (Hbw : float_value base <= float_value (f_div slot_w w))
    by (rewrite Hvb; apply Q.le_min_l).
  assert (Hbh : float_value base <= float_value (f_div slot_h h))
    by (rewrite Hvb; apply Q.le_min_r).
  split; [exact Hvb |].
  split.
  - apply Q.min_case_strong.
    + intros x y E. rewrite E. tauto.
    + intros _. eapply Qle_trans; [exact Hbw | exact Hdw].
    + intros _. eapply Qle_trans; [exact Hbh | exact Hdh].
  - assert (Hcancel : forall s c : Q, 0 < c ->
              c * (s / c * (1 + rounding_unit)) * (1 + rounding_unit)
              == s * (1 + rounding_unit) ^ 2)
      by (intros s c Hc; field; lra).
    split.
    + eapply Qle_trans; [exact Hmw |].
      rewrite <- (Hcancel (float_value slot_w) (float_value w) Hw0).
      apply Qmult_le_compat_r; [| lra].
      apply Qmult_le_l; [exact Hw0 |].
      eapply Qle_trans; [exact Hbw | exact Hdw].
    + eapply Qle_trans; [exact Hmh |].
      rewrite <- (Hcancel (float_value slot_h) (float_value h) Hh0).
      apply Qmult_le_compat_r; [| lra].
      apply Qmult_le_l; [exact Hh0 |].
      eapply Qle_trans; [exact Hbh | exact Hdh].
Qed.


Lemma moderate_normal_between (x : float) :
  positive_moderate x = true -> normal_between (-300) 300 x.
Proof.
  unfold positive_moderate, normal_between.
  destruct (Prim2SF x) as [| | | [|] m e]; try discriminate.
  intros H. apply andb_true_iff in H as [H He2].
  apply andb_true_iff in H as [H He1].
  apply andb_true_iff in H as [Hm1 Hm2].
  exists m, e. split; [reflexivity |]. lia.
Qed.

Lemma normal_between_normal (lo hi : Z) (x : float) :
  normal_between lo hi x -> positive_normal x = true.
Proof.
  intros (m & e & E & Hm & _). unfold positive_normal. rewrite E.
  apply andb_true_iff. split; [apply Z.leb_le | apply Z.ltb_lt]; lia.
Qed.

Lemma mul_normal (a b c d : Z) (x y : float) :
  normal_between a b x -> normal_between c d y ->
  (-1074 <= a + c + 52)%Z -> (b + d + 54 <= 971)%Z ->
  normal_between (a + c + 52) (b + d + 54) (x * y)%float.
Proof.
  intros (mx & ex & Ex & Hmx & Hex) (my & ey & Ey & Hmy & Hey) Hlo Hhi.
  destruct (SFmul_normal mx my ex ey Hmx Hmy) as (m & e & E & Hm & He);
    [lia | lia |].
  exists m, e. rewrite FloatAxioms.mul_spec, Ex, Ey.
  split; [exact E |]. split; [exact Hm | lia].
Qed.

Lemma div_normal (a b c d : Z) (x y : float) :
  normal_between a b x -> normal_between c d y ->
  (-1074 <= a - d - 53)%Z -> (b - c - 51 <= 971)%Z ->
  normal_between (a - d - 53) (b - c - 51) (x / y)%float.
Proof.
  intros (mx & ex & Ex & Hmx & Hex) (my & ey & Ey & Hmy & Hey) Hlo Hhi.
  destruct (SFdiv_normal mx my ex ey Hmx Hmy) as (m & e & E & Hm & He);
    [lia | lia |].
  exists m, e. rewrite FloatAxioms.div_spec, Ex, Ey.
  split; [exact E |]. split; [exact Hm | lia].
Qed.

Lemma min2_normal_between (lo hi : Z) (a b : float) :
  normal_between lo hi a -> normal_between lo hi b ->
  normal_between lo hi (min2 a b).
Proof.
  intros Ha Hb. unfold min2. destruct (f_ltb b a); assumption.
Qed.

(** C1: for a slot and a content size with positive dimensions, the fit
    scale that [place_page] computes is [min(slotWidth/contentWidth,
    slotHeight/contentHeight)], the smaller of the two float quotients, and
    the scaled content does not overflow the slot beyond the rounding of the
    program's binary64 arithmetic: it stays below [slotWidth + eps] and
    [slotHeight + eps] with [eps] the slot dimension times
    [(1 + 2^-51)^2 - 1]. Stated for the four dimensions being normal
    numbers from [2^-248] to [2^353], which keeps the quotients and products
    from overflowing to infinity and from underflowing. *)
Theorem fit_scale_within_rounding (p : Page float)
    (slot_x slot_y slot_w slot_h zoom : float) (align : string) :
  let w := visible_width p in
  let h := visible_height p in
  let base := min2 (f_div slot_w w) (f_div slot_h h) in
  positive_moderate slot_w = true -> positive_moderate slot_h = true ->
  positive_moderate w = true -> positive_moderate h = true ->
  exists l,
    place_page_locals p slot_x slot_y slot_w slot_h zoom align = inr l
    /\ l_base_scale l = base
    /\ float_value base
       == Qmin (float_value (f_div slot_w w)) (float_value (f_div slot_h h))
    /\ float_value base
       <= Qmin (float_value slot_w / float_value w)
               (float_value slot_h / float_value h) * (1 + rounding_unit)
    /\ float_value (f_mul w base)
       <= float_value slot_w * (1 + rounding_unit) ^ 2
    /\ float_value (f_mul h base)
       <= float_value slot_h * (1 + rounding_unit) ^ 2.
Proof.
  intros w h base Hsw Hsh Hw Hh.
  apply moderate_normal_between in Hsw, Hsh, Hw, Hh.
  assert (Hqw : normal_between (-653) 549 (f_div slot_w w))
    by (apply (div_normal (-300) 300 (-300) 300); [assumption .. | lia | lia]).
  assert (Hqh : normal_between (-653) 549 (f_div slot_h h))
    by (apply (div_normal (-300) 300 (-300) 300); [assumption .. | lia | lia]).
  assert (Hbase : normal_between (-653) 549 base)
    by (apply min2_normal_between; assumption).
  assert (Hpw : normal_between (-901) 903 (f_mul w base))
    by (apply (mul_normal (-300) 300 (-653) 549); [assumption .. | lia | lia]).
  assert (Hph : normal_between (-901) 903 (f_mul h base))
    by (apply (mul_normal (-300) 300 (-653) 549); [assumption .. | lia | lia]).
  apply fit_scale_rounding_bound;
    first [ apply positive_normal_finite | idtac ];
    eapply normal_between_normal; eassumption.
Qed.

Lemma fit_scale_within_rounding_witness :
  let p := mkPage (F := float) RotAbsent 360%float 504%float in
  exists l,
    place_page_locals p 0%float 0%float 396%float 612%float 1%float "center"
    = inr l
    /\ f_mul 360%float (l_base_scale l) = next_up 396%float
    /\ float_value (f_mul 360%float (l_base_scale l))
       <= float_value 396%float * (1 + rounding_unit) ^ 2.
Proof.
  cbv zeta.
  destruct (fit_scale_within_rounding
              (mkPage RotAbsent 360%float 504%float)
              0%float 0%float 396%float 612%float 1%float "center")
    as (l & Hl & Hb & _ & _ & Hw & _);
    [vm_compute; reflexivity | vm_compute; reflexivity
     | vm_compute; reflexivity | vm_compute; reflexivity |].
  exists l. split; [exact Hl |]. rewrite Hb.
  split; [vm_compute; reflexivity | exact Hw].
Defined.

(** *** C2 *)

(** On a page with area: a zoom of zero or less is replaced by 1 and gives
    the base scale; a positive zoom gives [baseScale * zoom] clamped to
    [baseScale]; and a zoom above 1 is capped to exactly the base scale
    where the base scale is not negative. *)
Lemma effective_scale_clamp (p : Page Q)
    (slot_x slot_y slot_w slot_h zoom : Q) (align : string) :
  has_area p = true ->
  exists l,
    place_page_locals p slot_x slot_y slot_w slot_h zoom align = inr l
    /\ (zoom <= 0 -> l_zoom l = 1 /\ l_scale l == l_base_scale l)
    /\ (0 < zoom ->
        l_scale l == Qmin (l_base_scale l * zoom) (l_base_scale l)
        /\ l_scale l <= l_base_scale l)
    /\ (1 < zoom -> 0 <= l_base_scale l -> l_scale l == l_base_scale l).
Proof.
  intros Harea.
  destruct (place_page_locals_succeeds p slot_x slot_y slot_w slot_h zoom
              align Harea) as [l Hl].
  exists l. split; [exact Hl |].
  pose proof (scale_le_base _ _ _ _ _ _ _ _ Hl) as Hsb.
  apply place_page_locals_inr in Hl.
  destruct Hl as (_ & Hz & _ & _ & _ & _ & Hs & _).
  exact_ops.
  split; [| split].
  - intros Hz0. apply Qle_bool_iff in Hz0. rewrite Hz0 in Hz.
    split; [exact Hz |]. rewrite Hs, Hz.
    by_order (Qlt_bool (l_base_scale l) (l_base_scale l * 1));
      [reflexivity | ring].
  - intros Hz0. apply Qle_bool_false in Hz0. rewrite Hz0 in Hz.
    split; [| exact Hsb]. rewrite Hs, Hz.
    by_order (Qlt_bool (l_base_scale l) (l_base_scale l * zoom)).
    + rewrite Q.min_r; [reflexivity | apply Qlt_le_weak; exact Hcmp].
    + rewrite Q.min_l; [reflexivity | exact Hcmp].
  - intros Hz1 Hb0.
    assert (Hz0 : Qle_bool zoom 0 = false) by (apply Qle_bool_false; lra).
    rewrite Hz0 in Hz. rewrite Hs, Hz.
    by_order (Qlt_bool (l_base_scale l) (l_base_scale l * zoom));
      [reflexivity |].
    nra.
Qed.

(** C2: the code does not cap a zoom above 1 on a slot of negative height,
    against the claim and against the docstring of [place_page] ("Values >
    1.0 are clamped so that the page never exceeds the slot"). The run
    [--sheet letter --margin 5 --zoom 2] on a 612 x 792 page has slots of
    36 x -108 points: the base scale is -3/22, the product with the zoom
    is below it, [if scale > base_scale] does not fire, and the page is
    merged with twice the base scale. The same happens on the program's
    binary64 numbers. *)
Theorem zoom_above_one_uncapped_on_negative_slot :
  let p := mkPage (F := Q) RotAbsent 612 792 in
  let argv := mkArgs "2up" "letter" "portrait" "center" "longest" 5 0 0 2 in
  let pf := mkPage (F := float) RotAbsent 612%float 792%float in
  (exists lay slot_x slot_y slot_w slot_h l sheet,
      layout_2up "letter" 5 0 = inr lay
      /\ nth_error (lay_slots lay) 0 = Some (slot_x, slot_y, slot_w, slot_h)
      /\ slot_w == 36
      /\ slot_h == - (108)
      /\ place_page_locals p slot_x slot_y slot_w slot_h 2 "center" = inr l
      /\ l_zoom l == 2
      /\ l_base_scale l == - (3 # 22)
      /\ l_scale l == l_base_scale l * 2
      /\ ~ l_scale l == l_base_scale l
      /\ main argv ["manual.pdf"] (fun _ => Some (mkReader [p]))
         = inr (Some [sheet])
      /\ nth_error (merged sheet) 0 = Some (p, l_t l))
  /\ (exists lay slot_x slot_y slot_w slot_h l,
         layout_2up "letter" 5%float 0%float = inr lay
         /\ nth_error (lay_slots lay) 0
            = Some (slot_x, slot_y, slot_w, slot_h)
         /\ slot_w = 36%float
         /\ slot_h = (-108)%float
         /\ place_page_locals pf slot_x slot_y slot_w slot_h 2%float "center"
            = inr l
         /\ l_scale l = f_mul (l_base_scale l) 2%float
         /\ f_ltb (l_scale l) (l_base_scale l) = true
         /\ f_eqb (l_scale l) (l_base_scale l) = false).
Proof.
  cbv zeta. split.
  - do 7 eexists.
    split; [vm_compute; reflexivity |].
    split; [reflexivity |].
    split; [reflexivity |].
    split; [reflexivity |].
    split; [vm_compute; reflexivity |].
    split; [reflexivity |].
    split; [reflexivity |].
    split; [reflexivity |].
    split; [vm_compute; discriminate |].
    split; [vm_compute; reflexivity | reflexivity].
  - do 6 eexists.
    split; [vm_compute; reflexivity |].
    split; [reflexivity |].
    split; [reflexivity |].
    split; [reflexivity |].
    split; [vm_compute; reflexivity |].
    split; [vm_compute; reflexivity |].
    split; vm_compute; reflexivity.
Qed.

(** *** C8 *)

(** C8: the horizontal offset is [slotX + (slotWidth - scaledContentWidth)/2]
    whatever the alignment (which changes neither the scale nor the
    horizontal offset), and in a slot higher than the scaled content the
    vertical offsets are ordered: top >= center >= bottom. *)
Theorem offsets_by_alignment (p : Page Q)
    (slot_x slot_y slot_w slot_h zoom : Q) (align : string) :
  has_area p = true ->
  exists l l_top l_center l_bottom,
    place_page_locals p slot_x slot_y slot_w slot_h zoom align = inr l
    /\ place_page_locals p slot_x slot_y slot_w slot_h zoom "top" = inr l_top
    /\ place_page_locals p slot_x slot_y slot_w slot_h zoom "center"
       = inr l_center
    /\ place_page_locals p slot_x slot_y slot_w slot_h zoom "bottom"
       = inr l_bottom
    /\ l_x_offset l
       == slot_x + (slot_w - visible_width p * l_scale l) / 2
    /\ l_scale l = l_scale l_center
    /\ l_x_offset l = l_x_offset l_center
    /\ (visible_height p * l_scale l_center < slot_h ->
        l_y_offset l_center <= l_y_offset l_top
        /\ l_y_offset l_bottom <= l_y_offset l_center).
Proof.
  intros Harea.
  destruct (place_page_locals_succeeds p slot_x slot_y slot_w slot_h zoom
              align Harea) as [l Hl].
  destruct (place_page_locals_succeeds p slot_x slot_y slot_w slot_h zoom
              "top" Harea) as [lt Ht].
  destruct (place_page_locals_succeeds p slot_x slot_y slot_w slot_h zoom
              "center" Harea) as [lc Hc].
  destruct (place_page_locals_succeeds p slot_x slot_y slot_w slot_h zoom
              "bottom" Harea) as [lb Hb].
  exists l, lt, lc, lb. repeat (split; [assumption |]).
  apply place_page_locals_inr in Hl, Ht, Hc, Hb.
  destruct Hl as (_ & Hz & Hw & _ & _ & Hbs & Hs & _ & Hx & _).
  destruct Ht as (_ & Hzt & _ & Hht & _ & Hbst & Hst & Hyt & _).
  destruct Hc as (_ & Hzc & Hwc & Hhc & _ & Hbsc & Hsc & Hyc & Hxc & _).
  destruct Hb as (_ & Hzb & _ & _ & _ & _ & _ & Hyb & _).
  assert (Escale : l_scale l = l_scale lc)
    by (rewrite Hs, Hsc, Hbs, Hbsc, Hz, Hzc; reflexivity).
  assert (Escale_t : l_scale lt = l_scale lc)
    by (rewrite Hst, Hsc, Hbst, Hbsc, Hzt, Hzc; reflexivity).
  split; [rewrite Hx, Hw; exact_ops; reflexivity |].
  split; [exact Escale |].
  split; [rewrite Hx, Hxc, Hw, Hwc, Escale; reflexivity |].
  intros Hfits.
  cbn [String.eqb Ascii.eqb Bool.eqb] in Hyt, Hyc, Hyb.
  rewrite Hyt, Hyc, Hyb, Hht, Hhc, Escale_t. exact_ops.
  set (d := slot_h - visible_height p * l_scale lc).
  assert (Hd : 0 < d) by (unfold d; lra).
  assert (Hhalf : d / 2 == d * (1 # 2)) by (field).
  rewrite Hhalf. split; lra.
Qed.

Lemma offsets_by_alignment_witness :
  exists l_top l_center l_bottom,
    place_page_locals (mkPage (F := Q) RotAbsent 612 792) 0 0 396 612 (1 # 2)
      "top" = inr l_top
    /\ place_page_locals (mkPage (F := Q) RotAbsent 612 792) 0 0 396 612
         (1 # 2) "center" = inr l_center
    /\ place_page_locals (mkPage (F := Q) RotAbsent 612 792) 0 0 396 612
         (1 # 2) "bottom" = inr l_bottom
    /\ l_y_offset l_center <= l_y_offset l_top
    /\ l_y_offset l_bottom <= l_y_offset l_center.
Proof.
  destruct (offsets_by_alignment (mkPage RotAbsent 612 792) 0 0 396 612
              (1 # 2) "middle" eq_refl)
    as (l & lt & lc & lb & _ & Ht & Hc & Hb & _ & _ & _ & Hy).
  exists lt, lc, lb. repeat (split; [assumption |]).
  apply Hy.
  apply place_page_locals_inr in Hc.
  destruct Hc as (_ & Hz & _ & _ & _ & Hbs & Hs & _).
  rewrite Hs, Hbs, Hz. vm_compute. reflexivity.
Defined.

(** *** C7 *)

Lemma matrix_multiply_identity_l (m : Ctm.matrix) :
  Ctm.matrix_multiply Ctm.identity m = m.
Proof.
  destruct m as [a b c d e f]. unfold Ctm.matrix_multiply, Ctm.identity.
  cbn. f_equal; ring.
Qed.

Lemma rotation_matrix_0 : Ctm.rotation_matrix 0 = Ctm.identity.
Proof.
  unfold Ctm.rotation_matrix, Ctm.identity, Ctm.radians.
  replace (0 * PI / 180)%R with 0%R by (unfold Rdiv; ring).
  rewrite cos_0, sin_0, Ropp_0. reflexivity.
Qed.

(** C7: the transformation that [place_page] hands to
    [merge_transformed_page] is the rotation by [-rot], then the uniform
    scale by the effective scale, then the translation by the offsets, in
    this order ([rot] being the page's declared rotation). *)
Theorem placement_transform_order (new_page : PageObject Q) (p : Page Q)
    (slot_x slot_y slot_w slot_h zoom : Q) (align : string) :
  has_area p = true ->
  exists l,
    place_page_locals p slot_x slot_y slot_w slot_h zoom align = inr l
    /\ place_page new_page p slot_x slot_y slot_w slot_h zoom align
       = inr (merge_transformed_page new_page p (l_t l))
    /\ l_rot l = rotation_or_0 p
    /\ Ctm.ctm (l_t l)
       = Ctm.then_
           (Ctm.then_ (Ctm.rotation_matrix (- l_rot l))
                      (Ctm.scale_matrix (l_scale l)))
           (Ctm.translation_matrix (l_x_offset l) (l_y_offset l)).
Proof.
  intros Harea.
  destruct (place_page_locals_succeeds p slot_x slot_y slot_w slot_h zoom
              align Harea) as [l Hl].
  exists l. split; [exact Hl |].
  split; [unfold place_page; rewrite Hl; reflexivity |].
  apply place_page_locals_inr in Hl.
  destruct Hl as (_ & _ & _ & _ & Hrot & _ & _ & _ & _ & Ht).
  split; [exact Hrot |].
  rewrite Ht. unfold Ctm.then_, Ctm.ctm.
  destruct (Z.eqb_spec (l_rot l) 0) as [E | _]; cbn [fold_left app Ctm.op_matrix].
  - rewrite E. cbn [Z.opp]. rewrite rotation_matrix_0.
    reflexivity.
  - rewrite matrix_multiply_identity_l. reflexivity.
Qed.

Lemma placement_transform_order_witness :
  exists l,
    place_page_locals (mkPage (F := Q) (RotInt 90) 792 612) 0 0 396 612 1
      "center" = inr l
    /\ l_t l = [Rotate (-90); Scale (l_scale l);
                Translate (l_x_offset l) (l_y_offset l)]
    /\ Ctm.ctm (l_t l)
       = Ctm.then_
           (Ctm.then_ (Ctm.rotation_matrix (-90))
                      (Ctm.scale_matrix (l_scale l)))
           (Ctm.translation_matrix (l_x_offset l) (l_y_offset l)).
Proof.
  destruct (placement_transform_order
              (create_blank_page 792 612) (mkPage (RotInt 90) 792 612)
              0 0 396 612 1 "center" eq_refl)
    as (l & Hl & _ & Hrot & Hctm).
  exists l. split; [exact Hl |].
  cbn in Hrot. rewrite Hrot in Hctm. split; [| exact Hctm].
  apply place_page_locals_inr in Hl.
  destruct Hl as (_ & _ & _ & _ & _ & _ & _ & _ & _ & Ht).
  rewrite Ht, Hrot. reflexivity.
Defined.

(** ** The composition loop *)

Section Driver_facts.
Context {F : Type} {PF : PyFloat F}.
Local Open Scope nat_scope.

Lemma fold_left_min_spec (l : list nat) :
  forall x, is_min (x :: l) (fold_left Nat.min l x).
Proof.
  induction l as [| y l IH]; intros x; simpl.
  - split; [left; reflexivity | constructor; [lia | constructor]].
  - destruct (IH (Nat.min x y)) as [Hin Hall].
    inversion Hall as [| ? ? Hhd Htl]; subst.
    split.
    + destruct Hin as [Hin | Hin]; [| right; right; exact Hin].
      destruct (Nat.min_spec x y) as [[_ E] | [_ E]].
      * left. congruence.
      * right. left. congruence.
    + constructor; [lia |]. constructor; [lia | exact Htl].
Qed.

Lemma fold_left_max_spec (l : list nat) :
  forall x, is_max (x :: l) (fold_left Nat.max l x).
Proof.
  induction l as [| y l IH]; intros x; simpl.
  - split; [left; reflexivity | constructor; [lia | constructor]].
  - destruct (IH (Nat.max x y)) as [Hin Hall].
    inversion Hall as [| ? ? Hhd Htl]; subst.
    split.
    + destruct Hin as [Hin | Hin]; [| right; right; exact Hin].
      destruct (Nat.max_spec x y) as [[_ E] | [_ E]].
      * right. left. congruence.
      * left. congruence.
    + constructor; [lia |]. constructor; [lia | exact Htl].
Qed.

(** [total] is the least page count under "shortest" and the greatest one
    under any other stop mode. *)
Lemma total_sheets_spec (stop_mode : string) (sources : list (PdfReader F)) :
  sources <> [] ->
  exists total,
    total_sheets stop_mode sources = inr total
    /\ (stop_mode = "shortest" -> is_min (page_counts sources) total)
    /\ (stop_mode <> "shortest" -> is_max (page_counts sources) total).
Proof.
  intros Hne. destruct sources as [| r sources]; [contradiction |].
  unfold total_sheets, page_counts. cbn [map min_list max_list].
  destruct (String.eqb_spec stop_mode "shortest") as [E | E].
  - eexists. split; [reflexivity |].
    split; [intros _; apply fold_left_min_spec | contradiction].
  - eexists. split; [reflexivity |].
    split; [contradiction | intros _; apply fold_left_max_spec].
Qed.

Lemma reader_for_slot_nth (sources : list (PdfReader F)) (slot_idx : nat)
    (d : PdfReader F) :
  sources <> [] ->
  reader_for_slot sources slot_idx
  = inr (nth (Nat.min slot_idx (List.length sources - 1)) sources d).
Proof.
  intros Hne. unfold reader_for_slot, index.
  assert (Hlen : 0 < List.length sources)
    by (destruct sources; [contradiction | simpl; lia]).
  rewrite (nth_error_nth' sources d) by lia.
  reflexivity.
Qed.

Lemma reader_for_slot_In (sources : list (PdfReader F)) (slot_idx : nat)
    (reader : PdfReader F) :
  reader_for_slot sources slot_idx = inr reader -> In reader sources.
Proof.
  unfold reader_for_slot, index.
  destruct (nth_error sources _) as [r |] eqn:E; [| discriminate].
  intros Hr. injection Hr as <-. apply (nth_error_In _ _ E).
Qed.

(** *** One slot *)

Lemma fill_slot_succeeds (sources : list (PdfReader F)) (i : nat) (zoom : F)
    (align : string) (new_page : PageObject F) (entry : nat * slot F) :
  sources <> [] -> all_have_area sources ->
  exists sheet, fill_slot sources i zoom align new_page entry = inr sheet.
Proof.
  intros Hne Harea. destruct entry as [slot_idx [[[x y] sw] sh]].
  unfold fill_slot.
  rewrite (reader_for_slot_nth sources slot_idx (mkReader [])) by exact Hne.
  cbn [bind].
  set (reader := nth _ sources _).
  assert (Hin : In reader sources).
  { apply nth_In. destruct sources; [contradiction | simpl; lia]. }
  destruct (Nat.ltb_spec i (List.length (pages reader))) as [Hi | Hi].
  - unfold index.
    destruct (nth_error (pages reader) i) as [p |] eqn:Ep.
    + cbn [bind ret]. unfold place_page.
      unfold all_have_area in Harea. rewrite Forall_forall in Harea.
      specialize (Harea reader Hin). rewrite Forall_forall in Harea.
      destruct (place_page_locals_succeeds p x y sw sh zoom align
                  (Harea p (nth_error_In _ _ Ep))) as [l Hl].
      rewrite Hl. cbn [bind ret]. eexists. reflexivity.
    + apply nth_error_None in Ep. lia.
  - eexists. reflexivity.
Qed.

(** A slot changes the sheet only by merging: the sheet keeps its size. *)
Lemma fill_slot_size (sources : list (PdfReader F)) (i : nat) (zoom : F)
    (align : string) (new_page sheet : PageObject F) (entry : nat * slot F) :
  fill_slot sources i zoom align new_page entry = inr sheet ->
  sheet_width sheet = sheet_width new_page
  /\ sheet_height sheet = sheet_height new_page.
Proof.
  destruct entry as [slot_idx [[[x y] sw] sh]]. unfold fill_slot.
  intros Hs. apply bind_inr in Hs as (reader & _ & Hs).
  destruct (i <? List.length (pages reader)).
  - apply bind_inr in Hs as (p & _ & Hs).
    apply place_page_inr in Hs as (l & _ & ->). split; reflexivity.
  - injection Hs as <-. split; reflexivity.
Qed.

(** A slot whose source has a page [i] merges exactly that page. *)
Lemma fill_slot_merges (sources : list (PdfReader F)) (i : nat) (zoom : F)
    (align : string) (new_page sheet : PageObject F) (entry : nat * slot F)
    (bound : nat) :
  Forall (fun c => bound <= c) (page_counts sources) -> i < bound ->
  fill_slot sources i zoom align new_page entry = inr sheet ->
  exists m, merged sheet = merged new_page ++ [m]
            /\ slot_page sources (fst entry) i = Some (fst m).
Proof.
  intros Hbound Hi.
  destruct entry as [slot_idx [[[x y] sw] sh]]. unfold fill_slot.
  intros Hs. apply bind_inr in Hs as (reader & Hreader & Hs).
  assert (Hlen : bound <= List.length (pages reader)).
  { rewrite Forall_forall in Hbound. apply Hbound.
    unfold page_counts. apply in_map_iff. exists reader.
    split; [reflexivity | apply (reader_for_slot_In _ _ _ Hreader)]. }
  destruct (Nat.ltb_spec i (List.length (pages reader))) as [_ | Hge];
    [| lia].
  apply bind_inr in Hs as (p & Hp & Hs).
  apply place_page_inr in Hs as (l & _ & ->).
  exists (p, l_t l). split; [reflexivity |].
  unfold slot_page. cbn [fst]. rewrite Hreader.
  unfold index in Hp.
  destruct (nth_error (pages reader) i); [| discriminate].
  injection Hp as <-. reflexivity.
Qed.

End Driver_facts.

Section Writer_facts.
Context {F : Type} {PF : PyFloat F}.
Local Open Scope nat_scope.

(** *** One sheet *)

Lemma compose_sheet_succeeds (lay : layout F) (sources : list (PdfReader F))
    (zoom : F) (align : string) (writer : PdfWriter F) (i : nat) :
  sources <> [] -> all_have_area sources ->
  exists writer', compose_sheet lay sources zoom align writer i = inr writer'.
Proof.
  intros Hne Harea. unfold compose_sheet.
  destruct (foldM_succeeds (fill_slot sources i zoom align)
              (enumerate (lay_slots lay))
              (fun acc x _ => fill_slot_succeeds sources i zoom align acc x
                                Hne Harea)
              (create_blank_page (lay_W lay) (lay_H lay))) as [sheet Hs].
  rewrite Hs. cbn [bind ret]. eexists. reflexivity.
Qed.

(** Each turn of the loop adds one sheet, of the layout's size. *)
Lemma compose_sheet_adds (lay : layout F) (sources : list (PdfReader F))
    (zoom : F) (align : string) (writer writer' : PdfWriter F) (i : nat) :
  compose_sheet lay sources zoom align writer i = inr writer' ->
  exists sheet,
    writer' = writer ++ [sheet]
    /\ foldM (fill_slot sources i zoom align) (enumerate (lay_slots lay))
         (create_blank_page (lay_W lay) (lay_H lay)) = inr sheet
    /\ sheet_width sheet = lay_W lay
    /\ sheet_height sheet = lay_H lay.
Proof.
  unfold compose_sheet. intros Hw.
  apply bind_inr in Hw as (sheet & Hs & Hw). injection Hw as <-.
  exists sheet. split; [reflexivity |]. split; [exact Hs |].
  apply (foldM_invariant (fill_slot sources i zoom align)
           (fun s => sheet_width s = lay_W lay /\ sheet_height s = lay_H lay)
           (enumerate (lay_slots lay))) with (acc := create_blank_page (lay_W lay) (lay_H lay));
    [| split; reflexivity | exact Hs].
  intros acc x acc' _ [Hw Hh] Hx.
  apply fill_slot_size in Hx as [Hw' Hh']. split; congruence.
Qed.

(** Below the least page count every slot of the sheet is filled. *)
Lemma sheet_filled_below (lay : layout F) (sources : list (PdfReader F))
    (zoom : F) (align : string) (i bound : nat) (sheet : PageObject F) :
  Forall (fun c => bound <= c) (page_counts sources) -> i < bound ->
  foldM (fill_slot sources i zoom align) (enumerate (lay_slots lay))
    (create_blank_page (lay_W lay) (lay_H lay)) = inr sheet ->
  every_slot_filled sources (List.length (lay_slots lay)) i sheet.
Proof.
  intros Hbound Hi Hs.
  destruct (foldM_appends (fill_slot sources i zoom align) merged
              (fun entry m => slot_page sources (fst entry) i = Some (fst m))
              (enumerate (lay_slots lay))
              (fun acc x acc' _ Hx =>
                 fill_slot_merges sources i zoom align acc acc' x bound
                   Hbound Hi Hx)
              _ _ Hs) as (ys & Hys & HR).
  unfold every_slot_filled. rewrite Hys. cbn [create_blank_page merged app].
  replace (seq 0 (List.length (lay_slots lay)))
    with (map fst (enumerate (lay_slots lay))).
  - rewrite map_map. clear Hys Hs.
    induction HR as [| x y l l' Hxy _ IH]; [reflexivity |].
    cbn [map]. rewrite IH, Hxy. reflexivity.
  - unfold enumerate.
    assert (Hmap : forall {A B} (l1 : list A) (l2 : list B),
               List.length l1 = List.length l2 ->
               map fst (combine l1 l2) = l1).
    { intros A B l1. induction l1 as [| a l1 IH]; intros [| b l2] Hlen;
        try reflexivity; try discriminate.
      cbn. f_equal. apply IH. simpl in Hlen. lia. }
    apply Hmap. apply length_seq.
Qed.

(** *** All sheets *)

(** What the loop of a builder returns: one sheet for each index below
    [total], each of the layout's size. *)
Lemma write_sheets_inr (lay : layout F) (sources : list (PdfReader F))
    (align stop_mode : string) (zoom : F) (w : PdfWriter F) :
  write_sheets lay sources align stop_mode zoom = inr w ->
  exists total,
    total_sheets stop_mode sources = inr total
    /\ List.length w = total
    /\ forall i sheet, nth_error w i = Some sheet ->
         i < total
         /\ sheet_width sheet = lay_W lay
         /\ sheet_height sheet = lay_H lay
         /\ foldM (fill_slot sources i zoom align) (enumerate (lay_slots lay))
              (create_blank_page (lay_W lay) (lay_H lay)) = inr sheet.
Proof.
  unfold write_sheets. intros Hw.
  apply bind_inr in Hw as (total & Htotal & Hw).
  exists total. split; [exact Htotal |].
  destruct (foldM_appends (compose_sheet lay sources zoom align)
              (fun writer => writer)
              (fun i sheet =>
                 sheet_width sheet = lay_W lay
                 /\ sheet_height sheet = lay_H lay
                 /\ foldM (fill_slot sources i zoom align)
                      (enumerate (lay_slots lay))
                      (create_blank_page (lay_W lay) (lay_H lay)) = inr sheet)
              (seq 0 total)) with (acc := @nil (PageObject F)) (r := w)
    as (ys & Hys & HR).
  - intros acc i acc' _ Hi.
    apply compose_sheet_adds in Hi as (sheet & -> & Hfill & Hsw & Hsh).
    exists sheet. repeat split; assumption.
  - exact Hw.
  - cbn [app] in Hys. subst ys.
    pose proof (Forall2_length HR) as Hlen. rewrite length_seq in Hlen.
    split; [symmetry; exact Hlen |].
    intros i sheet Hi.
    split; [rewrite Hlen; apply nth_error_Some; congruence |].
    apply (Forall2_seq_nth _ w 0 total HR i sheet Hi).
Qed.

Lemma write_sheets_succeeds (lay : layout F) (sources : list (PdfReader F))
    (align stop_mode : string) (zoom : F) :
  sources <> [] -> all_have_area sources ->
  exists w, write_sheets lay sources align stop_mode zoom = inr w.
Proof.
  intros Hne Harea. unfold write_sheets.
  destruct (total_sheets_spec stop_mode sources Hne) as (total & Ht & _).
  rewrite Ht. cbn [bind].
  apply foldM_succeeds. intros acc i _.
  apply compose_sheet_succeeds; assumption.
Qed.

Lemma layout_2up_succeeds (sheet_size : string) (margin_in gutter_in : F) :
  In sheet_size ["letter"; "a4"] ->
  exists lay, layout_2up sheet_size margin_in gutter_in = inr lay
              /\ List.length (lay_slots lay) = 2.
Proof.
  intros [<- | [<- | []]]; eexists; split; reflexivity.
Qed.

Lemma layout_4up_succeeds (sheet_size orientation : string)
    (margin_in gutter_x_in gutter_y_in : F) :
  In sheet_size ["letter"; "a4"] ->
  exists lay,
    layout_4up sheet_size orientation margin_in gutter_x_in gutter_y_in
    = inr lay
    /\ List.length (lay_slots lay) = 4.
Proof.
  intros [<- | [<- | []]]; unfold layout_4up; cbn [dict_get SHEET_SIZES String.eqb Ascii.eqb Bool.eqb];
    destruct (String.eqb orientation "landscape");
    eexists; split; reflexivity.
Qed.

Lemma layout_2up_inr (sheet_size : string) (margin_in gutter_in : F)
    (lay : layout F) :
  layout_2up sheet_size margin_in gutter_in = inr lay ->
  List.length (lay_slots lay) = 2.
Proof.
  unfold layout_2up.
  destruct (dict_get SHEET_SIZES sheet_size) as [[bw bh] |]; [| discriminate].
  intros Hl. injection Hl as <-. reflexivity.
Qed.

Lemma layout_4up_inr (sheet_size orientation : string)
    (margin_in gutter_x_in gutter_y_in : F) (lay : layout F) :
  layout_4up sheet_size orientation margin_in gutter_x_in gutter_y_in = inr lay ->
  List.length (lay_slots lay) = 4.
Proof.
  unfold layout_4up.
  destruct (dict_get SHEET_SIZES sheet_size) as [[bw bh] |]; [| discriminate].
  destruct (String.eqb orientation "landscape");
    intros Hl; injection Hl as <-; reflexivity.
Qed.

End Writer_facts.

(** *** C3 *)

(** C3: for a non-empty list of sources, the number of sheets a builder
    writes is the greatest page count under stop policy "longest" and the
    least page count under "shortest"; the builders do write them when the
    sheet size is a preset and no page has a zero dimension. *)
Theorem sheet_count {F : Type} {PF : PyFloat F} (sources : list (PdfReader F))
    (sheet_size orientation align stop_mode : string)
    (margin_in gutter_in gutter_y_in zoom : F) :
  sources <> [] ->
  (forall w,
      build_writer_2up sources sheet_size align stop_mode margin_in gutter_in
        zoom = inr w ->
      (stop_mode = "longest" -> is_max (page_counts sources) (List.length w))
      /\ (stop_mode = "shortest" ->
          is_min (page_counts sources) (List.length w)))
  /\ (forall w,
      build_writer_4up sources sheet_size orientation align stop_mode
        margin_in gutter_in gutter_y_in zoom = inr w ->
      (stop_mode = "longest" -> is_max (page_counts sources) (List.length w))
      /\ (stop_mode = "shortest" ->
          is_min (page_counts sources) (List.length w)))
  /\ (In sheet_size ["letter"; "a4"] -> all_have_area sources ->
      exists w2 w4,
        build_writer_2up sources sheet_size align stop_mode margin_in
          gutter_in zoom = inr w2
        /\ build_writer_4up sources sheet_size orientation align stop_mode
             margin_in gutter_in gutter_y_in zoom = inr w4).
Proof.
  intros Hne.
  assert (Hcount : forall lay w,
             write_sheets lay sources align stop_mode zoom = inr w ->
             (stop_mode = "longest" ->
              is_max (page_counts sources) (List.length w))
             /\ (stop_mode = "shortest" ->
                 is_min (page_counts sources) (List.length w))).
  { intros lay w Hw.
    apply write_sheets_inr in Hw as (total & Ht & Hlen & _).
    destruct (total_sheets_spec stop_mode sources Hne)
      as (total' & Ht' & Hmin & Hmax).
    rewrite Ht in Ht'. injection Ht' as <-. rewrite Hlen.
    split.
    - intros ->. apply Hmax. discriminate.
    - exact Hmin. }
  split; [| split].
  - intros w Hw. unfold build_writer_2up in Hw.
    apply bind_inr in Hw as (lay & _ & Hw). apply (Hcount lay w Hw).
  - intros w Hw. unfold build_writer_4up in Hw.
    apply bind_inr in Hw as (lay & _ & Hw). apply (Hcount lay w Hw).
  - intros Hsheet Harea.
    destruct (layout_2up_succeeds sheet_size margin_in gutter_in Hsheet)
      as (lay2 & Hlay2 & _).
    destruct (layout_4up_succeeds sheet_size orientation margin_in gutter_in
                gutter_y_in Hsheet) as (lay4 & Hlay4 & _).
    destruct (write_sheets_succeeds lay2 sources align stop_mode zoom Hne
                Harea) as [w2 Hw2].
    destruct (write_sheets_succeeds lay4 sources align stop_mode zoom Hne
                Harea) as [w4 Hw4].
    exists w2, w4. unfold build_writer_2up, build_writer_4up.
    rewrite Hlay2, Hlay4. cbn [bind]. split; assumption.
Qed.

Lemma sheet_count_witness :
  let p := mkPage (F := Q) RotAbsent 612 792 in
  let sources := [mkReader [p]; mkReader [p; p; p]] in
  exists w,
    build_writer_2up sources "letter" "center" "longest" 0 0 1 = inr w
    /\ is_max [1; 3]%nat (List.length w).
Proof.
  cbv zeta.
  set (p := mkPage (F := Q) RotAbsent 612 792).
  set (sources := [mkReader [p]; mkReader [p; p; p]]).
  assert (Hne : sources <> []) by discriminate.
  assert (Harea : all_have_area sources).
  { repeat constructor. }
  destruct (sheet_count sources "letter" "portrait" "center" "longest"
              0 0 0 1 Hne) as (H2 & _ & Hrun).
  destruct (Hrun (or_introl eq_refl) Harea) as (w2 & _ & Hw2 & _).
  exists w2. split; [exact Hw2 |].
  apply (H2 w2 Hw2). reflexivity.
Defined.

(** *** C4 *)

(** C4: for a non-empty list of sources, the source that supplies the slot
    of index [i] is [sources[min(i, sourceCount - 1)]], so a slot index at
    or beyond [sourceCount] gets the last source; it is that source's page
    that the loop places in the slot. *)
Theorem slot_source {F : Type} {PF : PyFloat F} (sources : list (PdfReader F))
    (i : nat) (d : PdfReader F) :
  sources <> [] ->
  reader_for_slot sources i
  = inr (nth (Nat.min i (List.length sources - 1)) sources d)
  /\ (List.length sources <= i ->
      reader_for_slot sources i = inr (last sources d))%nat
  /\ (forall sheet_idx zoom align new_page x y sw sh,
        fill_slot sources sheet_idx zoom align new_page (i, (x, y, sw, sh))
        = let reader :=
            nth (Nat.min i (List.length sources - 1)) sources d in
          match nth_error (pages reader) sheet_idx with
          | Some src_page =>
              place_page new_page src_page x y sw sh zoom align
          | None => inr new_page
          end).
Proof.
  intros Hne.
  pose proof (reader_for_slot_nth sources i d Hne) as Hnth.
  split; [exact Hnth |]. split.
  - intros Hi. rewrite Hnth. f_equal.
    rewrite Nat.min_r by lia.
    apply nth_pred_length_last.
  - intros sheet_idx zoom align new_page x y sw sh.
    unfold fill_slot. rewrite Hnth. cbn [bind]. cbv zeta.
    set (reader := nth _ sources d). unfold index.
    destruct (Nat.ltb_spec sheet_idx (List.length (pages reader)))
      as [Hlt | Hge].
    + destruct (nth_error (pages reader) sheet_idx) eqn:E; [reflexivity |].
      apply nth_error_None in E. lia.
    + apply nth_error_None in Hge. rewrite Hge. reflexivity.
Qed.

Lemma slot_source_witness :
  let a := mkReader [mkPage (F := Q) RotAbsent 612 792] in
  let b := mkReader [mkPage (F := Q) (RotInt 90) 792 612] in
  reader_for_slot [a; b] 0 = inr a
  /\ reader_for_slot [a; b] 1 = inr b
  /\ reader_for_slot [a; b] 3 = inr b.
Proof.
  cbv zeta.
  set (a := mkReader [mkPage (F := Q) RotAbsent 612 792]).
  set (b := mkReader [mkPage (F := Q) (RotInt 90) 792 612]).
  assert (Hne : [a; b] <> []) by discriminate.
  destruct (slot_source [a; b] 0 a Hne) as (H0 & _).
  destruct (slot_source [a; b] 1 a Hne) as (H1 & _).
  destruct (slot_source [a; b] 3 a Hne) as (_ & H3 & _).
  split; [exact H0 |]. split; [exact H1 |].
  apply H3. cbn. lia.
Defined.

(** *** C10 *)

(** C10: for a non-empty list of sources and stop policy "shortest", every
    slot of every sheet written receives a page of its source (no slot is
    left blank), the number of sheets not exceeding any source's page
    count; the builders do write the sheets when the sheet size is a preset
    and no page has a zero dimension. *)
Theorem shortest_fills_every_slot {F : Type} {PF : PyFloat F}
    (sources : list (PdfReader F)) (sheet_size orientation align : string)
    (margin_in gutter_in gutter_y_in zoom : F) :
  sources <> [] ->
  (forall w,
      build_writer_2up sources sheet_size align "shortest" margin_in
        gutter_in zoom = inr w ->
      Forall (fun c => List.length w <= c)%nat (page_counts sources)
      /\ forall i sheet, nth_error w i = Some sheet ->
           every_slot_filled sources 2 i sheet
           /\ List.length (merged sheet) = 2%nat)
  /\ (forall w,
      build_writer_4up sources sheet_size orientation align "shortest"
        margin_in gutter_in gutter_y_in zoom = inr w ->
      Forall (fun c => List.length w <= c)%nat (page_counts sources)
      /\ forall i sheet, nth_error w i = Some sheet ->
           every_slot_filled sources 4 i sheet
           /\ List.length (merged sheet) = 4%nat)
  /\ (In sheet_size ["letter"; "a4"] -> all_have_area sources ->
      exists w2 w4,
        build_writer_2up sources sheet_size align "shortest" margin_in
          gutter_in zoom = inr w2
        /\ build_writer_4up sources sheet_size orientation align "shortest"
             margin_in gutter_in gutter_y_in zoom = inr w4).
Proof.
  intros Hne.
  assert (Hfill : forall lay w,
             write_sheets lay sources align "shortest" zoom = inr w ->
             Forall (fun c => List.length w <= c)%nat (page_counts sources)
             /\ forall i sheet, nth_error w i = Some sheet ->
                  every_slot_filled sources (List.length (lay_slots lay)) i
                    sheet
                  /\ List.length (merged sheet)
                     = List.length (lay_slots lay)).
  { intros lay w Hw.
    apply write_sheets_inr in Hw as (total & Ht & Hlen & Hsheets).
    destruct (total_sheets_spec "shortest" sources Hne)
      as (total' & Ht' & Hmin & _).
    rewrite Ht in Ht'. injection Ht' as <-.
    destruct (Hmin eq_refl) as [_ Hbound].
    split; [rewrite Hlen; exact Hbound |].
    intros i sheet Hi.
    destruct (Hsheets i sheet Hi) as (Hlt & _ & _ & Hs).
    pose proof (sheet_filled_below lay sources zoom align i total sheet
                  Hbound Hlt Hs) as Hfilled.
    split; [exact Hfilled |].
    unfold every_slot_filled in Hfilled.
    apply (f_equal (@List.length _)) in Hfilled.
    rewrite !length_map, length_seq in Hfilled. exact Hfilled. }
  split; [| split].
  - intros w Hw. unfold build_writer_2up in Hw.
    apply bind_inr in Hw as (lay & Hlay & Hw).
    apply layout_2up_inr in Hlay.
    destruct (Hfill lay w Hw) as [Hb Hs]. rewrite Hlay in Hs.
    split; assumption.
  - intros w Hw. unfold build_writer_4up in Hw.
    apply bind_inr in Hw as (lay & Hlay & Hw).
    apply layout_4up_inr in Hlay.
    destruct (Hfill lay w Hw) as [Hb Hs]. rewrite Hlay in Hs.
    split; assumption.
  - intros Hsheet Harea.
    destruct (layout_2up_succeeds sheet_size margin_in gutter_in Hsheet)
      as (lay2 & Hlay2 & _).
    destruct (layout_4up_succeeds sheet_size orientation margin_in gutter_in
                gutter_y_in Hsheet) as (lay4 & Hlay4 & _).
    destruct (write_sheets_succeeds lay2 sources align "shortest" zoom Hne
                Harea) as [w2 Hw2].
    destruct (write_sheets_succeeds lay4 sources align "shortest" zoom Hne
                Harea) as [w4 Hw4].
    exists w2, w4. unfold build_writer_2up, build_writer_4up.
    rewrite Hlay2, Hlay4. cbn [bind]. split; assumption.
Qed.

Lemma shortest_fills_every_slot_witness :
  let p := mkPage (F := Q) RotAbsent 612 792 in
  let sources := [mkReader [p]; mkReader [p; p; p]] in
  exists w,
    build_writer_2up sources "letter" "center" "shortest" 0 0 1 = inr w
    /\ forall i sheet, nth_error w i = Some sheet ->
         List.length (merged sheet) = 2%nat.
Proof.
  cbv zeta.
  set (p := mkPage (F := Q) RotAbsent 612 792).
  set (sources := [mkReader [p]; mkReader [p; p; p]]).
  assert (Hne : sources <> []) by discriminate.
  assert (Harea : all_have_area sources).
  { repeat constructor. }
  destruct (shortest_fills_every_slot sources "letter" "portrait" "center"
              0 0 0 1 Hne) as (H2 & _ & Hrun).
  destruct (Hrun (or_introl eq_refl) Harea) as (w2 & _ & Hw2 & _).
  exists w2. split; [exact Hw2 |].
  intros i sheet Hi.
  destruct (H2 w2 Hw2) as [_ Hfilled].
  apply (Hfilled i sheet Hi).
Defined.

(** *** C9 *)

(** C9: for a 2-up run with a sheet-size preset, whatever the float
    arithmetic: the sheet is the preset with its two dimensions swapped,
    which is landscape (width above height) for both presets, in binary64 as
    in exact arithmetic; there are exactly two slots, left then right, each
    [(sheetWidth - 2*margin - gutter)/2] wide and [sheetHeight - 2*margin]
    high, the right one starting at the end of the left one plus the gutter;
    every sheet written has that sheet size. In exact arithmetic the gap
    between the two slots is the gutter itself. *)
Theorem two_up_layout :
  (forall (F : Type) (PF : PyFloat F) (sheet_size : string)
          (margin_in gutter_in : F),
      In sheet_size ["letter"; "a4"] ->
      let margin := (margin_in * PT_PER_IN)%py in
      let gutter := (gutter_in * PT_PER_IN)%py in
      exists W H,
        dict_get SHEET_SIZES sheet_size = Some (H, W)
        /\ (let slot_w := f_div (W - f_lit 2 * margin - gutter)%py (f_lit 2) in
            let slot_h := (H - f_lit 2 * margin)%py in
            let left := (margin, margin, slot_w, slot_h) in
            let right := ((margin + slot_w + gutter)%py, margin, slot_w, slot_h) in
            layout_2up sheet_size margin_in gutter_in
            = inr (mkLayout W H [left; right]))
        /\ forall sources align stop_mode zoom w,
             build_writer_2up sources sheet_size align stop_mode margin_in
               gutter_in zoom = inr w ->
             Forall (fun sheet =>
                       sheet_width sheet = W /\ sheet_height sheet = H) w)
  /\ (forall (sheet_size : string) (W H : float),
         dict_get SHEET_SIZES sheet_size = Some (H, W) -> f_ltb H W = true)
  /\ (forall (sheet_size : string) (W H : Q),
         dict_get SHEET_SIZES sheet_size = Some (H, W) -> H < W)
  /\ (forall (sheet_size : string) (margin_in gutter_in W H : Q)
             (left_x left_y right_x right_y slot_w slot_h : Q),
         layout_2up sheet_size margin_in gutter_in
         = inr (mkLayout W H [ (left_x, left_y, slot_w, slot_h);
                               (right_x, right_y, slot_w, slot_h) ]) ->
         right_x - (left_x + slot_w) == gutter_in * 72).
Proof.
  split; [| split; [| split]].
  - intros F PF sheet_size margin_in gutter_in Hsheet. cbv zeta.
    assert (Hsizes : forall W H slots sources align stop_mode zoom w,
               layout_2up sheet_size margin_in gutter_in
               = inr (mkLayout W H slots) ->
               build_writer_2up sources sheet_size align stop_mode margin_in
                 gutter_in zoom = inr w ->
               Forall (fun sheet =>
                         sheet_width sheet = W /\ sheet_height sheet = H) w).
    { intros W H slots sources align stop_mode zoom w Hlay Hw.
      unfold build_writer_2up in Hw. rewrite Hlay in Hw. cbn [bind] in Hw.
      apply write_sheets_inr in Hw as (total & _ & _ & Hsheets).
      apply Forall_forall. intros sheet Hin.
      apply In_nth_error in Hin as [i Hi].
      destruct (Hsheets i sheet Hi) as (_ & Hw' & Hh' & _).
      split; assumption. }
    destruct Hsheet as [<- | [<- | []]].
    + do 2 eexists. split; [reflexivity |]. split; [reflexivity |].
      intros sources align stop_mode zoom w Hw.
      eapply Hsizes; [reflexivity | exact Hw].
    + do 2 eexists. split; [reflexivity |]. split; [reflexivity |].
      intros sources align stop_mode zoom w Hw.
      eapply Hsizes; [reflexivity | exact Hw].
  - intros sheet_size W H. cbn [dict_get SHEET_SIZES].
    destruct (String.eqb sheet_size "letter").
    + intros E. injection E as <- <-. vm_compute. reflexivity.
    + destruct (String.eqb sheet_size "a4"); [| discriminate].
      intros E. injection E as <- <-. vm_compute. reflexivity.
  - intros sheet_size W H. cbn [dict_get SHEET_SIZES].
    destruct (String.eqb sheet_size "letter").
    + intros E. injection E as <- <-. reflexivity.
    + destruct (String.eqb sheet_size "a4"); [| discriminate].
      intros E. injection E as <- <-. reflexivity.
  - intros sheet_size margin_in gutter_in W H left_x left_y right_x right_y
      slot_w slot_h. unfold layout_2up.
    destruct (dict_get SHEET_SIZES sheet_size) as [[base_w base_h] |];
      [| discriminate].
    intros E. injection E. intros. subst. exact_ops.
    unfold PT_PER_IN. exact_ops. field.
Qed.

Lemma two_up_layout_witness :
  let margin_in : float := f_lit 0.25%Q in
  let gutter_in : float := f_lit 0.1%Q in
  exists slot_w right_x,
    layout_2up "a4" margin_in gutter_in
    = inr (mkLayout 842%float 595%float
             [ (18%float, 18%float, slot_w, 559%float);
               (right_x, 18%float, slot_w, 559%float) ])
    /\ right_x = f_add (f_add 18%float slot_w) (f_mul gutter_in 72%float)
    /\ f_ltb 595%float 842%float = true.
Proof.
  cbv zeta.
  destruct two_up_layout as (Hlayout & Hlandscape & _ & _).
  destruct (Hlayout float binary64 "a4" (f_lit 0.25%Q) (f_lit 0.1%Q)
              (or_intror (or_introl eq_refl)))
    as (W & H & Hpreset & Hlay & _).
  pose proof (Hlandscape "a4" W H Hpreset) as Hlt.
  injection Hpreset as <- <-.
  exists (f_div (f_sub (f_sub 842%float (f_mul 2%float 18%float))
                       (f_mul (f_lit 0.1%Q) 72%float)) 2%float).
  eexists. split; [rewrite Hlay; vm_compute; reflexivity |].
  split; [vm_compute; reflexivity | exact Hlt].
Defined.

(** *** The argument parser and the defaults of the builders *)

Lemma check_choice_inr (value : string) (choices : list string) :
  check_choice value choices = inr tt <-> In value choices.
Proof.
  unfold check_choice.
  destruct (existsb (String.eqb value) choices) eqn:E.
  - split; [intros _ | reflexivity].
    apply existsb_exists in E as (c & Hin & Hc).
    apply String.eqb_eq in Hc. subst c. exact Hin.
  - split; [discriminate |]. intros Hin.
    assert (Ht : existsb (String.eqb value) choices = true).
    { apply existsb_exists. exists value.
      split; [exact Hin | apply String.eqb_refl]. }
    congruence.
Qed.

Lemma check_choice_cases (value : string) (choices : list string) :
  (check_choice value choices = inr tt /\ In value choices)
  \/ (check_choice value choices = inl (SystemExit 2)
      /\ ~ In value choices).
Proof.
  destruct (check_choice value choices) as [e | []] eqn:E.
  - right. split.
    + unfold check_choice in E.
      destruct (existsb (String.eqb value) choices); [discriminate |].
      symmetry. exact E.
    + intros Hin. apply check_choice_inr in Hin. congruence.
  - left. split; [reflexivity | apply check_choice_inr; exact E].
Qed.




(** * Further properties of [2up.py] *)

(** ** The 4-up layout and the slots of both layouts *)

(** X1: the 4-up layout of [build_writer_4up]: the sheet is the preset, turned to
    landscape only when the orientation is "landscape", and the four slots
    come in reading order (top-left, top-right, bottom-left, bottom-right),
    each [(W - 2*margin - gutter_x)/2] wide and [(H - 2*margin - gutter_y)/2]
    high, the top row one slot height and one vertical gutter above the
    bottom row; every sheet written has the sheet size. *)
Theorem four_up_layout (sheet_size orientation : string)
    (margin_in gutter_x_in gutter_y_in : Q) :
  In sheet_size ["letter"; "a4"] ->
  let margin := margin_in * 72 in
  let gutter_x := gutter_x_in * 72 in
  let gutter_y := gutter_y_in * 72 in
  exists W H slot_w slot_h,
    layout_4up sheet_size orientation margin_in gutter_x_in gutter_y_in
    = inr (mkLayout W H
             [ (margin, margin + slot_h + gutter_y, slot_w, slot_h);
               (margin + slot_w + gutter_x, margin + slot_h + gutter_y,
                slot_w, slot_h);
               (margin, margin, slot_w, slot_h);
               (margin + slot_w + gutter_x, margin, slot_w, slot_h) ])
    /\ (orientation = "landscape" ->
        dict_get SHEET_SIZES sheet_size = Some (H, W) /\ H < W)
    /\ (orientation <> "landscape" ->
        dict_get SHEET_SIZES sheet_size = Some (W, H) /\ W < H)
    /\ slot_w == (W - 2 * margin - gutter_x) / 2
    /\ slot_h == (H - 2 * margin - gutter_y) / 2
    /\ forall sources align stop_mode zoom w,
         build_writer_4up sources sheet_size orientation align stop_mode
           margin_in gutter_x_in gutter_y_in zoom = inr w ->
         Forall (fun sheet => sheet_width sheet = W /\ sheet_height sheet = H)
                w.
Proof.
  intros Hsheet. cbv zeta.
  assert (Hsizes : forall W H slots sources align stop_mode zoom w,
             layout_4up sheet_size orientation margin_in gutter_x_in
               gutter_y_in = inr (mkLayout W H slots) ->
             build_writer_4up sources sheet_size orientation align stop_mode
               margin_in gutter_x_in gutter_y_in zoom = inr w ->
             Forall (fun sheet =>
                       sheet_width sheet = W /\ sheet_height sheet = H) w).
  { intros W H slots sources align stop_mode zoom w Hlay Hw.
    unfold build_writer_4up in Hw. rewrite Hlay in Hw. cbn [bind] in Hw.
    apply write_sheets_inr in Hw as (total & _ & _ & Hsheets).
    apply Forall_forall. intros sheet Hin.
    apply In_nth_error in Hin as [i Hi].
    destruct (Hsheets i sheet Hi) as (_ & Hw' & Hh' & _).
    split; assumption. }
  unfold layout_4up in *.
  destruct (String.eqb_spec orientation "landscape") as [Ho | Ho];
    destruct Hsheet as [<- | [<- | []]];
    cbn [dict_get SHEET_SIZES String.eqb Ascii.eqb Bool.eqb] in *;
    do 4 eexists;
    (split; [reflexivity |]);
    (split; [intros Ho'; try contradiction; split; reflexivity |]);
    (split; [intros Ho'; try contradiction; split; reflexivity |]);
    (split; [reflexivity |]); (split; [reflexivity |]);
    intros sources align stop_mode zoom w Hw;
    (eapply Hsizes; [reflexivity | exact Hw]).
Qed.

Lemma four_up_layout_witness :
  exists slot_w slot_h,
    layout_4up (F := Q) "letter" "landscape" 1 1 1
    = inr (mkLayout (11 * 72) (8.5 * 72)
             [ (72, 72 + slot_h + 72, slot_w, slot_h);
               (72 + slot_w + 72, 72 + slot_h + 72, slot_w, slot_h);
               (72, 72, slot_w, slot_h);
               (72 + slot_w + 72, 72, slot_w, slot_h) ])
    /\ slot_w == 288
    /\ slot_h == 198.
Proof.
  destruct (four_up_layout "letter" "landscape" 1 1 1 (or_introl eq_refl))
    as (W & H & slot_w & slot_h & Hlay & Hland & _ & Hw & Hh & _).
  destruct (Hland eq_refl) as [Hpreset _].
  injection Hpreset as <- <-.
  exists slot_w, slot_h.
  split; [| split].
  - rewrite Hlay. reflexivity.
  - rewrite Hw. reflexivity.
  - rewrite Hh. reflexivity.
Defined.

Lemma Qhalf_double (a : Q) : a / 2 * 2 == a.
Proof. field. Qed.

Ltac invert_Forall :=
  repeat match goal with
         | H : Forall _ (_ :: _) |- _ => inversion H; clear H; subst
         | H : Forall _ [] |- _ => clear H
         end.

(** X2: with gutters that are not negative and slots that have a size, the
    slots of either layout lie within the sheet's margins and no two of
    them overlap. *)
Theorem slots_inside_margins_and_apart (sheet_size orientation : string)
    (margin_in gutter_x_in gutter_y_in : Q) (lay : layout Q) :
  layout_2up sheet_size margin_in gutter_x_in = inr lay
  \/ layout_4up sheet_size orientation margin_in gutter_x_in gutter_y_in
     = inr lay ->
  0 <= gutter_x_in -> 0 <= gutter_y_in ->
  Forall slot_has_size (lay_slots lay) ->
  Forall (slot_inside (margin_in * 72) (lay_W lay) (lay_H lay))
         (lay_slots lay)
  /\ ForallOrdPairs slots_apart (lay_slots lay).
Proof.
  intros Hlay Hgx Hgy Hsize.
  destruct Hlay as [Hlay | Hlay].
  - unfold layout_2up in Hlay.
    destruct (dict_get SHEET_SIZES sheet_size) as [[bw bh] |];
      [| discriminate].
    injection Hlay as <-. cbn [lay_slots lay_W lay_H] in *.
    unfold PT_PER_IN in *. exact_ops.
    set (sw := (bh - 2 * (margin_in * 72) - gutter_x_in * 72) / 2) in *.
    assert (Hsw : sw * 2 == bh - 2 * (margin_in * 72) - gutter_x_in * 72)
      by (unfold sw; apply Qhalf_double).
    invert_Forall. unfold slot_has_size in *.
    split.
    + repeat constructor; cbn; lra.
    + repeat constructor; cbn; lra.
  - unfold layout_4up in Hlay.
    destruct (dict_get SHEET_SIZES sheet_size) as [[bw bh] |];
      [| discriminate].
    destruct (String.eqb orientation "landscape");
      injection Hlay as <-; cbn [lay_slots lay_W lay_H] in *;
      unfold PT_PER_IN in *; exact_ops.
    + set (sw := (bh - 2 * (margin_in * 72) - gutter_x_in * 72) / 2) in *.
      set (sh := (bw - 2 * (margin_in * 72) - gutter_y_in * 72) / 2) in *.
      assert (Hsw : sw * 2 == bh - 2 * (margin_in * 72) - gutter_x_in * 72)
        by (unfold sw; apply Qhalf_double).
      assert (Hsh : sh * 2 == bw - 2 * (margin_in * 72) - gutter_y_in * 72)
        by (unfold sh; apply Qhalf_double).
      invert_Forall. unfold slot_has_size in *.
      split; repeat constructor; cbn; lra.
    + set (sw := (bw - 2 * (margin_in * 72) - gutter_x_in * 72) / 2) in *.
      set (sh := (bh - 2 * (margin_in * 72) - gutter_y_in * 72) / 2) in *.
      assert (Hsw : sw * 2 == bw - 2 * (margin_in * 72) - gutter_x_in * 72)
        by (unfold sw; apply Qhalf_double).
      assert (Hsh : sh * 2 == bh - 2 * (margin_in * 72) - gutter_y_in * 72)
        by (unfold sh; apply Qhalf_double).
      invert_Forall. unfold slot_has_size in *.
      split; repeat constructor; cbn; lra.
Qed.

Lemma slots_inside_margins_and_apart_witness :
  exists lay,
    layout_4up (F := Q) "a4" "portrait" 1 1 1 = inr lay
    /\ Forall (slot_inside 72 595 842) (lay_slots lay)
    /\ ForallOrdPairs slots_apart (lay_slots lay).
Proof.
  eexists. split; [reflexivity |].
  apply (slots_inside_margins_and_apart "a4" "portrait" 1 1 1 _
           (or_intror eq_refl)).
  - discriminate.
  - discriminate.
  - repeat constructor; discriminate.
Defined.

(** ** Where [place_page] puts a page *)

(** X3: in exact arithmetic, for a page with positive visible dimensions and a
    slot whose dimensions are not negative, whatever the zoom and the
    alignment: the effective scale is not negative and the box of the
    scaled page at the computed offsets lies within the slot, with equal
    space on its left and right; under "top" its upper edge is the slot's,
    under "bottom" its lower edge is the slot's, and under any other
    alignment the space below and above it is equal. *)
Theorem placed_box_within_slot (p : Page Q)
    (slot_x slot_y slot_w slot_h zoom : Q) (align : string) :
  0 < visible_width p -> 0 < visible_height p ->
  0 <= slot_w -> 0 <= slot_h ->
  exists l,
    place_page_locals p slot_x slot_y slot_w slot_h zoom align = inr l
    /\ 0 <= l_scale l
    /\ slot_x <= l_x_offset l
    /\ l_x_offset l + visible_width p * l_scale l <= slot_x + slot_w
    /\ slot_y <= l_y_offset l
    /\ l_y_offset l + visible_height p * l_scale l <= slot_y + slot_h
    /\ l_x_offset l - slot_x
       == slot_x + slot_w - (l_x_offset l + visible_width p * l_scale l)
    /\ (align = "top" ->
        l_y_offset l + visible_height p * l_scale l == slot_y + slot_h)
    /\ (align = "bottom" -> l_y_offset l == slot_y)
    /\ (align <> "top" -> align <> "bottom" ->
        l_y_offset l - slot_y
        == slot_y + slot_h
           - (l_y_offset l + visible_height p * l_scale l)).
Proof.
  intros Hw Hh Hsw Hsh.
  destruct (place_page_locals_succeeds p slot_x slot_y slot_w slot_h zoom
              align (positive_has_area p Hw Hh)) as [l Hl].
  exists l. split; [exact Hl |].
  pose proof (scale_le_base _ _ _ _ _ _ _ _ Hl) as Hsb.
  apply place_page_locals_inr in Hl.
  destruct Hl as (_ & Hz & Hcw & Hch & _ & Hb & Hs & Hy & Hx & _).
  exact_ops.
  set (cw := visible_width p) in *. set (ch := visible_height p) in *.
  assert (Hbw : l_base_scale l <= slot_w / cw)
    by (rewrite Hb; apply min2_le_l).
  assert (Hbh : l_base_scale l <= slot_h / ch)
    by (rewrite Hb; apply min2_le_r).
  assert (Hfw : cw * l_scale l <= slot_w)
    by (apply Qmult_div_le; [exact Hw | apply (Qle_trans _ _ _ Hsb Hbw)]).
  assert (Hfh : ch * l_scale l <= slot_h)
    by (apply Qmult_div_le; [exact Hh | apply (Qle_trans _ _ _ Hsb Hbh)]).
  assert (Hb0 : 0 <= l_base_scale l).
  { rewrite Hb, min2_Qmin. apply Q.min_glb.
    - apply Qle_shift_div_l; [exact Hw | lra].
    - apply Qle_shift_div_l; [exact Hh | lra]. }
  assert (Hz0 : 0 < l_zoom l).
  { rewrite Hz. by_order (Qle_bool zoom 0); lra. }
  assert (Hs0 : 0 <= l_scale l).
  { rewrite Hs.
    by_order (Qlt_bool (l_base_scale l) (l_base_scale l * l_zoom l));
      [exact Hb0 | nra]. }
  rewrite Hcw in Hx. rewrite Hch in Hy.
  set (s := l_scale l) in *.
  assert (Ehw : (slot_w - cw * s) / 2 * 2 == slot_w - cw * s)
    by apply Qhalf_double.
  assert (Ehh : (slot_h - ch * s) / 2 * 2 == slot_h - ch * s)
    by apply Qhalf_double.
  set (hw := (slot_w - cw * s) / 2) in *.
  set (hh := (slot_h - ch * s) / 2) in *.
  assert (Hy_in : slot_y <= l_y_offset l
                  /\ l_y_offset l + ch * s <= slot_y + slot_h).
  { rewrite Hy. destruct (String.eqb align "top");
      [| destruct (String.eqb align "bottom")]; split; lra. }
  split; [exact Hs0 |].
  split; [rewrite Hx; lra |]. split; [rewrite Hx; lra |].
  split; [apply Hy_in |]. split; [apply Hy_in |].
  split; [rewrite Hx; lra |].
  split; [intros ->; rewrite Hy; cbn; lra |].
  split; [intros ->; rewrite Hy; cbn; lra |].
  intros Htop Hbottom. apply String.eqb_neq in Htop, Hbottom.
  rewrite Hy, Htop, Hbottom. lra.
Qed.

Lemma placed_box_within_slot_witness :
  exists l,
    place_page_locals (mkPage (F := Q) RotAbsent 612 792) 396 0 396 612
      (9 # 10) "top" = inr l
    /\ 396 <= l_x_offset l
    /\ l_y_offset l + 792 * l_scale l == 612.
Proof.
  destruct (placed_box_within_slot (mkPage RotAbsent 612 792) 396 0 396 612
              (9 # 10) "top")
    as (l & Hl & _ & Hx & _ & _ & _ & _ & Htop & _);
    [reflexivity | reflexivity | discriminate | discriminate |].
  exists l. split; [exact Hl |]. split; [exact Hx |].
  rewrite (Htop eq_refl). reflexivity.
Defined.

(** X4: the base scale is the best fit: in exact arithmetic, for a page with
    positive visible dimensions, no scale under which the page fits the slot
    is larger, and the page scaled by it fills the slot's width or its
    height. *)
Theorem fit_scale_is_largest (p : Page Q)
    (slot_x slot_y slot_w slot_h zoom : Q) (align : string) :
  0 < visible_width p -> 0 < visible_height p ->
  exists l,
    place_page_locals p slot_x slot_y slot_w slot_h zoom align = inr l
    /\ (forall s, visible_width p * s <= slot_w ->
                  visible_height p * s <= slot_h -> s <= l_base_scale l)
    /\ (visible_width p * l_base_scale l == slot_w
        \/ visible_height p * l_base_scale l == slot_h).
Proof.
  intros Hw Hh.
  destruct (place_page_locals_succeeds p slot_x slot_y slot_w slot_h zoom
              align (positive_has_area p Hw Hh)) as [l Hl].
  exists l. split; [exact Hl |].
  apply place_page_locals_inr in Hl.
  destruct Hl as (_ & _ & _ & _ & _ & Hb & _).
  exact_ops.
  set (cw := visible_width p) in *. set (ch := visible_height p) in *.
  assert (Hcw : ~ cw == 0) by lra.
  assert (Hch : ~ ch == 0) by lra.
  split.
  - intros s Hsw Hsh. rewrite Hb, min2_Qmin. apply Q.min_glb.
    + apply Qle_shift_div_l; [exact Hw | lra].
    + apply Qle_shift_div_l; [exact Hh | lra].
  - rewrite Hb. unfold min2. exact_ops.
    destruct (Qlt_bool (slot_h / ch) (slot_w / cw)).
    + right. apply Qmult_div_r. exact Hch.
    + left. apply Qmult_div_r. exact Hcw.
Qed.

Lemma fit_scale_is_largest_witness :
  exists l,
    place_page_locals (mkPage (F := Q) RotAbsent 612 792) 0 0 396 612 1
      "center" = inr l
    /\ (1 # 2) <= l_base_scale l.
Proof.
  destruct (fit_scale_is_largest (mkPage RotAbsent 612 792) 0 0 396 612 1
              "center") as (l & Hl & Hmax & _);
    [reflexivity | reflexivity |].
  exists l. split; [exact Hl |].
  apply Hmax; discriminate.
Defined.

(** ** What the sheets hold *)

(** A loop whose every successful step appends some items to an output has
    appended, in order, what each member of the list added. *)
Lemma foldM_collects {A B C} (f : B -> A -> result B) (out : B -> list C)
    (R : A -> list C -> Prop) (l : list A) :
  (forall acc x acc', In x l -> f acc x = inr acc' ->
     exists ys, out acc' = out acc ++ ys /\ R x ys) ->
  forall acc r, foldM f l acc = inr r ->
  exists yss, out r = out acc ++ List.concat yss /\ Forall2 R l yss.
Proof.
  induction l as [| x l IH]; intros Hstep acc r Hr; simpl in Hr.
  - injection Hr as <-. exists []. cbn. rewrite app_nil_r.
    split; constructor.
  - apply bind_inr in Hr as (acc' & Hx & Hr).
    destruct (Hstep acc x acc' (or_introl eq_refl) Hx) as (ys & Hys & Rx).
    destruct (IH (fun a z a' Hz => Hstep a z a' (or_intror Hz)) acc' r Hr)
      as (yss & Hyss & Rl).
    exists (ys :: yss). split.
    + cbn [List.concat]. rewrite Hyss, Hys, <- app_assoc. reflexivity.
    + constructor; assumption.
Qed.

(** The first exception of a loop is the exception of one of its steps. *)
Lemma foldM_inl {A B} (f : B -> A -> result B) (l : list A) (e : exn) :
  forall acc, foldM f l acc = inl e ->
  exists acc' x, In x l /\ f acc' x = inl e.
Proof.
  induction l as [| x l IH]; intros acc He; simpl in He.
  - discriminate.
  - destruct (f acc x) as [e' | acc'] eqn:Ex; simpl in He.
    + injection He as ->. exists acc, x. split; [left; reflexivity | exact Ex].
    + destruct (IH acc' He) as (a & y & Hy & Hf).
      exists a, y. split; [right; exact Hy | exact Hf].
Qed.

Section Sheet_facts.
Context {F : Type} {PF : PyFloat F}.

Lemma fill_slot_shows (sources : list (PdfReader F)) (i : nat) (zoom : F)
    (align : string) (new_page sheet : PageObject F) (entry : nat * slot F) :
  fill_slot sources i zoom align new_page entry = inr sheet ->
  exists added, merged sheet = merged new_page ++ added
                /\ slot_shows sources zoom align i entry added.
Proof.
  destruct entry as [slot_idx [[[x y] sw] sh]]. unfold fill_slot, slot_shows.
  intros Hs. apply bind_inr in Hs as (reader & Hreader & Hs).
  unfold slot_page. rewrite Hreader.
  destruct (Nat.ltb_spec i (List.length (pages reader))) as [Hlt | Hge].
  - apply bind_inr in Hs as (p & Hp & Hs).
    apply place_page_inr in Hs as (l & Hl & ->).
    unfold index in Hp.
    destruct (nth_error (pages reader) i) as [p' |]; [| discriminate].
    injection Hp as ->.
    exists [(p, l_t l)]. split; [reflexivity |].
    exists l. split; [exact Hl | reflexivity].
  - injection Hs as <-. apply nth_error_None in Hge. rewrite Hge.
    exists []. split; [symmetry; apply app_nil_r | reflexivity].
Qed.

(** A sheet of the writer holds, slot after slot, what each slot shows. *)
Lemma written_sheet_shows (lay : layout F) (sources : list (PdfReader F))
    (align stop_mode : string) (zoom : F) (w : PdfWriter F) (i : nat)
    (sheet : PageObject F) :
  write_sheets lay sources align stop_mode zoom = inr w ->
  nth_error w i = Some sheet ->
  exists per_slot,
    merged sheet = List.concat per_slot
    /\ Forall2 (slot_shows sources zoom align i) (enumerate (lay_slots lay))
               per_slot.
Proof.
  intros Hw Hi.
  apply write_sheets_inr in Hw as (total & _ & _ & Hsheets).
  destruct (Hsheets i sheet Hi) as (_ & _ & _ & Hs).
  destruct (foldM_collects (fill_slot sources i zoom align) merged
              (slot_shows sources zoom align i) (enumerate (lay_slots lay))
              (fun acc x acc' _ Hx =>
                 fill_slot_shows sources i zoom align acc acc' x Hx)
              _ _ Hs) as (yss & Hyss & HR).
  exists yss. split; [exact Hyss | exact HR].
Qed.

End Sheet_facts.

(** X5: whatever the stop mode, a sheet written by a builder holds, in slot
    order, what each slot of the layout shows: nothing for a slot whose
    source has no page of the sheet's index (the slot stays blank), and
    else that page with the transform computed for the slot's rectangle. *)
Theorem sheet_contents {F : Type} {PF : PyFloat F}
    (sources : list (PdfReader F))
    (sheet_size orientation align stop_mode : string)
    (margin_in gutter_in gutter_y_in zoom : F) :
  (forall lay w i sheet,
      layout_2up sheet_size margin_in gutter_in = inr lay ->
      build_writer_2up sources sheet_size align stop_mode margin_in gutter_in
        zoom = inr w ->
      nth_error w i = Some sheet ->
      exists per_slot,
        merged sheet = List.concat per_slot
        /\ Forall2 (slot_shows sources zoom align i)
                   (enumerate (lay_slots lay)) per_slot)
  /\ (forall lay w i sheet,
      layout_4up sheet_size orientation margin_in gutter_in gutter_y_in
      = inr lay ->
      build_writer_4up sources sheet_size orientation align stop_mode
        margin_in gutter_in gutter_y_in zoom = inr w ->
      nth_error w i = Some sheet ->
      exists per_slot,
        merged sheet = List.concat per_slot
        /\ Forall2 (slot_shows sources zoom align i)
                   (enumerate (lay_slots lay)) per_slot).
Proof.
  split; intros lay w i sheet Hlay Hw Hi.
  - unfold build_writer_2up in Hw. rewrite Hlay in Hw. cbn [bind] in Hw.
    apply (written_sheet_shows lay sources align stop_mode zoom w i sheet Hw
             Hi).
  - unfold build_writer_4up in Hw. rewrite Hlay in Hw. cbn [bind] in Hw.
    apply (written_sheet_shows lay sources align stop_mode zoom w i sheet Hw
             Hi).
Qed.

Lemma sheet_contents_witness :
  let p := mkPage (F := Q) RotAbsent 612 792 in
  let sources := [mkReader [p]; mkReader [p; p; p]] in
  exists w sheet,
    build_writer_2up sources "letter" "center" "longest" 0 0 1 = inr w
    /\ nth_error w 1 = Some sheet
    /\ map fst (merged sheet) = [p].
Proof.
  cbv zeta.
  set (p := mkPage (F := Q) RotAbsent 612 792).
  set (sources := [mkReader [p]; mkReader [p; p; p]]).
  destruct (build_writer_2up sources "letter" "center" "longest" 0 0 1)
    as [e | w] eqn:Hw; [vm_compute in Hw; discriminate |].
  destruct (nth_error w 1) as [sheet |] eqn:Hi;
    [| vm_compute in Hw; injection Hw as <-; discriminate].
  exists w, sheet. split; [reflexivity |]. split; [exact Hi |].
  destruct (sheet_contents sources "letter" "portrait" "center" "longest"
              0 0 0 1) as [H2 _].
  destruct (H2 _ w 1%nat sheet eq_refl Hw Hi) as (per_slot & Hm & HR).
  rewrite Hm. cbn in HR.
  inversion HR as [| e0 a0 l0 l0' Hleft Hrest]; subst.
  inversion Hrest as [| e1 a1 l1 l1' Hright Hnil]; subst.
  inversion Hnil; subst.
  cbn in Hleft, Hright. destruct Hright as (l & _ & ->). subst a0.
  reflexivity.
Defined.

(** X6: with a single source (what the default search mode passes), whatever
    the stop mode, a builder writes as many sheets as the source has pages,
    and sheet [i] shows page [i] in every slot: twice on a 2-up sheet, four
    times on a 4-up sheet. *)
Theorem single_source_repeats {F : Type} {PF : PyFloat F} (r : PdfReader F)
    (sheet_size orientation align stop_mode : string)
    (margin_in gutter_in gutter_y_in zoom : F) :
  (forall w,
      build_writer_2up [r] sheet_size align stop_mode margin_in gutter_in zoom
      = inr w ->
      List.length w = List.length (pages r)
      /\ forall i sheet, nth_error w i = Some sheet ->
           exists p, nth_error (pages r) i = Some p
                     /\ map fst (merged sheet) = [p; p])
  /\ (forall w,
      build_writer_4up [r] sheet_size orientation align stop_mode margin_in
        gutter_in gutter_y_in zoom = inr w ->
      List.length w = List.length (pages r)
      /\ forall i sheet, nth_error w i = Some sheet ->
           exists p, nth_error (pages r) i = Some p
                     /\ map fst (merged sheet) = [p; p; p; p]).
Proof.
  assert (Hone : forall lay w,
             write_sheets lay [r] align stop_mode zoom = inr w ->
             List.length w = List.length (pages r)
             /\ forall i sheet, nth_error w i = Some sheet ->
                  exists p, nth_error (pages r) i = Some p
                            /\ map (fun m => Some (fst m)) (merged sheet)
                               = map (fun _ => Some p)
                                     (seq 0 (List.length (lay_slots lay)))).
  { intros lay w Hw.
    apply write_sheets_inr in Hw as (total & Ht & Hlen & Hsheets).
    assert (Htotal : total = List.length (pages r)).
    { destruct (total_sheets_spec stop_mode [r]) as (t & Ht' & Hmin & Hmax);
        [discriminate |].
      rewrite Ht in Ht'. injection Ht' as <-.
      destruct (String.eqb_spec stop_mode "shortest") as [E | E].
      - destruct (Hmin E) as [[<- | []] _]. reflexivity.
      - destruct (Hmax E) as [[<- | []] _]. reflexivity. }
    split; [congruence |].
    intros i sheet Hi.
    destruct (Hsheets i sheet Hi) as (Hlt & _ & _ & Hs).
    destruct (nth_error (pages r) i) as [p |] eqn:Hp;
      [| apply nth_error_None in Hp; lia].
    exists p. split; [reflexivity |].
    pose proof (sheet_filled_below lay [r] zoom align i total sheet) as Hfill.
    unfold every_slot_filled in Hfill. rewrite Hfill; [| | exact Hlt | exact Hs].
    - apply map_ext. intros s. unfold slot_page.
      rewrite (reader_for_slot_nth [r] s r) by discriminate.
      cbn [List.length]. rewrite Nat.sub_diag, Nat.min_0_r. cbn [nth].
      exact Hp.
    - unfold page_counts. cbn [map]. constructor; [lia | constructor]. }
  split; intros w Hw.
  - unfold build_writer_2up in Hw. apply bind_inr in Hw as (lay & Hlay & Hw).
    apply layout_2up_inr in Hlay.
    destruct (Hone lay w Hw) as [Hlen Hsheets]. split; [exact Hlen |].
    intros i sheet Hi. destruct (Hsheets i sheet Hi) as (p & Hp & Hm).
    exists p. split; [exact Hp |]. rewrite Hlay in Hm. cbn in Hm.
    destruct (merged sheet) as [| a [| b [| c rest]]]; try discriminate.
    cbn in *. congruence.
  - unfold build_writer_4up in Hw. apply bind_inr in Hw as (lay & Hlay & Hw).
    apply layout_4up_inr in Hlay.
    destruct (Hone lay w Hw) as [Hlen Hsheets]. split; [exact Hlen |].
    intros i sheet Hi. destruct (Hsheets i sheet Hi) as (p & Hp & Hm).
    exists p. split; [exact Hp |]. rewrite Hlay in Hm. cbn in Hm.
    destruct (merged sheet) as [| a [| b [| c [| d [| e rest]]]]];
      try discriminate.
    cbn in *. congruence.
Qed.

Lemma single_source_repeats_witness :
  let p := mkPage (F := Q) RotAbsent 612 792 in
  let q := mkPage (F := Q) (RotInt 90) 792 612 in
  exists w sheet,
    build_writer_4up [mkReader [p; q]] "a4" "portrait" "top" "shortest"
      0 0 0 1 = inr w
    /\ List.length w = 2%nat
    /\ nth_error w 1 = Some sheet
    /\ map fst (merged sheet) = [q; q; q; q].
Proof.
  cbv zeta.
  set (p := mkPage (F := Q) RotAbsent 612 792).
  set (q := mkPage (F := Q) (RotInt 90) 792 612).
  destruct (build_writer_4up [mkReader [p; q]] "a4" "portrait" "top"
              "shortest" 0 0 0 1) as [e | w] eqn:Hw;
    [vm_compute in Hw; discriminate |].
  destruct (single_source_repeats (mkReader [p; q]) "a4" "portrait" "top"
              "shortest" 0 0 0 1) as [_ H4].
  destruct (H4 w Hw) as [Hlen Hsheets].
  destruct (nth_error w 1) as [sheet |] eqn:Hi;
    [| apply nth_error_None in Hi; rewrite Hlen in Hi; cbn in Hi; lia].
  exists w, sheet. split; [reflexivity |]. split; [exact Hlen |].
  split; [exact Hi |].
  destruct (Hsheets 1%nat sheet Hi) as (p' & Hp' & Hm).
  cbn in Hp'. injection Hp' as <-. exact Hm.
Defined.

(** ** Degenerate inputs and the exceptions of a run *)

Section Failure_facts.
Context {F : Type} {PF : PyFloat F}.

(** [place_page] raises nothing but [ZeroDivisionError], and only on a page
    with a zero visible dimension. *)
Lemma place_page_locals_inl (p : Page F) (x y w h z : F) (a : string)
    (e : exn) :
  place_page_locals p x y w h z a = inl e ->
  e = ZeroDivisionError /\ has_area p = false.
Proof.
  unfold place_page_locals, has_area. rewrite upright_size_eq.
  unfold truediv.
  destruct (f_eqb (visible_width p) (f_lit 0)).
  - cbn. intros He. injection He as <-. split; reflexivity.
  - destruct (f_eqb (visible_height p) (f_lit 0)).
    + cbn. intros He. injection He as <-. split; reflexivity.
    + cbn. discriminate.
Qed.

Lemma total_sheets_inl (stop_mode : string) (sources : list (PdfReader F))
    (e : exn) :
  total_sheets stop_mode sources = inl e ->
  sources = []
  /\ e = ValueError (if String.eqb stop_mode "shortest"
                     then "min() arg is an empty sequence"
                     else "max() arg is an empty sequence").
Proof.
  unfold total_sheets. destruct sources as [| r sources]; cbn.
  - destruct (String.eqb stop_mode "shortest"); cbn; intros He;
      injection He as <-; split; reflexivity.
  - destruct (String.eqb stop_mode "shortest"); discriminate.
Qed.

(** The loop of a builder fails only for want of sources or on a page
    without area. *)
Lemma write_sheets_inl (lay : layout F) (sources : list (PdfReader F))
    (align stop_mode : string) (zoom : F) (e : exn) :
  write_sheets lay sources align stop_mode zoom = inl e ->
  (sources = []
   /\ e = ValueError (if String.eqb stop_mode "shortest"
                      then "min() arg is an empty sequence"
                      else "max() arg is an empty sequence"))
  \/ (e = ZeroDivisionError /\ some_page_without_area sources).
Proof.
  unfold write_sheets. intros He.
  destruct (total_sheets stop_mode sources) as [e' | total] eqn:Ht.
  - cbn in He. injection He as <-. left.
    apply (total_sheets_inl _ _ _ Ht).
  - cbn [bind] in He. right.
    apply foldM_inl in He as (writer & i & _ & He).
    unfold compose_sheet in He.
    destruct (foldM (fill_slot sources i zoom align) _ _) as [e' | sheet]
      eqn:Hs; [| discriminate].
    cbn in He. injection He as <-.
    apply foldM_inl in Hs as (acc & [slot_idx [[[x y] sw] sh]] & _ & Hs).
    unfold fill_slot in Hs.
    assert (Hne : sources <> []).
    { intros ->. unfold total_sheets in Ht. cbn in Ht.
      destruct (String.eqb stop_mode "shortest"); discriminate Ht. }
    rewrite (reader_for_slot_nth sources slot_idx (mkReader [])) in Hs
      by exact Hne.
    cbn [bind] in Hs.
    set (reader := nth _ sources _) in Hs.
    assert (Hin : In reader sources).
    { apply nth_In. destruct sources; [contradiction | simpl; lia]. }
    destruct (Nat.ltb_spec i (List.length (pages reader))) as [Hi | Hi];
      [| discriminate].
    unfold index in Hs.
    destruct (nth_error (pages reader) i) as [p |] eqn:Hp;
      [| apply nth_error_None in Hp; lia].
    cbn [bind ret] in Hs. unfold place_page in Hs.
    destruct (place_page_locals p x y sw sh zoom align) as [e2 | l] eqn:Hl;
      [| discriminate].
    cbn in Hs. injection Hs as <-.
    apply place_page_locals_inl in Hl as [-> Harea].
    split; [reflexivity |].
    exists reader, p. split; [exact Hin |].
    split; [apply (nth_error_In _ _ Hp) | exact Harea].
Qed.

Lemma dict_get_sheet_None (sheet_size : string) :
  dict_get (SHEET_SIZES (F := F)) sheet_size = None ->
  ~ In sheet_size ["letter"; "a4"].
Proof.
  cbn [dict_get SHEET_SIZES].
  destruct (String.eqb_spec sheet_size "letter") as [-> | H1];
    [discriminate |].
  destruct (String.eqb_spec sheet_size "a4") as [-> | H2]; [discriminate |].
  intros _ [E | [E | []]]; congruence.
Qed.

Lemma layout_2up_inl (sheet_size : string) (margin_in gutter_in : F)
    (e : exn) :
  layout_2up sheet_size margin_in gutter_in = inl e ->
  e = unknown_sheet_size sheet_size /\ ~ In sheet_size ["letter"; "a4"].
Proof.
  unfold layout_2up.
  destruct (dict_get SHEET_SIZES sheet_size) as [[bw bh] |] eqn:Hget;
    [discriminate |].
  intros He. injection He as <-.
  split; [reflexivity | apply dict_get_sheet_None; exact Hget].
Qed.

Lemma layout_4up_inl (sheet_size orientation : string)
    (margin_in gutter_x_in gutter_y_in : F) (e : exn) :
  layout_4up sheet_size orientation margin_in gutter_x_in gutter_y_in = inl e ->
  e = unknown_sheet_size sheet_size /\ ~ In sheet_size ["letter"; "a4"].
Proof.
  unfold layout_4up.
  destruct (dict_get SHEET_SIZES sheet_size) as [[bw bh] |] eqn:Hget.
  - destruct (String.eqb orientation "landscape"); discriminate.
  - intros He. injection He as <-.
    split; [reflexivity | apply dict_get_sheet_None; exact Hget].
Qed.

Lemma open_all_length (files : string -> option (PdfReader F))
    (inputs : list string) :
  forallb (is_file files) inputs = true ->
  List.length (open_all files inputs) = List.length inputs.
Proof.
  unfold open_all, is_file.
  induction inputs as [| p inputs IH]; [reflexivity |].
  cbn [forallb flat_map]. intros Hall.
  apply andb_true_iff in Hall as [Hp Hrest].
  destruct (files p); [| discriminate].
  cbn. f_equal. apply IH. exact Hrest.
Qed.

Lemma parse_args_inr (argv args : Namespace F) :
  parse_args argv = inr args -> args = argv /\ recognized argv.
Proof.
  unfold parse_args, recognized.
  destruct (check_choice_cases (arg_mode argv) ["2up"; "4up"])
    as [[-> H1] | [-> _]]; [| discriminate].
  destruct (check_choice_cases (arg_sheet argv) ["letter"; "a4"])
    as [[-> H2] | [-> _]]; [| discriminate].
  destruct (check_choice_cases (arg_orientation argv)
              ["portrait"; "landscape"])
    as [[-> H3] | [-> _]]; [| discriminate].
  destruct (check_choice_cases (arg_align argv) ["center"; "top"; "bottom"])
    as [[-> H4] | [-> _]]; [| discriminate].
  destruct (check_choice_cases (arg_stop argv) ["longest"; "shortest"])
    as [[-> H5] | [-> _]]; [| discriminate].
  cbn. intros Ha. injection Ha as <-. tauto.
Qed.

Lemma parse_args_inl (argv : Namespace F) (e : exn) :
  parse_args argv = inl e -> e = SystemExit 2 /\ ~ recognized argv.
Proof.
  unfold parse_args, recognized.
  destruct (check_choice_cases (arg_mode argv) ["2up"; "4up"])
    as [[-> H1] | [-> H1]];
    [| cbn [bind]; intros He; injection He as <-;
       split; [reflexivity | tauto]].
  destruct (check_choice_cases (arg_sheet argv) ["letter"; "a4"])
    as [[-> H2] | [-> H2]];
    [| cbn [bind]; intros He; injection He as <-;
       split; [reflexivity | tauto]].
  destruct (check_choice_cases (arg_orientation argv)
              ["portrait"; "landscape"])
    as [[-> H3] | [-> H3]];
    [| cbn [bind]; intros He; injection He as <-;
       split; [reflexivity | tauto]].
  destruct (check_choice_cases (arg_align argv) ["center"; "top"; "bottom"])
    as [[-> H4] | [-> H4]];
    [| cbn [bind]; intros He; injection He as <-;
       split; [reflexivity | tauto]].
  destruct (check_choice_cases (arg_stop argv) ["longest"; "shortest"])
    as [[-> H5] | [-> H5]];
    [| cbn [bind]; intros He; injection He as <-;
       split; [reflexivity | tauto]].
  cbn. discriminate.
Qed.

End Failure_facts.

Local Open Scope nat_scope.

(** X7: A builder given no source raises the [ValueError] of [min] or [max];
    given a source without pages under "shortest", or only sources without
    pages under any stop mode, it writes an empty document and raises
    nothing. *)
Theorem degenerate_sources {F : Type} {PF : PyFloat F}
    (sources : list (PdfReader F))
    (sheet_size orientation align stop_mode : string)
    (margin_in gutter_in gutter_y_in zoom : F) :
  In sheet_size ["letter"; "a4"] ->
  (build_writer_2up [] sheet_size align stop_mode margin_in gutter_in zoom
   = inl (ValueError (if String.eqb stop_mode "shortest"
                      then "min() arg is an empty sequence"
                      else "max() arg is an empty sequence"))
   /\ build_writer_4up [] sheet_size orientation align stop_mode margin_in
        gutter_in gutter_y_in zoom
      = inl (ValueError (if String.eqb stop_mode "shortest"
                         then "min() arg is an empty sequence"
                         else "max() arg is an empty sequence")))
  /\ ((In 0 (page_counts sources) /\ stop_mode = "shortest")
      \/ (sources <> [] /\ Forall (fun c => c = 0) (page_counts sources)) ->
      build_writer_2up sources sheet_size align stop_mode margin_in gutter_in
        zoom = inr []
      /\ build_writer_4up sources sheet_size orientation align stop_mode
           margin_in gutter_in gutter_y_in zoom = inr []).
Proof.
  intros Hsheet.
  destruct (layout_2up_succeeds sheet_size margin_in gutter_in Hsheet)
    as (lay2 & Hlay2 & _).
  destruct (layout_4up_succeeds sheet_size orientation margin_in gutter_in
              gutter_y_in Hsheet) as (lay4 & Hlay4 & _).
  unfold build_writer_2up, build_writer_4up. rewrite Hlay2, Hlay4.
  cbn [bind]. split.
  - unfold write_sheets, total_sheets. cbn [map].
    destruct (String.eqb stop_mode "shortest"); split; reflexivity.
  - intros Hdeg.
    assert (Hne : sources <> []).
    { destruct Hdeg as [[Hin _] | [Hne _]]; [| exact Hne].
      intros ->. destruct Hin. }
    destruct (total_sheets_spec stop_mode sources Hne)
      as (total & Ht & Hmin & Hmax).
    assert (Hzero : total = 0).
    { destruct Hdeg as [[Hin ->] | [_ Hall]].
      - destruct (Hmin eq_refl) as [_ Hle].
        rewrite Forall_forall in Hle. specialize (Hle 0 Hin). lia.
      - assert (Hin : In total (page_counts sources)).
        { destruct (String.eqb_spec stop_mode "shortest") as [E | E].
          - apply (Hmin E).
          - apply (Hmax E). }
        rewrite Forall_forall in Hall. apply (Hall total Hin). }
    subst total. unfold write_sheets. rewrite Ht. split; reflexivity.
Qed.

Lemma degenerate_sources_witness :
  let p := mkPage (F := Q) RotAbsent 612%Q 792%Q in
  build_writer_2up [mkReader [p; p]; mkReader []] "letter" "center"
    "shortest" 0%Q 0%Q 1%Q = inr [].
Proof.
  cbv zeta.
  destruct (degenerate_sources
              [mkReader [mkPage (F := Q) RotAbsent 612%Q 792%Q;
                         mkPage (F := Q) RotAbsent 612%Q 792%Q];
               mkReader []]
              "letter" "portrait" "center" "shortest" 0%Q 0%Q 0%Q 1%Q
              (or_introl eq_refl)) as [_ Hempty].
  apply Hempty. left. split; [right; left; reflexivity | reflexivity].
Defined.

(** X8: the two subscripts in the loop of a builder,
    [sources[min(slot_idx, len(sources) - 1)]] and [reader.pages[i]], are
    never out of range: whatever the sources, the layout and the stop mode,
    a builder does not end with the [IndexError] of a subscript. *)
Theorem builders_index_in_range {F : Type} {PF : PyFloat F}
    (sources : list (PdfReader F))
    (sheet_size orientation align stop_mode : string)
    (margin_in gutter_in gutter_y_in zoom : F) :
  build_writer_2up sources sheet_size align stop_mode margin_in gutter_in
    zoom <> inl IndexError
  /\ build_writer_4up sources sheet_size orientation align stop_mode
       margin_in gutter_in gutter_y_in zoom <> inl IndexError.
Proof.
  assert (Hloop : forall lay,
             write_sheets lay sources align stop_mode zoom
             <> inl IndexError).
  { intros lay He.
    destruct (write_sheets_inl _ _ _ _ _ _ He) as [[_ E] | [E _]];
      discriminate E. }
  split; intros He.
  - unfold build_writer_2up in He.
    destruct (layout_2up sheet_size margin_in gutter_in) as [e | lay]
      eqn:Hlay.
    + apply layout_2up_inl in Hlay as [-> _]. discriminate He.
    + apply (Hloop lay He).
  - unfold build_writer_4up in He.
    destruct (layout_4up sheet_size orientation margin_in gutter_in
                gutter_y_in) as [e | lay] eqn:Hlay.
    + apply layout_4up_inl in Hlay as [-> _]. discriminate He.
    + apply (Hloop lay He).
Qed.

(** ** [main] *)

Lemma In_firstn {A} (k : nat) (l : list A) (x : A) :
  In x (firstn k l) -> In x l.
Proof.
  intros Hin. rewrite <- (firstn_skipn k l). apply in_or_app. left.
  exact Hin.
Qed.

(** [main] once the parser has accepted the tokens. *)
Lemma main_unfold {F : Type} {PF : PyFloat F} (argv : Namespace F)
    (inputs : list string) (files : string -> option (PdfReader F)) :
  recognized argv ->
  main argv inputs files
  = match inputs with
    | [] => inr None
    | _ =>
      let used :=
        firstn (if String.eqb (arg_mode argv) "2up" then 2 else 4) inputs in
      if forallb (is_file files) used then
        if String.eqb (arg_mode argv) "2up" then
          bind (build_writer_2up (open_all files used) (arg_sheet argv)
                  (arg_align argv) (arg_stop argv) (arg_margin_in argv)
                  (arg_gutter_in argv) (arg_zoom argv))
               (fun w => inr (Some w))
        else
          bind (build_writer_4up (open_all files used) (arg_sheet argv)
                  (arg_orientation argv) (arg_align argv) (arg_stop argv)
                  (arg_margin_in argv) (arg_gutter_in argv)
                  (arg_gutter_y_in argv) (arg_zoom argv))
               (fun w => inr (Some w))
      else inr None
    end.
Proof.
  intros Hrec. unfold main.
  destruct (parse_args argv) as [e | args] eqn:Hparse.
  - apply parse_args_inl in Hparse as [_ Hbad]. contradiction.
  - apply parse_args_inr in Hparse as [-> _]. cbn [bind].
    destruct inputs as [| p inputs]; [reflexivity |].
    destruct (String.eqb (arg_mode argv) "2up"); reflexivity.
Qed.

Lemma main_unfold_nonempty {F : Type} {PF : PyFloat F} (argv : Namespace F)
    (inputs : list string) (files : string -> option (PdfReader F)) :
  recognized argv -> inputs <> [] ->
  main argv inputs files
  = let used :=
      firstn (if String.eqb (arg_mode argv) "2up" then 2 else 4) inputs in
    if forallb (is_file files) used then
      if String.eqb (arg_mode argv) "2up" then
        bind (build_writer_2up (open_all files used) (arg_sheet argv)
                (arg_align argv) (arg_stop argv) (arg_margin_in argv)
                (arg_gutter_in argv) (arg_zoom argv))
             (fun w => inr (Some w))
      else
        bind (build_writer_4up (open_all files used) (arg_sheet argv)
                (arg_orientation argv) (arg_align argv) (arg_stop argv)
                (arg_margin_in argv) (arg_gutter_in argv)
                (arg_gutter_y_in argv) (arg_zoom argv))
             (fun w => inr (Some w))
    else inr None.
Proof.
  intros Hrec Hne. rewrite (main_unfold argv inputs files Hrec).
  destruct inputs; [contradiction | reflexivity].
Qed.



(** *** C6 *)




(** X9: [main] keeps the configuration errors of the builders from
    occurring: the parser has checked the sheet size, and [main] returns
    before building when no input is selected or a selected file does not
    exist, so that no run of [main] ends with the [ValueError] of an unknown
    sheet size or with the [ValueError] of [min] or [max] on an empty
    list. *)
Theorem main_guards_the_builders {F : Type} {PF : PyFloat F}
    (argv : Namespace F) (inputs : list string)
    (files : string -> option (PdfReader F)) :
  (forall s, main argv inputs files <> inl (unknown_sheet_size s))
  /\ main argv inputs files <> inl (ValueError "min() arg is an empty sequence")
  /\ main argv inputs files
     <> inl (ValueError "max() arg is an empty sequence").
Proof.
  assert (Hraised : forall e, main argv inputs files = inl e ->
                      e = SystemExit 2 \/ e = ZeroDivisionError).
  { intros e He.
    destruct (parse_args argv) as [e' | args] eqn:Hparse.
    - left. unfold main in He. rewrite Hparse in He. cbn in He.
      injection He as <-. apply (parse_args_inl _ _ Hparse).
    - right. apply parse_args_inr in Hparse as [_ Hrec].
      rewrite (main_unfold argv inputs files Hrec) in He.
      destruct inputs as [| p inputs]; [discriminate |].
      cbv zeta in He.
      set (k := if String.eqb (arg_mode argv) "2up" then 2 else 4) in He.
      set (used := firstn k (p :: inputs)) in He.
      destruct (forallb (is_file files) used) eqn:Hfiles; [| discriminate].
      assert (Hne : open_all files used <> []).
      { intros Hnil. apply (f_equal (@List.length _)) in Hnil.
        rewrite (open_all_length files used Hfiles) in Hnil.
        unfold used, k in Hnil.
        destruct (String.eqb (arg_mode argv) "2up"); discriminate. }
      assert (Hsheet : In (arg_sheet argv) ["letter"; "a4"]) by apply Hrec.
      destruct (String.eqb (arg_mode argv) "2up").
      + destruct (build_writer_2up _ _ _ _ _ _ _) as [e' | w] eqn:Hb;
          [| discriminate].
        cbn in He. injection He as <-.
        unfold build_writer_2up in Hb.
        destruct (layout_2up _ _ _) as [e2 | lay] eqn:Hlay.
        * apply layout_2up_inl in Hlay as [_ Hbad]. contradiction.
        * cbn [bind] in Hb.
          destruct (write_sheets_inl _ _ _ _ _ _ Hb) as [[Hnil _] | [E _]];
            [contradiction | exact E].
      + destruct (build_writer_4up _ _ _ _ _ _ _ _ _) as [e' | w] eqn:Hb;
          [| discriminate].
        cbn in He. injection He as <-.
        unfold build_writer_4up in Hb.
        destruct (layout_4up _ _ _ _ _) as [e2 | lay] eqn:Hlay.
        * apply layout_4up_inl in Hlay as [_ Hbad]. contradiction.
        * cbn [bind] in Hb.
          destruct (write_sheets_inl _ _ _ _ _ _ Hb) as [[Hnil _] | [E _]];
            [contradiction | exact E]. }
  split; [| split].
  - intros s He. destruct (Hraised _ He) as [E | E]; discriminate E.
  - intros He. destruct (Hraised _ He) as [E | E]; discriminate E.
  - intros He. destruct (Hraised _ He) as [E | E]; discriminate E.
Qed.

(** X10: [main] uses the first two selected files in 2-up mode and the first four
    in 4-up mode and nothing of the others: it does not even look whether
    they exist. *)
Theorem main_ignores_further_inputs {F : Type} {PF : PyFloat F}
    (argv : Namespace F) (inputs : list string)
    (files files' : string -> option (PdfReader F)) :
  let used :=
    firstn (if String.eqb (arg_mode argv) "2up" then 2 else 4) inputs in
  (forall p, In p used -> files' p = files p) ->
  main argv inputs files = main argv used files'.
Proof.
  cbv zeta. intros Hsame.
  set (k := if String.eqb (arg_mode argv) "2up" then 2 else 4) in *.
  destruct (parse_args argv) as [e | args] eqn:Hparse.
  - unfold main. rewrite Hparse. reflexivity.
  - apply parse_args_inr in Hparse as [_ Hrec].
    rewrite !(main_unfold argv _ _ Hrec). cbv zeta. fold k.
    assert (Hk : 0 < k)
      by (unfold k; destruct (String.eqb (arg_mode argv) "2up"); lia).
    destruct inputs as [| p inputs]; [rewrite firstn_nil; reflexivity |].
    destruct k as [| k']; [lia |].
    rewrite firstn_firstn, Nat.min_id.
    set (used := firstn (S k') (p :: inputs)) in *.
    assert (Hfiles : forallb (is_file files') used
                     = forallb (is_file files) used).
    { clear - Hsame. induction used as [| x used IH]; [reflexivity |].
      cbn [forallb]. rewrite IH by (intros y Hy; apply Hsame; right; exact Hy).
      unfold is_file. rewrite (Hsame x (or_introl eq_refl)). reflexivity. }
    assert (Hopen : open_all files' used = open_all files used).
    { clear - Hsame. unfold open_all.
      induction used as [| x used IH]; [reflexivity |].
      cbn [flat_map]. rewrite IH by (intros y Hy; apply Hsame; right; exact Hy).
      rewrite (Hsame x (or_introl eq_refl)). reflexivity. }
    rewrite Hfiles, Hopen.
    unfold used at 1. cbn [firstn]. reflexivity.
Qed.

Lemma main_ignores_further_inputs_witness :
  let p := mkPage (F := Q) RotAbsent 612%Q 792%Q in
  let argv :=
    mkArgs "2up" "letter" "portrait" "center" "longest" 0%Q 0%Q 0%Q 1%Q in
  main argv ["a.pdf"; "b.pdf"; "missing.pdf"]
       (fun name => if String.eqb name "missing.pdf" then None
                    else Some (mkReader [p]))
  = main argv ["a.pdf"; "b.pdf"] (fun _ => Some (mkReader [p])).
Proof.
  cbv zeta.
  apply (main_ignores_further_inputs
           (mkArgs "2up" "letter" "portrait" "center" "longest"
              0%Q 0%Q 0%Q 1%Q)
           ["a.pdf"; "b.pdf"; "missing.pdf"]).
  cbn. intros name [<- | [<- | []]]; reflexivity.
Defined.

(** ** Zoom and rotation *)

Local Open Scope Q_scope.

Lemma place_page_locals_nonpositive_zoom (p : Page Q) (x y w h zoom : Q)
    (a : string) :
  zoom <= 0 ->
  place_page_locals p x y w h zoom a = place_page_locals p x y w h 1 a.
Proof.
  intros Hz. unfold place_page_locals. exact_ops.
  apply Qle_bool_iff in Hz. rewrite Hz. reflexivity.
Qed.

Lemma write_sheets_nonpositive_zoom (lay : layout Q)
    (sources : list (PdfReader Q)) (align stop_mode : string) (zoom : Q) :
  zoom <= 0 ->
  write_sheets lay sources align stop_mode zoom
  = write_sheets lay sources align stop_mode 1.
Proof.
  intros Hz. unfold write_sheets.
  destruct (total_sheets stop_mode sources) as [e | total]; [reflexivity |].
  cbn [bind]. apply foldM_ext. intros writer i. unfold compose_sheet.
  f_equal. apply foldM_ext. intros sheet [slot_idx [[[x y] sw] sh]].
  unfold fill_slot, place_page.
  destruct (reader_for_slot sources slot_idx) as [e | reader];
    [reflexivity |].
  cbn [bind].
  destruct (i <? List.length (pages reader))%nat; [| reflexivity].
  destruct (index (pages reader) i) as [e | pg]; [reflexivity |].
  cbn [bind]. rewrite (place_page_locals_nonpositive_zoom pg _ _ _ _ zoom)
    by exact Hz.
  reflexivity.
Qed.

(** X11: A zoom that is zero or negative gives, sheet for sheet and transform for
    transform, the document that zoom 1 gives, under both builders. *)
Theorem nonpositive_zoom_is_zoom_one (sources : list (PdfReader Q))
    (sheet_size orientation align stop_mode : string)
    (margin_in gutter_in gutter_y_in zoom : Q) :
  zoom <= 0 ->
  build_writer_2up sources sheet_size align stop_mode margin_in gutter_in zoom
  = build_writer_2up sources sheet_size align stop_mode margin_in gutter_in 1
  /\ build_writer_4up sources sheet_size orientation align stop_mode
       margin_in gutter_in gutter_y_in zoom
     = build_writer_4up sources sheet_size orientation align stop_mode
         margin_in gutter_in gutter_y_in 1.
Proof.
  intros Hz. unfold build_writer_2up, build_writer_4up. split.
  - destruct (layout_2up sheet_size margin_in gutter_in) as [e | lay];
      [reflexivity |].
    cbn [bind]. apply write_sheets_nonpositive_zoom. exact Hz.
  - destruct (layout_4up sheet_size orientation margin_in gutter_in
                gutter_y_in) as [e | lay]; [reflexivity |].
    cbn [bind]. apply write_sheets_nonpositive_zoom. exact Hz.
Qed.

Lemma nonpositive_zoom_is_zoom_one_witness :
  let p := mkPage (F := Q) RotAbsent 612 792 in
  build_writer_2up [mkReader [p]] "letter" "top" "longest" 0 0 (- (1 # 2))
  = build_writer_2up [mkReader [p]] "letter" "top" "longest" 0 0 1.
Proof.
  cbv zeta.
  apply (nonpositive_zoom_is_zoom_one
           [mkReader [mkPage RotAbsent 612 792]] "letter" "portrait" "top"
           "longest" 0 0 0 (- (1 # 2))).
  discriminate.
Defined.

Lemma radians_neg_90 : Ctm.radians (-90) = (- (PI / 2))%R.
Proof. unfold Ctm.radians. field. Qed.

Lemma radians_neg_180 : Ctm.radians (-180) = (- PI)%R.
Proof. unfold Ctm.radians. field. Qed.

Lemma radians_neg_270 : Ctm.radians (-270) = (- (3 * (PI / 2)))%R.
Proof. unfold Ctm.radians. field. Qed.

(** X12: where the transform of [place_page] sends a point [(px, py)] of the
    page, by the page's rotation [rot] (with [s] the effective scale): for
    0, to [(x_offset + s*px, y_offset + s*py)]; for 90, to
    [(x_offset + s*py, y_offset - s*px)]; for 180, to
    [(x_offset - s*px, y_offset - s*py)]; for 270, to
    [(x_offset - s*py, y_offset + s*px)]. The rotation turns the page about
    its origin and nothing moves it back: only for rotation 0 do the points
    of the page go to the right of and above the offsets. *)
Theorem placement_of_a_point (p : Page Q)
    (slot_x slot_y slot_w slot_h zoom : Q) (align : string) :
  has_area p = true ->
  exists l,
    place_page_locals p slot_x slot_y slot_w slot_h zoom align = inr l
    /\ forall px py : R,
         let x0 := Q2R (l_x_offset l) in
         let y0 := Q2R (l_y_offset l) in
         let s := Q2R (l_scale l) in
         (rotation_or_0 p = 0%Z ->
          apply_on (Ctm.ctm (l_t l)) px py = (x0 + s * px, y0 + s * py)%R)
         /\ (rotation_or_0 p = 90%Z ->
             apply_on (Ctm.ctm (l_t l)) px py
             = (x0 + s * py, y0 - s * px)%R)
         /\ (rotation_or_0 p = 180%Z ->
             apply_on (Ctm.ctm (l_t l)) px py
             = (x0 - s * px, y0 - s * py)%R)
         /\ (rotation_or_0 p = 270%Z ->
             apply_on (Ctm.ctm (l_t l)) px py
             = (x0 - s * py, y0 + s * px)%R).
Proof.
  intros Harea.
  destruct (place_page_locals_succeeds p slot_x slot_y slot_w slot_h zoom
              align Harea) as [l Hl].
  exists l. split; [exact Hl |].
  apply place_page_locals_inr in Hl.
  destruct Hl as (_ & _ & _ & _ & Hrot & _ & _ & _ & _ & Ht).
  intros px py. cbv zeta. rewrite Ht, Hrot.
  repeat split; intros ->; cbn [Z.eqb Pos.eqb app]; unfold Ctm.ctm;
    cbn [fold_left Ctm.op_matrix Z.opp];
    unfold apply_on, Ctm.matrix_multiply, Ctm.identity, Ctm.rotation_matrix,
      Ctm.scale_matrix, Ctm.translation_matrix;
    cbn [Ctm.m_a Ctm.m_b Ctm.m_c Ctm.m_d Ctm.m_e Ctm.m_f].
  - f_equal; ring.
  - rewrite radians_neg_90, cos_neg, sin_neg, cos_PI2, sin_PI2.
    f_equal; ring.
  - rewrite radians_neg_180, cos_neg, sin_neg, cos_PI, sin_PI.
    f_equal; ring.
  - rewrite radians_neg_270, cos_neg, sin_neg, cos_3PI2, sin_3PI2.
    f_equal; ring.
Qed.

Lemma placement_of_a_point_witness :
  exists l,
    place_page_locals (mkPage (F := Q) (RotInt 90) 792 612) 0 0 396 612 1
      "bottom" = inr l
    /\ l_y_offset l = 0
    /\ forall px py : R,
         snd (apply_on (Ctm.ctm (l_t l)) px py)
         = (Q2R 0 - Q2R (l_scale l) * px)%R.
Proof.
  destruct (placement_of_a_point (mkPage (RotInt 90) 792 612) 0 0 396 612 1
              "bottom" eq_refl) as (l & Hl & Hpoint).
  exists l. split; [exact Hl |].
  assert (Hy : l_y_offset l = 0).
  { apply place_page_locals_inr in Hl.
    destruct Hl as (_ & _ & _ & _ & _ & _ & _ & Hy & _). exact Hy. }
  split; [exact Hy |].
  intros px py. destruct (Hpoint px py) as (_ & H90 & _).
  rewrite (H90 eq_refl). cbn [snd]. rewrite Hy. reflexivity.
Defined.

(** ** The selection of the input files *)

Local Open Scope nat_scope.

Lemma last_cons_default {A} (x : A) (l : list A) (d : A) :
  last (x :: l) d = last l x.
Proof.
  revert x d. induction l as [| y l IH]; intros x d; [reflexivity |].
  change (last (x :: y :: l) d) with (last (y :: l) d).
  rewrite (IH y d), (IH y x). reflexivity.
Qed.

Lemma index_last_inr {A} (picks : list A) (d : A) :
  picks <> [] -> index_last picks = inr (last picks d).
Proof.
  destruct picks as [| x l]; [contradiction |]. intros _.
  unfold index_last. rewrite last_cons_default. reflexivity.
Qed.

(** The padding loop, given enough turns, appends copies of the last
    item up to [max_count] items. *)
Lemma pad_loop_spec {A} (max_count : nat) (d : A) :
  forall turns (picks : list A),
    picks <> [] -> max_count - List.length picks <= turns ->
    pad_loop turns max_count picks
    = inr (picks ++ repeat (last picks d) (max_count - List.length picks)).
Proof.
  induction turns as [| turns IH]; intros picks Hne Hturns.
  - cbn [pad_loop]. replace (max_count - List.length picks) with 0 by lia.
    cbn. rewrite app_nil_r. reflexivity.
  - cbn [pad_loop].
    destruct (Nat.ltb_spec (List.length picks) max_count) as [Hlt | Hge].
    + rewrite (index_last_inr picks d Hne). cbn [bind].
      rewrite IH.
      * rewrite last_last, length_app. cbn [List.length].
        replace (max_count - List.length picks)
          with (S (max_count - (List.length picks + 1))) by lia.
        cbn [repeat]. rewrite <- app_assoc. reflexivity.
      * intros E. apply app_eq_nil in E as [_ E]. discriminate.
      * rewrite length_app. cbn [List.length]. lia.
    + replace (max_count - List.length picks) with 0 by lia.
      cbn. rewrite app_nil_r. reflexivity.
Qed.

Lemma pad_picks_nonempty {A} (max_count : nat) (picks : list A) (d : A) :
  picks <> [] ->
  pad_picks max_count picks
  = inr (firstn max_count
           (picks ++ repeat (last picks d) (max_count - List.length picks))).
Proof.
  intros Hne. unfold pad_picks.
  rewrite (pad_loop_spec max_count d _ picks Hne (le_n _)). reflexivity.
Qed.

Lemma padded_length {A} (max_count : nat) (l : list A) (a : A) :
  List.length (firstn max_count (l ++ repeat a (max_count - List.length l)))
  = max_count.
Proof.
  rewrite length_firstn, length_app, repeat_length. lia.
Qed.

Lemma pad_picks_inr {A} (max_count : nat) (picks padded : list A) :
  pad_picks max_count picks = inr padded ->
  List.length padded = max_count
  /\ forall x, In x padded -> In x picks.
Proof.
  destruct picks as [| x0 picks].
  - unfold pad_picks. cbn [List.length]. rewrite Nat.sub_0_r.
    destruct max_count as [| n]; cbn.
    + intros E. injection E as <-. split; [reflexivity | intros x []].
    + discriminate.
  - set (l := x0 :: picks).
    rewrite (pad_picks_nonempty max_count l x0) by discriminate.
    intros E.
    assert (E' : firstn max_count
                   (l ++ repeat (last l x0) (max_count - List.length l))
                 = padded) by congruence.
    clear E. rewrite <- E'. split.
    + apply padded_length.
    + intros x Hx. apply In_firstn in Hx. apply in_app_or in Hx as [Hx | Hx];
        [exact Hx |].
      apply repeat_spec in Hx. subst x.
      destruct (exists_last (l := l)) as (l' & a & El); [discriminate |].
      rewrite El, last_last. apply in_or_app. right. left. reflexivity.
Qed.

(** The item at a position of the padded list is the item of the given list
    at that position, clamped to the last one. *)
Lemma padded_nth {A} (max_count : nat) (picks : list A) (d : A) (i : nat) :
  picks <> [] -> i < max_count ->
  nth_error
    (firstn max_count
       (picks ++ repeat (last picks d) (max_count - List.length picks))) i
  = nth_error picks (Nat.min i (List.length picks - 1)).
Proof.
  intros Hne Hi.
  assert (Hlen : 0 < List.length picks)
    by (destruct picks; [contradiction | cbn; lia]).
  rewrite nth_error_firstn.
  destruct (Nat.ltb_spec i max_count) as [_ | Hge]; [| lia].
  destruct (Nat.lt_ge_cases i (List.length picks)) as [Hin | Hout].
  - rewrite nth_error_app1 by exact Hin.
    rewrite Nat.min_l by lia. reflexivity.
  - rewrite nth_error_app2 by exact Hout.
    rewrite Nat.min_r by lia.
    rewrite (nth_error_nth' picks d) by lia.
    rewrite nth_pred_length_last.
    apply nth_error_repeat. lia.
Qed.

(** Copies of the last source appended to the sources change neither the
    number of sheets nor the source of any slot. *)
Lemma fold_left_min_repeat (l : list nat) (x c m : nat) :
  In c (x :: l) ->
  fold_left Nat.min (l ++ repeat c m) x = fold_left Nat.min l x.
Proof.
  intros Hin. rewrite fold_left_app.
  destruct (fold_left_min_spec l x) as [_ Hall].
  rewrite Forall_forall in Hall. specialize (Hall c Hin).
  set (y := fold_left Nat.min l x) in *. clearbody y.
  induction m as [| m IH]; [reflexivity |].
  cbn [repeat fold_left]. rewrite Nat.min_l by lia. exact IH.
Qed.

Lemma fold_left_max_repeat (l : list nat) (x c m : nat) :
  In c (x :: l) ->
  fold_left Nat.max (l ++ repeat c m) x = fold_left Nat.max l x.
Proof.
  intros Hin. rewrite fold_left_app.
  destruct (fold_left_max_spec l x) as [_ Hall].
  rewrite Forall_forall in Hall. specialize (Hall c Hin).
  set (y := fold_left Nat.max l x) in *. clearbody y.
  induction m as [| m IH]; [reflexivity |].
  cbn [repeat fold_left]. rewrite Nat.max_l by lia. exact IH.
Qed.

Section Padding_facts.
Context {F : Type} {PF : PyFloat F}.

Lemma last_In {A} (l : list A) (d : A) : l <> [] -> In (last l d) l.
Proof.
  intros Hne. destruct (exists_last Hne) as (l' & a & ->).
  rewrite last_last. apply in_or_app. right. left. reflexivity.
Qed.

Lemma total_sheets_padded (stop_mode : string) (sources : list (PdfReader F))
    (d : PdfReader F) (m : nat) :
  sources <> [] ->
  total_sheets stop_mode (sources ++ repeat (last sources d) m)
  = total_sheets stop_mode sources.
Proof.
  intros Hne. unfold total_sheets.
  rewrite map_app, map_repeat.
  set (count := fun r : PdfReader F => List.length (pages r)).
  assert (Hin : In (count (last sources d)) (map count sources))
    by (apply in_map, last_In; exact Hne).
  destruct sources as [| r sources]; [contradiction |].
  cbn [map app] in *.
  destruct (String.eqb stop_mode "shortest"); cbn [min_list max_list].
  - rewrite fold_left_min_repeat by exact Hin. reflexivity.
  - rewrite fold_left_max_repeat by exact Hin. reflexivity.
Qed.

Lemma reader_for_slot_padded (sources : list (PdfReader F))
    (d : PdfReader F) (m slot_idx : nat) :
  sources <> [] ->
  reader_for_slot (sources ++ repeat (last sources d) m) slot_idx
  = reader_for_slot sources slot_idx.
Proof.
  intros Hne.
  assert (Hlen : 0 < List.length sources)
    by (destruct sources; [contradiction | cbn; lia]).
  rewrite (reader_for_slot_nth sources slot_idx d Hne).
  rewrite (reader_for_slot_nth _ slot_idx d)
    by (intros E; apply app_eq_nil in E as [E _]; contradiction).
  f_equal. rewrite length_app, repeat_length.
  destruct (Nat.lt_ge_cases slot_idx (List.length sources)) as [Hin | Hout].
  - rewrite !Nat.min_l by lia. apply app_nth1. exact Hin.
  - rewrite (Nat.min_r slot_idx (List.length sources - 1)) by lia.
    rewrite nth_pred_length_last.
    destruct m as [| m].
    + cbn [repeat]. rewrite app_nil_r, Nat.add_0_r.
      rewrite Nat.min_r by lia. apply nth_pred_length_last.
    + rewrite app_nth2 by lia.
      apply nth_repeat_lt. lia.
Qed.

Lemma write_sheets_padded (lay : layout F) (sources : list (PdfReader F))
    (d : PdfReader F) (m : nat) (align stop_mode : string) (zoom : F) :
  sources <> [] ->
  write_sheets lay (sources ++ repeat (last sources d) m) align stop_mode zoom
  = write_sheets lay sources align stop_mode zoom.
Proof.
  intros Hne. unfold write_sheets.
  rewrite (total_sheets_padded stop_mode sources d m Hne).
  destruct (total_sheets stop_mode sources) as [e | total]; [reflexivity |].
  cbn [bind]. apply foldM_ext. intros writer i. unfold compose_sheet.
  f_equal. apply foldM_ext. intros sheet [slot_idx [[[x y] sw] sh]].
  unfold fill_slot.
  rewrite (reader_for_slot_padded sources d m slot_idx Hne). reflexivity.
Qed.

Lemma open_all_all_files (files : string -> option (PdfReader F))
    (l : list string) :
  forallb (is_file files) l = true ->
  Forall2 (fun p r => files p = Some r) l (open_all files l).
Proof.
  unfold open_all, is_file.
  induction l as [| p l IH]; intros Hall; [constructor |].
  cbn [forallb flat_map] in *. apply andb_true_iff in Hall as [Hp Hl].
  destruct (files p) as [r |] eqn:E; [| discriminate].
  cbn [app]. constructor; [exact E | apply IH; exact Hl].
Qed.

Lemma Forall2_last {A B} (R : A -> B -> Prop) (l : list A) (l' : list B)
    (a : A) (b : B) :
  Forall2 R l l' -> l <> [] -> R (last l a) (last l' b).
Proof.
  intros HF. induction HF as [| x y l l' Hxy HF IH]; [contradiction |].
  intros _. destruct HF as [| x' y' l l' Hxy' HF].
  - exact Hxy.
  - change (R (last (x' :: l) a) (last (y' :: l') b)).
    apply IH. discriminate.
Qed.

Lemma open_all_padded (files : string -> option (PdfReader F))
    (l : list string) (a : string) (d : PdfReader F) (m : nat) :
  l <> [] -> forallb (is_file files) l = true ->
  open_all files (l ++ repeat (last l a) m)
  = open_all files l ++ repeat (last (open_all files l) d) m.
Proof.
  intros Hne Hall.
  pose proof (Forall2_last _ _ _ a d (open_all_all_files files l Hall) Hne)
    as Hlast.
  unfold open_all at 1. rewrite flat_map_app. fold (open_all files l).
  f_equal. induction m as [| m IH]; [reflexivity |].
  cbn [repeat flat_map]. rewrite Hlast, IH. reflexivity.
Qed.

Lemma forallb_padded (files : string -> option (PdfReader F))
    (l : list string) (a : string) (m : nat) :
  l <> [] ->
  forallb (is_file files) (l ++ repeat (last l a) m)
  = forallb (is_file files) l.
Proof.
  intros Hne. rewrite forallb_app.
  destruct (forallb (is_file files) l) eqn:Hall; [| reflexivity].
  cbn [andb]. rewrite forallb_forall in Hall.
  specialize (Hall (last l a) (last_In l a Hne)).
  induction m as [| m IH]; [reflexivity |].
  cbn [repeat forallb]. rewrite Hall, IH. reflexivity.
Qed.

End Padding_facts.

(** X13: [resolve_inputs] on a non-empty list of positional inputs reads nothing
    from the console and returns exactly as many paths as the mode has
    slots (2 or 4): position [i] holds the input of index
    [min(i, len(inputs) - 1)], so a short list is padded with its last
    input and a long one is cut. *)
Theorem resolve_inputs_pads {RT : Runtime} (mode : string)
    (inputs listing stdin : list string) :
  inputs <> [] ->
  let needed := if String.eqb mode "2up" then 2 else 4 in
  exists picks,
    resolve_inputs mode inputs listing stdin = inr (picks, stdin)
    /\ List.length picks = needed
    /\ forall i, i < needed ->
         nth_error picks i
         = nth_error inputs (Nat.min i (List.length inputs - 1)).
Proof.
  intros Hne. cbv zeta.
  set (needed := if String.eqb mode "2up" then 2 else 4).
  unfold resolve_inputs. fold needed.
  destruct inputs as [| p inputs]; [contradiction |].
  set (l := p :: inputs) in *.
  unfold console_lift. rewrite (pad_picks_nonempty needed l p Hne).
  eexists. split; [reflexivity |]. split.
  - apply padded_length.
  - intros i Hi. apply (padded_nth needed l p i Hne Hi).
Qed.

Lemma resolve_inputs_pads_witness :
  resolve_inputs "4up" ["a.pdf"; "b.pdf"] [] ["unread"]
  = inr (["a.pdf"; "b.pdf"; "b.pdf"; "b.pdf"], ["unread"]).
Proof.
  destruct (resolve_inputs_pads "4up" ["a.pdf"; "b.pdf"] [] ["unread"])
    as (picks & Hrun & Hlen & Hnth); [discriminate |].
  rewrite Hrun. cbn in Hlen, Hnth.
  destruct picks as [| a [| b [| c [| d [| e rest]]]]]; try discriminate.
  pose proof (Hnth 0 ltac:(lia)) as H0.
  pose proof (Hnth 1 ltac:(lia)) as H1.
  pose proof (Hnth 2 ltac:(lia)) as H2.
  pose proof (Hnth 3 ltac:(lia)) as H3.
  cbn in H0, H1, H2, H3. congruence.
Defined.

(** X14: padding and clamping agree: [main] run on the list that
    [resolve_inputs] returns for the positional inputs gives the same
    result as [main] run on the positional inputs themselves, whose missing
    slots the builders fill by clamping the slot index. *)
Theorem padding_agrees_with_clamping {RT : Runtime} {F : Type}
    {PF : PyFloat F} (argv : Namespace F)
    (inputs listing stdin picks rest : list string)
    (files : string -> option (PdfReader F)) :
  inputs <> [] ->
  resolve_inputs (arg_mode argv) inputs listing stdin = inr (picks, rest) ->
  main argv picks files = main argv inputs files.
Proof.
  intros Hne Hres.
  set (k := if String.eqb (arg_mode argv) "2up" then 2 else 4).
  assert (Hk : 0 < k)
    by (unfold k; destruct (String.eqb (arg_mode argv) "2up"); lia).
  set (a := hd EmptyString inputs).
  set (padded := firstn k (inputs ++ repeat (last inputs a)
                                      (k - List.length inputs))).
  assert (Hpicks : picks = padded).
  { unfold resolve_inputs in Hres. fold k in Hres.
    destruct inputs as [| p0 inputs0]; [contradiction |].
    unfold console_lift in Hres.
    rewrite (pad_picks_nonempty k (p0 :: inputs0) a Hne) in Hres.
    unfold padded. congruence. }
  subst picks. clear Hres.
  destruct (parse_args argv) as [e | args] eqn:Hparse.
  { unfold main. rewrite Hparse. reflexivity. }
  apply parse_args_inr in Hparse as [_ Hrec].
  assert (Hlen : List.length padded = k) by apply padded_length.
  assert (Hpne : padded <> [])
    by (intros E; rewrite E in Hlen; cbn in Hlen; lia).
  rewrite (main_unfold_nonempty argv padded files Hrec Hpne).
  rewrite (main_unfold_nonempty argv inputs files Hrec Hne).
  cbv zeta. fold k.
  rewrite (firstn_all2 padded) by lia.
  destruct (Nat.le_gt_cases k (List.length inputs)) as [Hlong | Hshort].
  - assert (Esame : padded = firstn k inputs).
    { unfold padded. replace (k - List.length inputs) with 0 by lia.
      cbn [repeat]. rewrite app_nil_r. reflexivity. }
    rewrite Esame. reflexivity.
  - assert (Eall : firstn k inputs = inputs) by (apply firstn_all2; lia).
    assert (Epad : padded = inputs ++ repeat (last inputs a)
                                        (k - List.length inputs)).
    { unfold padded. apply firstn_all2.
      rewrite length_app, repeat_length. lia. }
    rewrite Eall, Epad, (forallb_padded files inputs a _ Hne).
    destruct (forallb (is_file files) inputs) eqn:Hall; [| reflexivity].
    rewrite (open_all_padded files inputs a (mkReader []) _ Hne Hall).
    assert (Hsrc : open_all files inputs <> []).
    { intros E. apply (f_equal (@List.length _)) in E.
      rewrite (open_all_length files inputs Hall) in E.
      destruct inputs; [contradiction | discriminate]. }
    unfold build_writer_2up, build_writer_4up.
    destruct (String.eqb (arg_mode argv) "2up").
    + destruct (layout_2up _ _ _) as [e | lay]; [reflexivity |].
      cbn [bind]. rewrite write_sheets_padded by exact Hsrc. reflexivity.
    + destruct (layout_4up _ _ _ _ _) as [e | lay]; [reflexivity |].
      cbn [bind]. rewrite write_sheets_padded by exact Hsrc. reflexivity.
Qed.

Lemma padding_agrees_with_clamping_witness :
  let p := mkPage (F := Q) RotAbsent 612%Q 792%Q in
  let argv :=
    mkArgs "4up" "a4" "portrait" "center" "longest" 0%Q 0%Q 0%Q 1%Q in
  main argv ["a.pdf"; "b.pdf"; "b.pdf"; "b.pdf"]
       (fun _ => Some (mkReader [p]))
  = main argv ["a.pdf"; "b.pdf"] (fun _ => Some (mkReader [p])).
Proof.
  cbv zeta.
  apply (padding_agrees_with_clamping
           (mkArgs "4up" "a4" "portrait" "center" "longest"
              0%Q 0%Q 0%Q 1%Q)
           ["a.pdf"; "b.pdf"] [] [] _ []).
  - discriminate.
  - reflexivity.
Defined.

Section Selection_facts.
Context {RT : Runtime}.

Lemma insert_by_lower_perm (x : string) (l : list string) :
  Permutation (x :: l) (insert_by_lower x l).
Proof.
  induction l as [| y l IH]; [apply Permutation_refl |].
  cbn [insert_by_lower].
  destruct (String.leb (str_lower x) (str_lower y)).
  - apply Permutation_refl.
  - apply (perm_trans (perm_swap y x l)). apply perm_skip. exact IH.
Qed.

Lemma insert_by_lower_sorted (x : string) (l : list string) :
  sorted_by_lower l -> sorted_by_lower (insert_by_lower x l).
Proof.
  unfold sorted_by_lower.
  induction l as [| y l IH]; intros Hs.
  - repeat constructor.
  - cbn [insert_by_lower].
    destruct (String.leb (str_lower x) (str_lower y)) eqn:Hxy.
    + constructor; [exact Hs | constructor; exact Hxy].
    + inversion Hs as [| ? ? Hsl Hhd]; subst.
      constructor; [apply IH; exact Hsl |].
      assert (Hyx : String.leb (str_lower y) (str_lower x) = true).
      { destruct (String.leb_total (str_lower x) (str_lower y)) as [E | E];
          [congruence | exact E]. }
      destruct l as [| z l]; cbn [insert_by_lower].
      * constructor. exact Hyx.
      * destruct (String.leb (str_lower x) (str_lower z)).
        -- constructor. exact Hyx.
        -- inversion Hhd; subst. constructor. assumption.
Qed.

Lemma sort_by_lower_In (l : list string) (f : string) :
  In f (sort_by_lower l) <-> In f l.
Proof.
  unfold sort_by_lower. induction l as [| x l IH]; [reflexivity |].
  cbn [fold_right]. split; intros Hin.
  - apply (Permutation_in _ (Permutation_sym (insert_by_lower_perm x _)))
      in Hin.
    destruct Hin as [-> | Hin]; [left; reflexivity | right; apply IH, Hin].
  - apply (Permutation_in _ (insert_by_lower_perm x _)).
    destruct Hin as [-> | Hin]; [left; reflexivity | right; apply IH, Hin].
Qed.

Lemma list_pdfs_in_cwd_In (listing : list string) (f : string) :
  In f (list_pdfs_in_cwd listing) -> In f listing /\ is_pdf_name f = true.
Proof.
  unfold list_pdfs_in_cwd. rewrite sort_by_lower_In. apply filter_In.
Qed.

Lemma select_files_In (files : list string) :
  forall idx picks, select_files files idx = inr picks ->
  forall f, In f picks -> In f files.
Proof.
  induction idx as [| i idx IH]; intros picks Hsel f Hin.
  - injection Hsel as <-. destruct Hin.
  - cbn [select_files] in Hsel.
    apply bind_inr in Hsel as (f0 & Hf0 & Hsel).
    apply bind_inr in Hsel as (fs & Hfs & Hsel). injection Hsel as <-.
    destruct Hin as [<- | Hin].
    + unfold index in Hf0.
      destruct (nth_error files i) eqn:E; [| discriminate].
      injection Hf0 as <-. apply (nth_error_In _ _ E).
    + apply (IH fs Hfs f Hin).
Qed.

Lemma pick_loop_inr (files : list string) (max_count : nat) :
  forall stdin picks rest,
    pick_loop files max_count stdin = inr (picks, rest) ->
    List.length picks = max_count
    /\ (forall f, In f picks -> In f files)
    /\ exists read, read <> [] /\ stdin = read ++ rest.
Proof.
  induction stdin as [| line stdin IH]; intros picks rest Hrun;
    [discriminate |].
  cbn [pick_loop] in Hrun.
  assert (Hnext : pick_loop files max_count stdin = inr (picks, rest) ->
                  List.length picks = max_count
                  /\ (forall f, In f picks -> In f files)
                  /\ exists read, read <> [] /\ line :: stdin = read ++ rest).
  { intros Hloop. destruct (IH picks rest Hloop) as (Hlen & Hin & read & _ & ->).
    split; [exact Hlen |]. split; [exact Hin |].
    exists (line :: read). split; [discriminate | reflexivity]. }
  destruct (String.eqb (str_strip line) ""); [apply Hnext; exact Hrun |].
  destruct (parse_selection _ _ _) as [e | [idx |]];
    [discriminate | | apply Hnext; exact Hrun].
  unfold console_lift in Hrun.
  destruct (bind (select_files files idx) (pad_picks max_count))
    as [e | padded] eqn:Hpad; [discriminate |].
  injection Hrun as <- <-.
  apply bind_inr in Hpad as (sel & Hsel & Hpad).
  apply pad_picks_inr in Hpad as [Hlen Hmem].
  split; [exact Hlen |]. split.
  - intros f Hf. apply (select_files_In files idx sel Hsel f (Hmem f Hf)).
  - exists [line]. split; [discriminate | reflexivity].
Qed.

End Selection_facts.

(** X15: [list_pdfs_in_cwd] returns the names of the listing whose lowered form
    ends with ".pdf", each as often as it is listed, in the order of their
    lowered forms. *)
Theorem list_pdfs_sorted_permutation {RT : Runtime} (listing : list string) :
  Permutation (filter is_pdf_name listing) (list_pdfs_in_cwd listing)
  /\ sorted_by_lower (list_pdfs_in_cwd listing).
Proof.
  unfold list_pdfs_in_cwd, sort_by_lower.
  induction (filter is_pdf_name listing) as [| x l [IHp IHs]].
  - split; [apply Permutation_refl | constructor].
  - cbn [fold_right]. split.
    + apply (perm_trans (perm_skip x IHp)). apply insert_by_lower_perm.
    + apply insert_by_lower_sorted. exact IHs.
Qed.

(** X16: [interactive_pick] returns only names of the listing whose lowered form
    ends with ".pdf"; when the folder has such files it has read at least
    one line and returns exactly [max_count] names; when it has none it
    reads nothing and returns no name. *)
Theorem interactive_pick_result {RT : Runtime} (listing : list string)
    (max_count : nat) (stdin picks rest : list string) :
  interactive_pick listing max_count stdin = inr (picks, rest) ->
  (forall f, In f picks -> In f listing /\ is_pdf_name f = true)
  /\ (list_pdfs_in_cwd listing <> [] ->
      List.length picks = max_count
      /\ exists read, read <> [] /\ stdin = read ++ rest)
  /\ (list_pdfs_in_cwd listing = [] -> picks = [] /\ rest = stdin).
Proof.
  unfold interactive_pick. intros Hrun.
  destruct (list_pdfs_in_cwd listing) as [| f0 files] eqn:Hfiles.
  - injection Hrun as <- <-.
    split; [intros f [] |]. split; [contradiction | split; reflexivity].
  - apply pick_loop_inr in Hrun as (Hlen & Hmem & Hread).
    split.
    + intros f Hf. apply list_pdfs_in_cwd_In. rewrite Hfiles.
      apply (Hmem f Hf).
    + split; [intros _; split; assumption | discriminate].
Qed.

Lemma interactive_pick_result_witness :
  exists picks,
    interactive_pick ["b.pdf"; "A.PDF"; "x.txt"] 4
      [""; "3"; "x"; " 2 1 "; "rest"] = inr (picks, ["rest"])
    /\ List.length picks = 4
    /\ forall f, In f picks -> In f ["b.pdf"; "A.PDF"; "x.txt"].
Proof.
  destruct (interactive_pick ["b.pdf"; "A.PDF"; "x.txt"] 4
              [""; "3"; "x"; " 2 1 "; "rest"]) as [e | [picks rest]] eqn:Hrun;
    [vm_compute in Hrun; discriminate |].
  destruct (interactive_pick_result _ _ _ _ _ Hrun) as (Hmem & Hsome & _).
  assert (Hrest : rest = ["rest"])
    by (vm_compute in Hrun; congruence).
  subst rest. exists picks. split; [reflexivity |]. split.
  - apply Hsome. vm_compute. discriminate.
  - intros f Hf. apply (Hmem f Hf).
Defined.

Section Search_facts.
Context {RT : Runtime}.

Lemma matching_file_found (partial_name path : string) :
  In path (flat_map (matches_in (str_lower partial_name)) PDF_FOLDERS) ->
  found_for partial_name path.
Proof.
  intros Hin. apply in_flat_map in Hin as (folder & Hfolder & Hin).
  unfold matches_in in Hin.
  destruct (os_listdir folder) as [names |] eqn:Hdir; [| destruct Hin].
  apply in_map_iff in Hin as (f & <- & Hf).
  apply filter_In in Hf as [Hf Hok].
  apply andb_true_iff in Hok as [Hpdf Hsub].
  exists folder, names, f. repeat split; assumption.
Qed.

Lemma find_pdf_found (partial_name : string) (stdin rest : list string)
    (found : option string) :
  find_pdf partial_name stdin = inr (found, rest) ->
  forall path, found = Some path -> found_for partial_name path.
Proof.
  unfold find_pdf.
  set (matching_files :=
         flat_map (matches_in (str_lower partial_name)) PDF_FOLDERS).
  intros Hrun path ->.
  assert (Hmember : forall f, In f matching_files -> found_for partial_name f)
    by (intros f; apply matching_file_found).
  destruct matching_files as [| m1 [| m2 more]] eqn:Hm.
  - discriminate.
  - injection Hrun as -> _. apply Hmember. left. reflexivity.
  - unfold console_bind, input in Hrun.
    destruct stdin as [| line stdin']; [discriminate |].
    destruct (negb (str_isdigit (str_strip line))); [discriminate |].
    unfold console_lift in Hrun.
    destruct (str_int (str_strip line)) as [e | n]; [discriminate |].
    destruct ((n <? 1)%Z || (n >? _)%Z); [discriminate |].
    destruct (index (m1 :: m2 :: more) (Z.to_nat (n - 1))) as [e | f]
      eqn:Hidx; [discriminate |].
    injection Hrun as -> _.
    apply Hmember. unfold index in Hidx.
    destruct (nth_error (m1 :: m2 :: more) (Z.to_nat (n - 1))) eqn:E;
      [| discriminate].
    injection Hidx as <-. apply (nth_error_In _ _ E).
Qed.

End Search_facts.

(** X17: A path that [find_pdf] returns is a file of one of the default folders
    whose lowered name ends with ".pdf" and contains the lowered search
    text; [find_pdf] reads at most one line of the console, and none when
    it returns no file for want of a match. *)
Theorem find_pdf_returns_a_match {RT : Runtime} (partial_name : string)
    (stdin rest : list string) (found : option string) :
  find_pdf partial_name stdin = inr (found, rest) ->
  (forall path, found = Some path -> found_for partial_name path)
  /\ (rest = stdin \/ exists line, stdin = line :: rest)
  /\ (flat_map (matches_in (str_lower partial_name)) PDF_FOLDERS = [] ->
      found = None /\ rest = stdin).
Proof.
  unfold find_pdf.
  set (matching_files :=
         flat_map (matches_in (str_lower partial_name)) PDF_FOLDERS).
  intros Hrun.
  assert (Hmember : forall path, In path matching_files ->
                                 found_for partial_name path)
    by (intros path; apply matching_file_found).
  destruct matching_files as [| m1 [| m2 more]] eqn:Hm.
  - injection Hrun as <- <-.
    split; [discriminate |]. split; [left; reflexivity |].
    intros _. split; reflexivity.
  - injection Hrun as <- <-.
    split; [| split; [left; reflexivity | discriminate]].
    intros path E. injection E as <-. apply Hmember. left. reflexivity.
  - split; [| split; [| discriminate]].
    + intros path E.
      apply (find_pdf_found partial_name stdin rest found); [| exact E].
      unfold find_pdf. fold matching_files. rewrite Hm. exact Hrun.
    + right.
      unfold console_bind, input in Hrun.
      destruct stdin as [| line stdin']; [discriminate |].
      exists line.
      destruct (negb (str_isdigit (str_strip line)));
        [injection Hrun as _ <-; reflexivity |].
      unfold console_lift in Hrun.
      destruct (str_int (str_strip line)) as [e | n]; [discriminate |].
      destruct ((n <? 1)%Z || (n >? _)%Z);
        [injection Hrun as _ <-; reflexivity |].
      destruct (index (m1 :: m2 :: more) (Z.to_nat (n - 1))) as [e | f];
        [discriminate |].
      injection Hrun as _ <-. reflexivity.
Qed.

Lemma find_pdf_returns_a_match_witness :
  exists path,
    find_pdf "RADIO" ["2"; "next"] = inr (Some path, ["next"])
    /\ found_for "RADIO" path.
Proof.
  destruct (find_pdf "RADIO" ["2"; "next"]) as [e | [found rest]] eqn:Hrun;
    [vm_compute in Hrun; discriminate |].
  destruct (find_pdf_returns_a_match _ _ _ _ Hrun) as (Hfound & _).
  destruct found as [path |]; [| vm_compute in Hrun; discriminate].
  assert (Hrest : rest = ["next"]) by (vm_compute in Hrun; congruence).
  subst rest. exists path. split; [reflexivity |].
  apply Hfound. reflexivity.
Defined.

(** X18: without [--manual-inputs] the positional inputs are not looked at: the
    selection reads the search text from the console and returns at most
    one path, which is a file found for the stripped text; an empty text
    selects nothing and reads nothing more. *)
Theorem default_mode_selects_at_most_one {RT : Runtime} (mode : string)
    (inputs listing stdin selected rest : list string) :
  select_inputs false mode inputs listing stdin = inr (selected, rest) ->
  exists line tail,
    stdin = line :: tail
    /\ (List.length selected <= 1)%nat
    /\ (forall path, In path selected -> found_for (str_strip line) path)
    /\ (str_strip line = "" -> selected = [] /\ rest = tail).
Proof.
  unfold select_inputs, get_single_input_from_search, console_bind, input.
  intros Hrun.
  destruct stdin as [| line tail]; [discriminate |].
  exists line, tail. split; [reflexivity |].
  destruct (String.eqb_spec (str_strip line) "") as [Eempty | Hfull].
  - injection Hrun as <- <-.
    split; [cbn; lia |]. split; [intros path [] |].
    intros _. split; reflexivity.
  - destruct (find_pdf (str_strip line) tail) as [e | [found rest']]
      eqn:Hfind; [discriminate |].
    pose proof (find_pdf_found _ _ _ _ Hfind) as Hfound.
    destruct found as [path |]; injection Hrun as <- <-.
    + split; [cbn; lia |]. split; [| contradiction].
      intros path' [<- | []]. apply Hfound. reflexivity.
    + split; [cbn; lia |]. split; [intros path [] | contradiction].
Qed.

Lemma default_mode_selects_at_most_one_witness :
  exists selected,
    select_inputs false "4up" ["ignored.pdf"; "also.pdf"] []
      [" tv "; "rest"] = inr (selected, ["rest"])
    /\ (List.length selected <= 1)%nat.
Proof.
  destruct (select_inputs false "4up" ["ignored.pdf"; "also.pdf"] []
              [" tv "; "rest"]) as [e | [selected rest]] eqn:Hrun;
    [vm_compute in Hrun; discriminate |].
  destruct (default_mode_selects_at_most_one _ _ _ _ _ _ Hrun)
    as (line & tail & _ & Hlen & _).
  assert (Hrest : rest = ["rest"]) by (vm_compute in Hrun; congruence).
  subst rest. exists selected. split; [reflexivity | exact Hlen].
Defined.
